(** * dns-rewrites-sync: hub-and-spoke reconciliation of DNS rewrite records

    A shallow embedding of the reconciliation core of the repository:

    - [servers/base.py]: the [DNSRecord] model with its canonical string
      encoding, the retry helper [_request_with_retry] and the legacy
      [sync_records] diff;
    - [db.py]: the SQLite cache and history store, as tables of rows;
    - [notifications.py]: the two notification entry points, [_dispatch]
      and the two transports;
    - [sync.py]: [refresh_hub_cache], [sync_all_enabled_spokes],
      [perform_sync] and [_apply_diff].

    Python dicts are [gmap]s, Python sets are [gset]s, exceptions are values
    of a result type, and the mutable world (database, remote servers,
    notification outbox) is threaded through a small state-and-error monad. *)

From Stdlib Require Import Ascii.
From stdpp Require Import gmap strings list fin_maps.

#[local] Set Warnings "-clear-no-such-hyp".

(** ** Exceptions and results *)

(** The exception classes the code distinguishes.  [except Exception]
    catches every class but [FatalException] (Python's [BaseException]
    outside [Exception]: [KeyboardInterrupt], [SystemExit]);
    [except requests.exceptions.RequestException] catches only
    [RequestException]. *)
Inductive exn_class :=
  | RequestException
  | ValueError
  | DatabaseError
  | OtherException
  | FatalException.

Record exn := Exn { exn_cls : exn_class; exn_msg : string }.

Definition is_Exception (e : exn) : bool :=
  match exn_cls e with FatalException => false | _ => true end.

Definition is_RequestException (e : exn) : bool :=
  match exn_cls e with RequestException => true | _ => false end.

(** [str(e)] *)
Definition str_exn (e : exn) : string := exn_msg e.

Inductive result (A : Type) :=
  | Ok (a : A)
  | Raise (e : exn).
Arguments Ok {A} a.
Arguments Raise {A} e.

(** ** servers/base.py: DNSRecord *)

Module DNSRecord.

Record t := mk { domain : string; value : string; type : string; ttl : option Z }.

(** [f"{self.value} {self.domain}"] *)
Definition to_a_format (self : t) : string :=
  value self +:+ " " +:+ domain self.

(** [f"{self.domain} -> {self.value}"] *)
Definition to_cname_format (self : t) : string :=
  domain self +:+ " -> " +:+ value self.

(** [s.startswith(sep)], returning what follows the separator. *)
Fixpoint strip_prefix (sep s : string) : option string :=
  match sep with
  | "" => Some s
  | String a sep' =>
      match s with
      | "" => None
      | String b s' => if Ascii.eqb a b then strip_prefix sep' s' else None
      end
  end.

(** The leftmost occurrence of [sep] in [s]: the text before it and the
    text after it. *)
Fixpoint partition_at (sep s : string) : option (string * string) :=
  match strip_prefix sep s with
  | Some rest => Some ("", rest)
  | None =>
      match s with
      | "" => None
      | String c s' =>
          match partition_at sep s' with
          | Some (a, b) => Some (String c a, b)
          | None => None
          end
      end
  end.

(** [s.split(sep, 1)] for a non-empty separator: one split at most, at
    the leftmost occurrence. *)
Definition split1 (s sep : string) : list string :=
  match partition_at sep s with
  | Some (a, b) => [a; b]
  | None => [s]
  end.

(** The tuple assignment [x, y = parts]. *)
Definition unpack2 (parts : list string) : result (string * string) :=
  match parts with
  | [x; y] => Ok (x, y)
  | [] => Raise (Exn ValueError "not enough values to unpack (expected 2, got 0)")
  | [_] => Raise (Exn ValueError "not enough values to unpack (expected 2, got 1)")
  | _ => Raise (Exn ValueError "too many values to unpack (expected 2)")
  end.

Definition from_a_string (record_str : string) : result t :=
  match unpack2 (split1 record_str " ") with
  | Ok (ip, domain) => Ok (mk domain ip "A" None)
  | Raise e => Raise e
  end.

Definition from_cname_string (record_str : string) : result t :=
  match unpack2 (split1 record_str " -> ") with
  | Ok (domain, target) => Ok (mk domain target "CNAME" None)
  | Raise e => Raise e
  end.

End DNSRecord.

(** ** servers/base.py: the retry helper *)

Module Response.
Record t := mk { status_code : Z; text : string }.

(** [response.raise_for_status()]: an [HTTPError], which is a
    [RequestException], for a 4xx or 5xx status. *)
Definition raise_for_status (self : t) : result unit :=
  if bool_decide (400 ≤ status_code self < 600)%Z
  then Raise (Exn RequestException ("HTTPError: " +:+ text self))
  else Ok tt.
End Response.

(** The [requests.Session] of an adapter together with the clock it sleeps
    on.  [responses k] is what the network answers to the [k]-th request
    sent through the session; [sent] counts the requests made and [slept]
    lists the arguments of the [time.sleep] calls, oldest first. *)
Record Session := mkSession {
  responses : nat → result Response.t;
  sent : nat;
  slept : list Z;
}.

Definition session_request (s : Session) : result Response.t * Session :=
  (responses s (sent s), mkSession (responses s) (S (sent s)) (slept s)).

Definition time_sleep (wait : Z) (s : Session) : Session :=
  mkSession (responses s) (sent s) (slept s ++ [wait]).

(** [self.retries = config.get('retries', 3)] *)
Definition config_retries (configured : option Z) : Z := default 3%Z configured.

(** [range(n)] *)
Definition range (n : Z) : list Z := Z.of_nat <$> seq 0 (Z.to_nat n).

(** The body of the [try] in [_request_with_retry]: the request, then
    [raise_for_status]. *)
Definition attempt_request (s : Session) : result Response.t * Session :=
  match session_request s with
  | (Ok response, s') =>
      match Response.raise_for_status response with
      | Ok _ => (Ok response, s')
      | Raise e => (Raise e, s')
      end
  | (Raise e, s') => (Raise e, s')
  end.

(** The [for attempt in range(self.retries)] loop.  Falling off the end of
    the loop returns [None]. *)
Fixpoint retry_loop (retries : Z) (attempts : list Z) (s : Session)
  : result (option Response.t) * Session :=
  match attempts with
  | [] => (Ok None, s)
  | attempt :: rest =>
      match attempt_request s with
      | (Ok response, s') => (Ok (Some response), s')
      | (Raise e, s') =>
          if is_RequestException e then
            if bool_decide (attempt = retries - 1)%Z then (Raise e, s')
            else
              let wait := ((attempt + 1) * 2)%Z in
              retry_loop retries rest (time_sleep wait s')
          else (Raise e, s')
      end
  end.

Definition _request_with_retry (retries : Z) (s : Session)
  : result (option Response.t) * Session :=
  retry_loop retries (range retries) s.

(** What the [k]-th request of a session ends in, [raise_for_status]
    included. *)
Definition outcome_at (net : nat → result Response.t) (k : nat) : result Response.t :=
  (attempt_request (mkSession net k [])).1.

(** The first [k] waits of the back-off schedule: 2, 4, 6, ... seconds. *)
Definition backoff (k : nat) : list Z := (λ i : nat, 2 * (Z.of_nat i + 1))%Z <$> seq 0 k.

(** ** Record sets, statistics, configuration *)

(** [Dict[str, Set[str]]]: record type to set of canonical strings. *)
Abbreviation Records := (gmap string (gset string)).

(** The statistics dict, [{'added': 0, ...}]. *)
Abbreviation Stats := (gmap string nat).

(** [records.get(record_type, set())] *)
Definition get_set (records : Records) (record_type : string) : gset string :=
  default ∅ (records !! record_type).

(** [stats.get(key, 0)] *)
Definition get_stat (stats : Stats) (key : string) : nat :=
  default 0 (stats !! key).

(** [stats[key] += 1] *)
Definition incr (key : string) (stats : Stats) : Stats :=
  <[key := get_stat stats key + 1]> stats.

(** [stats[key] += n] *)
Definition incr_by (key : string) (n : nat) (stats : Stats) : Stats :=
  <[key := get_stat stats key + n]> stats.

(** A server entry of the configuration; [cfg_enabled] is [None] when the
    key is absent. *)
Record ServerConfig := mkConfig {
  cfg_name : string;
  cfg_type : string;
  cfg_enabled : option bool;
}.

(** [cfg.get("enabled", True)] *)
Definition enabled (cfg : ServerConfig) : bool := default true (cfg_enabled cfg).

(** Truthiness of an [Optional[str]]: [None] and the empty string are
    false. *)
Definition truthy (error : option string) : bool :=
  match error with
  | Some (String _ _) => true
  | _ => false
  end.

(** ** db.py: the cache and history store *)

Module db.

(** A row of [sync_runs]. *)
Record SyncRun := mkRun {
  server_name : string;
  server_type : string;
  role : string;
  started_at : string;
  finished_at : string;
  added : nat;
  removed : nat;
  conflicts : nat;
  error : option string;
  status : string;
  a_records : nat;
  cname_records : nat;
}.

(** A row of [authoritative_records] or of [spoke_records]: the hub or
    spoke name, the record type, the canonical string, the timestamp. *)
Record Row := mkRow {
  owner : string;
  record_type : string;
  record_str : string;
  updated_at : string;
}.

Record t := mk {
  authoritative_records : list Row;
  cache_meta : gmap string string;
  spoke_records : list Row;
  sync_runs : list SyncRun;
}.

Definition init : t := mk [] ∅ [] [].

(** The rows the two nested [for] loops of [save_hub_records] and
    [save_spoke_records] insert. *)
Definition rows_of (name now : string) (records : Records) : list Row :=
  flat_map (λ '(rtype, record_set),
              (λ rstr, mkRow name rtype rstr now) <$> elements record_set)
           (map_to_list records).

(** [DELETE FROM ... WHERE name = ?] *)
Definition delete_where (name : string) (rows : list Row) : list Row :=
  filter (λ row, owner row ≠ name) rows.

(** [SELECT ... WHERE name = ?] *)
Definition select_where (name : string) (rows : list Row) : list Row :=
  filter (λ row, owner row = name) rows.

Definition save_hub_records (now hub_name : string) (records : Records) (d : t) : t :=
  mk (delete_where hub_name (authoritative_records d) ++ rows_of hub_name now records)
     (<[hub_name := now]> (cache_meta d))
     (spoke_records d)
     (sync_runs d).

(** [records.setdefault(record_type, set()).add(record_str)] over the
    selected rows. *)
Definition group_rows (rows : list Row) : Records :=
  foldl (λ records row,
           <[record_type row := get_set records (record_type row) ∪ {[record_str row]}]> records)
        ∅ rows.

Definition get_cached_hub_records (hub_name : string) (d : t) : option Records :=
  match select_where hub_name (authoritative_records d) with
  | [] => None
  | rows => Some (group_rows rows)
  end.

Definition save_spoke_records (now spoke_name : string) (records : Records) (d : t) : t :=
  mk (authoritative_records d)
     (cache_meta d)
     (delete_where spoke_name (spoke_records d) ++ rows_of spoke_name now records)
     (sync_runs d).

Definition get_spoke_records (spoke_name : string) (d : t) : option Records :=
  match select_where spoke_name (spoke_records d) with
  | [] => None
  | rows => Some (group_rows rows)
  end.

(** The row [record_sync] inserts. *)
Definition sync_run (now server_name server_type role : string)
    (stats : Stats) (error : option string) : SyncRun :=
  let status := if truthy error then "error" else "success" in
  mkRun server_name server_type role now now
        (get_stat stats "added") (get_stat stats "removed")
        (get_stat stats "conflicts") error status
        (get_stat stats "a_records") (get_stat stats "cname_records").

Definition record_sync (now server_name server_type role : string)
    (stats : Stats) (error : option string) (d : t) : t :=
  mk (authoritative_records d) (cache_meta d) (spoke_records d)
     (sync_runs d ++ [sync_run now server_name server_type role stats error]).

End db.

(** ** notifications.py: messages, deliveries and the host *)

(** The line break of the message bodies. *)
Definition LF : string := String "010" "".

Record Notification := mkNote { subject : string; body : string; color : Z }.

Definition _RED : Z := 0xE74C3C.
Definition _ORANGE : Z := 0xE67E22.

(** What is handed to a transport: the embed posted to the Discord
    webhook with its time stamp, or the message given to the SMTP server
    together with the connection it is sent over; [login] holds the user
    and the password when both are set. *)
Inductive Delivery :=
  | Discord (url : string) (embed : Notification) (timestamp : string)
  | Email (host : string) (port : Z) (login : option (string * string))
          (sender recipient subject content : string).

(** What the notifier finds outside the program: [os.environ]; the
    builtin [int] on a string; the construction of the [EmailMessage]
    from subject, sender, recipient and content, which refuses a header
    value with a line break; and how a transport ends: for the webhook
    [requests.post] followed by [raise_for_status], for the mail the
    [with smtplib.SMTP(...)] block with [starttls], [login] and
    [send_message]. *)
Record Host := mkHost {
  environ : gmap string string;
  int : string → result Z;
  email_message : string → string → string → string → result unit;
  transport : Delivery → result unit;
}.

(** [os.environ.get(key, default)] *)
Definition environ_get (h : Host) (key fallback : string) : string :=
  default fallback (environ h !! key).

(** Truthiness of a string. *)
Definition nonempty (s : string) : bool :=
  match s with
  | "" => false
  | String _ _ => true
  end.

(** ** The world and its monad *)

(** Adapter calls, recorded in the order the engine makes them. *)
Inductive Call :=
  | CConnect
  | CGetRecords
  | CAddRecord (record : DNSRecord.t)
  | CDeleteRecord (record : DNSRecord.t)
  | CDisconnect.

Definition is_mutation (c : Call) : bool :=
  match c with
  | CAddRecord _ | CDeleteRecord _ => true
  | _ => false
  end.

Definition is_add (c : Call) : bool :=
  match c with CAddRecord _ => true | _ => false end.

Definition is_delete (c : Call) : bool :=
  match c with CDeleteRecord _ => true | _ => false end.

(** How a call ended: it returned a boolean, returned something else, or
    raised. *)
Inductive Outcome :=
  | Returned
  | ReturnedBool (b : bool)
  | Raised (e : exn).

Record CallEntry := mkEntry {
  ce_server : string;
  ce_call : Call;
  ce_outcome : Outcome;
}.

Definition outcome_of {A} (describe : A → Outcome) (r : result A) : Outcome :=
  match r with
  | Ok a => describe a
  | Raise e => Raised e
  end.

Definition returned_true (c : CallEntry) : bool :=
  match ce_outcome c with ReturnedBool true => true | _ => false end.

Definition returned_false (c : CallEntry) : bool :=
  match ce_outcome c with ReturnedBool false => true | _ => false end.

Definition raised (c : CallEntry) : bool :=
  match ce_outcome c with Raised _ => true | _ => false end.

(** The number of entries of a call log that satisfy [p]. *)
Definition count (p : CallEntry → bool) (log : list CallEntry) : nat :=
  length (filter (λ c, p c = true) log).

(** The two sets [_apply_diff] and [sync_records] compute for a record
    type: [to_add = source_set - target_set] and
    [to_remove = target_set - source_set]. *)
Definition to_add (source_set target_set : gset string) : gset string :=
  source_set ∖ target_set.

Definition to_remove (source_set target_set : gset string) : gset string :=
  target_set ∖ source_set.

Section engine.

(** The state of everything behind the adapters: the remote servers and
    the adapters' sessions. *)
Context {R : Type}.

(** The capability interface [DNSServer].  Every operation may raise and
    may change the remote state; [disconnect] only releases local state
    in each adapter of the repository and cannot raise. *)
Record DNSServer := mkServer {
  name : string;
  connect : R → result bool * R;
  get_records : R → result Records * R;
  add_record : DNSRecord.t → R → result bool * R;
  delete_record : DNSRecord.t → R → result bool * R;
  disconnect : R → R;
}.

(** [db_faults] schedules the failures of the database: each call of a
    [db] function consumes the head; [Some e] makes that call raise [e]
    before anything is committed, [None] and an exhausted schedule let it
    succeed.  [now] is the clock read by [datetime.now].  The outbox lists
    what was handed to the transports of the notifier, delivered or
    not. *)
Record World := mkWorld {
  w_db : db.t;
  w_db_faults : list (option exn);
  w_now : string;
  w_remote : R;
  w_calls : list CallEntry;
  w_host : Host;
  w_outbox : list Delivery;
}.

Definition M (A : Type) : Type := World → result A * World.

Definition ret {A} (a : A) : M A := λ w, (Ok a, w).
Definition raise {A} (e : exn) : M A := λ w, (Raise e, w).
Definition bind {A B} (m : M A) (k : A → M B) : M B :=
  λ w, match m w with
       | (Ok a, w') => k a w'
       | (Raise e, w') => (Raise e, w')
       end.
Definition lift {A} (r : result A) : M A := λ w, (r, w).

(** [try: m  except Exception as e: handler e] *)
Definition try_except {A} (m : M A) (handler : exn → M A) : M A :=
  λ w, match m w with
       | (Raise e, w') => if is_Exception e then handler e w' else (Raise e, w')
       | done => done
       end.

(** [try: m  finally: cleanup], for a cleanup that cannot raise. *)
Definition try_finally {A} (m : M A) (cleanup : World → World) : M A :=
  λ w, let '(r, w') := m w in (r, cleanup w').

(** [for x in xs: acc = body acc x] *)
Fixpoint for_each {A S} (xs : list A) (body : S → A → M S) (acc : S) : M S :=
  match xs with
  | [] => ret acc
  | x :: xs' => bind (body acc x) (for_each xs' body)
  end.

Definition set_db (d : db.t) (w : World) : World :=
  mkWorld d (w_db_faults w) (w_now w) (w_remote w) (w_calls w) (w_host w) (w_outbox w).
Definition set_faults (fs : list (option exn)) (w : World) : World :=
  mkWorld (w_db w) fs (w_now w) (w_remote w) (w_calls w) (w_host w) (w_outbox w).
Definition set_remote (r : R) (w : World) : World :=
  mkWorld (w_db w) (w_db_faults w) (w_now w) r (w_calls w) (w_host w) (w_outbox w).
Definition log_call (c : CallEntry) (w : World) : World :=
  mkWorld (w_db w) (w_db_faults w) (w_now w) (w_remote w) (w_calls w ++ [c])
          (w_host w) (w_outbox w).
Definition set_host (h : Host) (w : World) : World :=
  mkWorld (w_db w) (w_db_faults w) (w_now w) (w_remote w) (w_calls w) h (w_outbox w).
Definition post (ds : list Delivery) (w : World) : World :=
  mkWorld (w_db w) (w_db_faults w) (w_now w) (w_remote w) (w_calls w)
          (w_host w) (w_outbox w ++ ds).

(** A call of a [db] function that writes: the fault schedule decides
    whether it raises; a failed call commits nothing. *)
Definition db_write (f : string → db.t → db.t) : M unit :=
  λ w, match w_db_faults w with
       | Some e :: fs => (Raise e, set_faults fs w)
       | None :: fs => (Ok tt, set_db (f (w_now w) (w_db w)) (set_faults fs w))
       | [] => (Ok tt, set_db (f (w_now w) (w_db w)) w)
       end.

(** A call of a [db] function that reads. *)
Definition db_read {A} (f : db.t → A) : M A :=
  λ w, match w_db_faults w with
       | Some e :: fs => (Raise e, set_faults fs w)
       | None :: fs => (Ok (f (w_db w)), set_faults fs w)
       | [] => (Ok (f (w_db w)), w)
       end.

(** A method call on an adapter, entered in the call log with the way
    it ended. *)
Definition call {A} (describe : A → Outcome) (srv : DNSServer) (c : Call)
    (op : R → result A * R) : M A :=
  λ w, let '(r, remote') := op (w_remote w) in
       (r, set_remote remote' (log_call (mkEntry (name srv) c (outcome_of describe r)) w)).

Definition call_connect (srv : DNSServer) : M bool :=
  call ReturnedBool srv CConnect (connect srv).
Definition call_get_records (srv : DNSServer) : M Records :=
  call (λ _, Returned) srv CGetRecords (get_records srv).
Definition call_add_record (srv : DNSServer) (record : DNSRecord.t) : M bool :=
  call ReturnedBool srv (CAddRecord record) (add_record srv record).
Definition call_delete_record (srv : DNSServer) (record : DNSRecord.t) : M bool :=
  call ReturnedBool srv (CDeleteRecord record) (delete_record srv record).

Definition call_disconnect (srv : DNSServer) (w : World) : World :=
  set_remote (disconnect srv (w_remote w))
             (log_call (mkEntry (name srv) CDisconnect Returned) w).

(** [datetime.now(timezone.utc).isoformat(timespec="seconds")] *)
Definition _now : M string := λ w, (Ok (w_now w), w).

(** [os.environ.get(key, default)] *)
Definition getenv (key fallback : string) : M string :=
  λ w, (Ok (environ_get (w_host w) key fallback), w).

(** A call of a library function of the host, which may raise. *)
Definition host_call {A} (f : Host → result A) : M A := λ w, (f (w_host w), w).

(** A delivery is handed to its transport and entered in the outbox. *)
Definition deliver (d : Delivery) : M unit :=
  λ w, (transport (w_host w) d, post [d] w).

End engine.

Arguments DNSServer R : clear implicits.
Arguments World R : clear implicits.
Arguments M R A : clear implicits.

Notation "'let*' x ':=' m 'in' k" := (bind m (λ x, k))
  (at level 10, x name, m at level 100, k at level 200,
   format "'[v' 'let*'  x  ':='  m  'in' '/' k ']'").
Notation "m ';;;' k" := (bind m (λ _, k))
  (at level 100, k at level 200, right associativity).

(** ** notifications.py: the notifier *)

Section notifier.
Context {R : Type}.

Definition _send_discord (url title description : string) (color : Z) : M R unit :=
  let* timestamp := _now in
  let payload := Discord url (mkNote title description color) timestamp in
  try_except (deliver payload) (λ e, ret tt).

(** The conversion of the port and the construction of the message come
    before the [try]. *)
Definition _send_email (subject body : string) : M R unit :=
  let* smtp_host := getenv "DNS_SYNC_SMTP_HOST" "" in
  let* port_text := getenv "DNS_SYNC_SMTP_PORT" "587" in
  let* smtp_port := host_call (λ h, int h port_text) in
  let* smtp_user := getenv "DNS_SYNC_SMTP_USER" "" in
  let* smtp_password := getenv "DNS_SYNC_SMTP_PASSWORD" "" in
  let* sender := getenv "DNS_SYNC_SMTP_FROM" "" in
  let smtp_from := if nonempty sender then sender else smtp_user in
  let* smtp_to := getenv "DNS_SYNC_SMTP_TO" "" in
  host_call (λ h, email_message h subject smtp_from smtp_to body) ;;;
  let login :=
    if nonempty smtp_user && nonempty smtp_password
    then Some (smtp_user, smtp_password) else None in
  try_except
    (deliver (Email smtp_host smtp_port login smtp_from smtp_to subject body))
    (λ e, ret tt).

Definition _dispatch (subject body : string) (color : Z) : M R unit :=
  let* discord_url := getenv "DNS_SYNC_DISCORD_WEBHOOK_URL" "" in
  let* smtp_host := getenv "DNS_SYNC_SMTP_HOST" "" in
  let* smtp_to := getenv "DNS_SYNC_SMTP_TO" "" in
  (if nonempty discord_url then _send_discord discord_url subject body color
   else ret tt) ;;;
  if nonempty smtp_host && nonempty smtp_to then _send_email subject body
  else ret tt.

Definition notify_sync_failed (server_name server_type error : string) : M R unit :=
  let subject := "[dns-sync] Sync failed: " +:+ server_name in
  let* now := _now in
  let body := "Sync failed for spoke: " +:+ server_name +:+ " (" +:+ server_type
              +:+ ")" +:+ LF +:+ "Error: " +:+ error +:+ LF
              +:+ "Time: " +:+ now +:+ " UTC" in
  _dispatch subject body _RED.

Definition notify_hub_unreachable (hub_name hub_type error : string) : M R unit :=
  let subject := "[dns-sync] Hub unreachable: " +:+ hub_name in
  let* now := _now in
  let body := "Hub server is unreachable: " +:+ hub_name +:+ " (" +:+ hub_type
              +:+ ")" +:+ LF +:+ "Error: " +:+ error +:+ LF
              +:+ "Time: " +:+ now +:+ " UTC" in
  _dispatch subject body _ORANGE.

End notifier.

(** ** servers/base.py: sync_records *)

(** [DNSRecord.from_a_string(record_str) if record_type == 'A' else
    DNSRecord.from_cname_string(record_str)] *)
Definition parse_record (record_type record_str : string) : result DNSRecord.t :=
  if bool_decide (record_type = "A") then DNSRecord.from_a_string record_str
  else DNSRecord.from_cname_string record_str.

Section sync_records.
Context {R : Type}.

(** One turn of the loop [for record_str in to_add] of [sync_records]. *)
Definition sync_records_add (target_server : DNSServer R) (record_type : string)
    (stats : Stats) (record_str : string) : M R Stats :=
  let* record := lift (parse_record record_type record_str) in
  try_except
    (let* added := call_add_record target_server record in
     if added : bool then ret (incr "added" stats) else ret stats)
    (λ e, ret (incr "conflicts" stats)).

(** One turn of the loop [for record_str in to_remove] of [sync_records]. *)
Definition sync_records_remove (target_server : DNSServer R) (record_type : string)
    (stats : Stats) (record_str : string) : M R Stats :=
  let* record := lift (parse_record record_type record_str) in
  try_except
    (let* deleted := call_delete_record target_server record in
     if deleted : bool then ret (incr "removed" stats) else ret stats)
    (λ e, ret (incr "conflicts" stats)).

Definition sync_records (self target_server : DNSServer R) (dry_run : bool) : M R Stats :=
  let stats : Stats := {[ "added" := 0; "removed" := 0; "conflicts" := 0 ]} in
  let* source_records := call_get_records self in
  let* target_records := call_get_records target_server in
  for_each ["A"; "CNAME"]
    (λ stats record_type,
       let source_set := get_set source_records record_type in
       let target_set := get_set target_records record_type in
       let to_add := to_add source_set target_set in
       let to_remove := to_remove source_set target_set in
       if dry_run then
         ret (incr_by "removed" (size to_remove) (incr_by "added" (size to_add) stats))
       else
         let* stats := for_each (elements to_add)
                         (sync_records_add target_server record_type) stats in
         for_each (elements to_remove)
           (sync_records_remove target_server record_type) stats)
    stats.

End sync_records.

(** ** sync.py *)

Definition empty_stats : Stats :=
  {[ "added" := 0; "removed" := 0; "conflicts" := 0;
     "a_records" := 0; "cname_records" := 0 ]}.

Section sync.
Context {R : Type}.

(** The registry-driven factory [create_server(type, name, config,
    secrets)]; the adapter classes are external collaborators. *)
Variable create_server : string → string → ServerConfig → result (DNSServer R).

(** One turn of the loop [for record_str in to_add] of [_apply_diff]. *)
Definition apply_add (target_server : DNSServer R) (record_type : string)
    (stats : Stats) (record_str : string) : M R Stats :=
  let* record := lift (parse_record record_type record_str) in
  try_except
    (let* result := call_add_record target_server record in
     if result : bool then ret (incr "added" stats)
     else ret (incr "conflicts" stats))
    (λ e, ret (incr "conflicts" stats)).

(** One turn of the loop [for record_str in to_remove] of [_apply_diff]. *)
Definition apply_remove (target_server : DNSServer R) (record_type : string)
    (stats : Stats) (record_str : string) : M R Stats :=
  let* record := lift (parse_record record_type record_str) in
  try_except
    (let* deleted := call_delete_record target_server record in
     if deleted : bool then ret (incr "removed" stats)
     else ret stats)
    (λ e, ret (incr "conflicts" stats)).

Definition _apply_diff (source_records : Records) (target_server : DNSServer R) : M R Stats :=
  let stats := empty_stats in
  let* target_records := call_get_records target_server in
  let* stats :=
    for_each ["A"; "CNAME"]
      (λ stats record_type,
         let source_set := get_set source_records record_type in
         let target_set := get_set target_records record_type in
         let to_add := to_add source_set target_set in
         let to_remove := to_remove source_set target_set in
         let* stats := for_each (elements to_add)
                         (apply_add target_server record_type) stats in
         for_each (elements to_remove)
           (apply_remove target_server record_type) stats)
      stats in
  let stats := <["a_records" := size (get_set source_records "A")]> stats in
  let stats := <["cname_records" := size (get_set source_records "CNAME")]> stats in
  ret stats.

(** The shape shared by the three [try / except Exception / finally]
    blocks of [sync.py]: the server variable starts as [None], the factory
    call is the first statement of the [try], and the [finally] clause
    disconnects the server when the variable was assigned. *)
Definition with_server {A} (cfg : ServerConfig)
    (body : DNSServer R → M R A) (handler : exn → M R A) : M R A :=
  match create_server (cfg_type cfg) (cfg_name cfg) cfg with
  | Raise e => try_except (raise e) handler
  | Ok server => try_finally (try_except (body server) handler) (call_disconnect server)
  end.

Definition refresh_hub_cache (hub_cfg : ServerConfig) : M R (option Records) :=
  let hub_name := cfg_name hub_cfg in
  with_server hub_cfg
    (λ hub_server,
       call_connect hub_server ;;;
       let* hub_records := call_get_records hub_server in
       db_write (λ now, db.save_hub_records now hub_name hub_records) ;;;
       ret (Some hub_records))
    (λ e,
       let err := str_exn e in
       notify_hub_unreachable hub_name (cfg_type hub_cfg) err ;;;
       let* cached := db_read (db.get_cached_hub_records hub_name) in
       ret cached).

Definition no_cache_msg : string :=
  "No authoritative cache available — skipping spoke sync".

(** The body of the [for spoke_cfg in spokes] loop of
    [sync_all_enabled_spokes]. *)
Definition sync_spoke (hub_records : option Records)
    (results : gmap string Stats) (spoke_cfg : ServerConfig) : M R (gmap string Stats) :=
  if negb (enabled spoke_cfg) then ret results
  else
    let spoke_name := cfg_name spoke_cfg in
    let empty := empty_stats in
    match hub_records with
    | None =>
        let msg := no_cache_msg in
        db_write (λ now, db.record_sync now spoke_name (cfg_type spoke_cfg) "spoke"
                           empty (Some msg)) ;;;
        ret (<[spoke_name := empty]> results)
    | Some hub_records =>
        with_server spoke_cfg
          (λ spoke_server,
             call_connect spoke_server ;;;
             let* stats := _apply_diff hub_records spoke_server in
             db_write (λ now, db.save_spoke_records now spoke_name hub_records) ;;;
             db_write (λ now, db.record_sync now spoke_name (cfg_type spoke_cfg) "spoke"
                                stats None) ;;;
             ret (<[spoke_name := stats]> results))
          (λ e,
             let err := str_exn e in
             db_write (λ now, db.record_sync now spoke_name (cfg_type spoke_cfg) "spoke"
                                empty (Some err)) ;;;
             notify_sync_failed spoke_name (cfg_type spoke_cfg) err ;;;
             ret (<[spoke_name := empty]> results))
    end.

Definition sync_all_enabled_spokes (hub_cfg : ServerConfig) (spokes : list ServerConfig)
  : M R (gmap string Stats) :=
  let hub_name := cfg_name hub_cfg in
  let* hub_records := db_read (db.get_cached_hub_records hub_name) in
  let results : gmap string Stats := ∅ in
  for_each spokes (sync_spoke hub_records) results.

Definition perform_sync (hub_cfg spoke_cfg : ServerConfig) : M R Stats :=
  let spoke_name := cfg_name spoke_cfg in
  let empty := empty_stats in
  if negb (enabled spoke_cfg) then ret empty
  else
    let* hub_records := refresh_hub_cache hub_cfg in
    match hub_records with
    | None =>
        let msg := "Hub unreachable and no cached records" in
        db_write (λ now, db.record_sync now spoke_name (cfg_type spoke_cfg) "spoke"
                           empty (Some msg)) ;;;
        ret empty
    | Some hub_records =>
        with_server spoke_cfg
          (λ spoke_server,
             call_connect spoke_server ;;;
             let* stats := _apply_diff hub_records spoke_server in
             db_write (λ now, db.save_spoke_records now spoke_name hub_records) ;;;
             db_write (λ now, db.record_sync now spoke_name (cfg_type spoke_cfg) "spoke"
                                stats None) ;;;
             ret stats)
          (λ e,
             let err := str_exn e in
             db_write (λ now, db.record_sync now spoke_name (cfg_type spoke_cfg) "spoke"
                                empty (Some err)) ;;;
             notify_sync_failed spoke_name (cfg_type spoke_cfg) err ;;;
             ret empty)
    end.

End sync.

(** ** What it means for an adapter to behave *)

(** The canonical string of a record, by its type. *)
Definition canonical (record : DNSRecord.t) : string :=
  if bool_decide (DNSRecord.type record = "A") then DNSRecord.to_a_format record
  else DNSRecord.to_cname_format record.

(** The record sets of a server after it accepted an addition, and after it
    accepted a deletion. *)
Definition view_add (record : DNSRecord.t) (v : Records) : Records :=
  <[DNSRecord.type record := get_set v (DNSRecord.type record) ∪ {[canonical record]}]> v.

Definition view_delete (record : DNSRecord.t) (v : Records) : Records :=
  <[DNSRecord.type record := get_set v (DNSRecord.type record) ∖ {[canonical record]}]> v.

(** Every string of the A set and of the CNAME set parses. *)
Definition valid_records (records : Records) : Prop :=
  ∀ record_type, record_type ∈ ["A"; "CNAME"] →
    ∀ record_str, record_str ∈ get_set records record_type →
      ∃ record, parse_record record_type record_str = Ok record.

Section adapters.
Context {R : Type}.

(** An adapter on which every call succeeds: [view] reads the record sets
    out of the remote state; [get_records] returns them and leaves the
    remote alone; [add_record] and [delete_record] return [True] and the
    record sets change accordingly. *)
Record well_behaved (srv : DNSServer R) (view : R → Records) : Prop := {
  wb_get : ∀ r, get_records srv r = (Ok (view r), r);
  wb_add : ∀ record r, ∃ r',
      add_record srv record r = (Ok true, r') ∧ view r' = view_add record (view r);
  wb_delete : ∀ record r, ∃ r',
      delete_record srv record r = (Ok true, r') ∧ view r' = view_delete record (view r);
}.

Definition no_fatal {A} (out : result A * R) : Prop :=
  ∀ e, out.1 = Raise e → is_Exception e = true.

(** An adapter whose calls raise nothing outside [Exception]. *)
Record nonfatal (srv : DNSServer R) : Prop := {
  nf_connect : ∀ r, no_fatal (connect srv r);
  nf_get : ∀ r, no_fatal (get_records srv r);
  nf_add : ∀ record r, no_fatal (add_record srv record r);
  nf_delete : ∀ record r, no_fatal (delete_record srv record r);
}.

(** A factory that raises nothing outside [Exception] and builds only
    such adapters. *)
Definition nonfatal_factory
    (create_server : string → string → ServerConfig → result (DNSServer R)) : Prop :=
  ∀ server_type server_name cfg,
    match create_server server_type server_name cfg with
    | Ok srv => nonfatal srv
    | Raise e => is_Exception e = true
    end.

End adapters.

(** ** In-memory servers, after [FakeServer] of tests/test_servers.py *)

Module Fake.

(** The remote state: the record sets of each server, by server name. *)
Abbreviation Remote := (gmap string Records).

Definition live (server_name : string) (remote : Remote) : Records :=
  default ∅ (remote !! server_name).

(** How a fake server answers: [Healthy] accepts every write,
    [Rejecting] returns [False] to every write, [Picky d] returns [False]
    to the writes for the domain [d] and accepts the others, [Raising]
    raises on every write, [Unreachable] raises on [connect]. *)
Inductive kind := Healthy | Rejecting | Picky (d : string) | Raising | Unreachable.

Definition write (k : kind) (server_name : string) (record : DNSRecord.t)
    (change : DNSRecord.t → Records → Records) (remote : Remote) : result bool * Remote :=
  let accepted :=
    (Ok true, <[server_name := change record (live server_name remote)]> remote) in
  match k with
  | Healthy | Unreachable => accepted
  | Rejecting => (Ok false, remote)
  | Picky d =>
      if bool_decide (DNSRecord.domain record = d) then (Ok false, remote) else accepted
  | Raising => (Raise (Exn OtherException "write failed"), remote)
  end.

Definition server (k : kind) (server_name : string) : DNSServer Remote :=
  {| name := server_name;
     connect remote :=
       match k with
       | Unreachable => (Raise (Exn OtherException "connection refused"), remote)
       | _ => (Ok true, remote)
       end;
     get_records remote := (Ok (live server_name remote), remote);
     add_record record := write k server_name record view_add;
     delete_record record := write k server_name record view_delete;
     disconnect remote := remote |}.

(** The factory: the server type of the configuration selects the kind;
    an unknown type raises [ValueError] as [create_server] does. *)
Definition create_server (server_type server_name : string) (cfg : ServerConfig)
  : result (DNSServer Remote) :=
  if bool_decide (server_type = "healthy") then Ok (server Healthy server_name)
  else if bool_decide (server_type = "rejecting") then Ok (server Rejecting server_name)
  else if bool_decide (server_type = "picky") then Ok (server (Picky "pi.home") server_name)
  else if bool_decide (server_type = "raising") then Ok (server Raising server_name)
  else if bool_decide (server_type = "unreachable") then Ok (server Unreachable server_name)
  else Raise (Exn ValueError ("Unknown server type: '" +:+ server_type +:+ "'")).

Definition now : string := "2024-01-01T00:00:00+00:00".

(** The value of a string of decimal digits. *)
Fixpoint digits (s : string) (acc : Z) : option Z :=
  match s with
  | "" => Some acc
  | String c rest =>
      let d := (Z.of_nat (nat_of_ascii c) - 48)%Z in
      if bool_decide (0 ≤ d ≤ 9)%Z then digits rest (10 * acc + d)%Z else None
  end.

(** The conversion of the examples: it agrees with [int] on the strings
    of decimal digits and on the empty string, which [int] refuses with
    [ValueError]; it refuses every other string as well. *)
Definition int (s : string) : result Z :=
  match s, digits s 0 with
  | String _ _, Some n => Ok n
  | _, _ => Raise (Exn ValueError ("invalid literal for int() with base 10: '" +:+ s +:+ "'"))
  end.

(** The message of the examples is built unless a header holds a line
    break. *)
Fixpoint has_line_break (s : string) : bool :=
  match s with
  | "" => false
  | String c rest => bool_decide (c = "010"%char ∨ c = "013"%char) || has_line_break rest
  end.

Definition email_message (subject sender recipient content : string) : result unit :=
  if has_line_break subject || has_line_break sender || has_line_break recipient
  then Raise (Exn ValueError
                "Header values may not contain linefeed or carriage return characters")
  else Ok tt.

(** A host with the webhook and the mail set, the port left to its
    default, and transports that answer. *)
Definition host : Host :=
  mkHost {[ "DNS_SYNC_DISCORD_WEBHOOK_URL" := "https://discord.example/hook";
            "DNS_SYNC_SMTP_HOST" := "mail.example";
            "DNS_SYNC_SMTP_USER" := "dns-sync@example";
            "DNS_SYNC_SMTP_PASSWORD" := "s3cret";
            "DNS_SYNC_SMTP_TO" := "ops@example" ]}
         int email_message (λ _, Ok tt).

(** The same host with the port set to the empty string and transports
    that are down. *)
Definition host_without_port : Host :=
  mkHost (<["DNS_SYNC_SMTP_PORT" := ""]> (environ host))
         int email_message (λ _, Raise (Exn RequestException "connection refused")).

Definition world (d : db.t) (faults : list (option exn)) (remote : Remote) : World Remote :=
  mkWorld d faults now remote [] host [].

(** The configurations of the examples. *)
Definition hub_cfg : ServerConfig := mkConfig "hub" "healthy" None.
Definition hub_down_cfg : ServerConfig := mkConfig "hub" "unreachable" None.
Definition spoke_cfg : ServerConfig := mkConfig "spoke" "healthy" None.
Definition picky_cfg : ServerConfig := mkConfig "spoke" "picky" None.
Definition raising_cfg : ServerConfig := mkConfig "spoke" "raising" None.
Definition other_cfg : ServerConfig := mkConfig "other" "healthy" (Some true).

(** The hub of the scenarios of the specification, and a spoke with one
    record in common and one stale record. *)
Definition hub_records : Records :=
  {[ "A" := {[ "1.2.3.4 nas.home"; "5.6.7.8 pi.home" ]};
     "CNAME" := {[ "alias.home -> nas.home" ]} ]}.

Definition spoke_records : Records :=
  {[ "A" := {[ "1.2.3.4 nas.home"; "9.9.9.9 stale.home" ]}; "CNAME" := ∅ ]}.

Definition no_records : Records := {[ "A" := ∅; "CNAME" := ∅ ]}.

(** Two records to add to an empty spoke. *)
Definition two_hosts : Records :=
  {[ "A" := {[ "1.2.3.4 nas.home"; "5.6.7.8 pi.home" ]} ]}.

Definition refused : exn := Exn OtherException "connection refused".

(** A database that holds the hub records as authoritative cache. *)
Definition cached : db.t := db.save_hub_records now "hub" hub_records db.init.

Definition disk_full : exn := Exn DatabaseError "database or disk is full".
Definition locked : exn := Exn DatabaseError "database is locked".

End Fake.

(** Whether every string of the A set and of the CNAME set parses. *)
Definition valid_recordsb (records : Records) : bool :=
  forallb (λ rtype,
             forallb (λ rstr, match parse_record rtype rstr with
                              | Ok _ => true
                              | Raise _ => false
                              end)
                     (elements (get_set records rtype)))
          ["A"; "CNAME"].

(** ** Vocabulary of the statements *)

(** A record-set map without its empty sets. *)
Definition nonempty_sets (records : Records) : Records :=
  filter (λ kv, kv.2 ≠ ∅) records.

(** What a store holds for one name, as a set of (type, string) pairs. *)
Definition stored (name : string) (rows : list db.Row) : gset (string * string) :=
  list_to_set ((λ row, (db.record_type row, db.record_str row))
                 <$> db.select_where name rows).

(** A record-set map as a set of (type, string) pairs. *)
Definition pairs_of (records : Records) : gset (string * string) :=
  list_to_set (flat_map (λ '(rtype, record_set), (λ rstr, (rtype, rstr)) <$> elements record_set)
                        (map_to_list records)).

(** The strings of the rows of one record type. *)
Definition strings_of (rtype : string) (rows : list db.Row) : list string :=
  db.record_str <$> filter (λ row, db.record_type row = rtype) rows.

(** The history rows written for the enabled spokes when there is no
    authoritative cache. *)
Definition skipped_rows (now : string) (spokes : list ServerConfig) : list db.SyncRun :=
  (λ cfg, db.sync_run now (cfg_name cfg) (cfg_type cfg) "spoke" empty_stats (Some no_cache_msg))
    <$> filter (λ cfg, enabled cfg = true) spokes.

(** The world after [rows] were appended to the history and nothing else
    changed. *)
Definition with_runs {R} (rows : list db.SyncRun) (w : World R) : World R :=
  set_db (db.mk (db.authoritative_records (w_db w)) (db.cache_meta (w_db w))
                (db.spoke_records (w_db w)) (db.sync_runs (w_db w) ++ rows)) w.

(** The result map in which every enabled spoke has the all-zero
    statistics. *)
Definition skipped_results (spokes : list ServerConfig) : gmap string Stats :=
  foldl (λ results cfg, <[cfg_name cfg := empty_stats]> results) ∅
        (filter (λ cfg, enabled cfg = true) spokes).

(** The names of the enabled spokes. *)
Definition enabled_names (spokes : list ServerConfig) : list string :=
  cfg_name <$> filter (λ cfg, enabled cfg = true) spokes.

(** What a computation returned, if it returned. *)
Definition returned {A} (r : result A) : option A :=
  match r with
  | Ok a => Some a
  | Raise _ => None
  end.

(** The calls made between two worlds. *)
Definition new_calls {R} (w w' : World R) : list CallEntry :=
  drop (length (w_calls w)) (w_calls w').

(** Two worlds with the same database, fault schedule, clock, outbox and
    host: only adapters were called in between. *)
Definition same_store {R} (w w' : World R) : Prop :=
  w_db w' = w_db w ∧ w_db_faults w' = w_db_faults w
  ∧ w_now w' = w_now w ∧ w_outbox w' = w_outbox w ∧ w_host w' = w_host w.

(** The statistics [_apply_diff] keeps, recomputed from a call log. *)
Definition tally_apply (stats : Stats) (c : CallEntry) : Stats :=
  match ce_call c, ce_outcome c with
  | CAddRecord _, ReturnedBool true => incr "added" stats
  | CAddRecord _, ReturnedBool false => incr "conflicts" stats
  | CAddRecord _, Raised _ => incr "conflicts" stats
  | CDeleteRecord _, ReturnedBool true => incr "removed" stats
  | CDeleteRecord _, Raised _ => incr "conflicts" stats
  | _, _ => stats
  end.

(** The statistics [sync_records] keeps, recomputed from a call log. *)
Definition tally_sync (stats : Stats) (c : CallEntry) : Stats :=
  match ce_call c, ce_outcome c with
  | CAddRecord _, ReturnedBool true => incr "added" stats
  | CAddRecord _, Raised _ => incr "conflicts" stats
  | CDeleteRecord _, ReturnedBool true => incr "removed" stats
  | CDeleteRecord _, Raised _ => incr "conflicts" stats
  | _, _ => stats
  end.

Definition add_true (c : CallEntry) : bool := is_add (ce_call c) && returned_true c.
Definition add_false (c : CallEntry) : bool := is_add (ce_call c) && returned_false c.
Definition delete_true (c : CallEntry) : bool := is_delete (ce_call c) && returned_true c.
Definition delete_false (c : CallEntry) : bool := is_delete (ce_call c) && returned_false c.
Definition write_raised (c : CallEntry) : bool := is_mutation (ce_call c) && raised c.

(** What one turn of a write loop does once the record string is parsed:
    the call [op] on the target, entered in the log as [mk_call record]; the
    statistics follow [tally]; only an exception outside [Exception] leaves
    the loop. *)
Definition write_turn {R} (target : DNSServer R) (mk_call : DNSRecord.t → Call)
    (op : DNSRecord.t → R → result bool * R) (tally : Stats → CallEntry → Stats)
    (record : DNSRecord.t) (stats : Stats) (w : World R) : result Stats * World R :=
  let out := op record (w_remote w) in
  let entry := mkEntry (name target) (mk_call record) (outcome_of ReturnedBool out.1) in
  let w' := set_remote out.2 (log_call entry w) in
  match out.1 with
  | Raise e => if is_Exception e then (Ok (tally stats entry), w') else (Raise e, w')
  | Ok _ => (Ok (tally stats entry), w')
  end.

(** The log entry of a write on [target] for the record string
    [record_str], with an outcome in [Kout]. *)
Definition entry_for {R} (target : DNSServer R) (mk_call : DNSRecord.t → Call)
    (Kout : Outcome → Prop) (record_type record_str : string) (c : CallEntry) : Prop :=
  ∃ record, parse_record record_type record_str = Ok record
            ∧ ce_call c = mk_call record ∧ ce_server c = name target
            ∧ Kout (ce_outcome c).

(** The loop over the two record types that [_apply_diff] and the
    non-dry-run path of [sync_records] share, with the bodies of the two
    inner loops left open. *)
Definition diff_loops {R} (add_body remove_body : string → Stats → string → M R Stats)
    (source_records target_records : Records) (stats : Stats) : M R Stats :=
  for_each ["A"; "CNAME"]
    (λ stats record_type,
       let source_set := get_set source_records record_type in
       let target_set := get_set target_records record_type in
       let* stats := for_each (elements (to_add source_set target_set))
                       (add_body record_type) stats in
       for_each (elements (to_remove source_set target_set))
         (remove_body record_type) stats)
    stats.

(** The strings queued for addition and for removal, by record type. *)
Definition queued_add (source_records target_records : Records) (rtype : string) : list string :=
  elements (to_add (get_set source_records rtype) (get_set target_records rtype)).

Definition queued_remove (source_records target_records : Records) (rtype : string) : list string :=
  elements (to_remove (get_set source_records rtype) (get_set target_records rtype)).

Definition is_add_call (c : CallEntry) : bool := is_add (ce_call c).
Definition is_delete_call (c : CallEntry) : bool := is_delete (ce_call c).

(** The invariant of the four loops on a well-behaved adapter: during the
    additions of a type its live set is the old one plus the strings seen;
    during its removals it is the old one plus the additions minus the
    strings seen; the CNAME set is untouched while the A loops run and the A
    set is the source's when the CNAME loops run. *)
Definition converging {R} (view : R → Records) (S T : Records)
    (rtype : string) (removing : bool) (seen : list string) (r : R) : Prop :=
  get_set (view r) rtype
  = (if removing
     then (get_set T rtype ∪ to_add (get_set S rtype) (get_set T rtype)) ∖ list_to_set seen
     else get_set T rtype ∪ list_to_set seen)
  ∧ (rtype = "A" → get_set (view r) "CNAME" = get_set T "CNAME")
  ∧ (rtype = "CNAME" → get_set (view r) "A" = get_set S "A").

(** The adapter part of a spoke sync: connect, then diff and apply. *)
Definition attempt {R} (server : DNSServer R) (hub_records : Records) : M R Stats :=
  call_connect server ;;; _apply_diff hub_records server.

(** The adapter part of a hub refresh: connect, then fetch. *)
Definition fetch {R} (server : DNSServer R) : M R Records :=
  call_connect server ;;; call_get_records server.

(** The subjects of the two messages. *)
Definition sync_failed_subject (server_name : string) : string :=
  "[dns-sync] Sync failed: " +:+ server_name.

Definition hub_unreachable_subject (hub_name : string) : string :=
  "[dns-sync] Hub unreachable: " +:+ hub_name.

(** The message of [notify_sync_failed]. *)
Definition sync_failed_note (now server_name server_type error : string) : Notification :=
  mkNote (sync_failed_subject server_name)
         ("Sync failed for spoke: " +:+ server_name +:+ " (" +:+ server_type
          +:+ ")" +:+ LF +:+ "Error: " +:+ error +:+ LF +:+ "Time: " +:+ now +:+ " UTC")
         _RED.

(** The message of [notify_hub_unreachable]. *)
Definition hub_unreachable_note (now hub_name hub_type error : string) : Notification :=
  mkNote (hub_unreachable_subject hub_name)
         ("Hub server is unreachable: " +:+ hub_name +:+ " (" +:+ hub_type
          +:+ ")" +:+ LF +:+ "Error: " +:+ error +:+ LF +:+ "Time: " +:+ now +:+ " UTC")
         _ORANGE.

(** Whether the mail transport is configured: [smtp_host and smtp_to]. *)
Definition mail_configured (h : Host) : bool :=
  nonempty (environ_get h "DNS_SYNC_SMTP_HOST" "")
  && nonempty (environ_get h "DNS_SYNC_SMTP_TO" "").

(** The sender of the mail: [DNS_SYNC_SMTP_FROM], or the user when it is
    empty. *)
Definition mail_sender (h : Host) : string :=
  if nonempty (environ_get h "DNS_SYNC_SMTP_FROM" "")
  then environ_get h "DNS_SYNC_SMTP_FROM" ""
  else environ_get h "DNS_SYNC_SMTP_USER" "".

(** What the transports are handed for a message, on a host whose
    notifier does not raise: the embed for the webhook when its URL is
    set, then the mail when host and recipient are set. *)
Definition deliveries (h : Host) (now : string) (note : Notification) : list Delivery :=
  (if nonempty (environ_get h "DNS_SYNC_DISCORD_WEBHOOK_URL" "")
   then [Discord (environ_get h "DNS_SYNC_DISCORD_WEBHOOK_URL" "") note now]
   else [])
  ++ (if mail_configured h
      then match int h (environ_get h "DNS_SYNC_SMTP_PORT" "587") with
           | Ok smtp_port =>
               [Email (environ_get h "DNS_SYNC_SMTP_HOST" "") smtp_port
                      (if nonempty (environ_get h "DNS_SYNC_SMTP_USER" "")
                          && nonempty (environ_get h "DNS_SYNC_SMTP_PASSWORD" "")
                       then Some (environ_get h "DNS_SYNC_SMTP_USER" "",
                                  environ_get h "DNS_SYNC_SMTP_PASSWORD" "")
                       else None)
                      (mail_sender h) (environ_get h "DNS_SYNC_SMTP_TO" "")
                      (subject note) (body note)]
           | Raise _ => []
           end
      else []).

(** A host on which the notifier does not raise for the messages with
    the subject [subject]: the transports raise nothing outside
    [Exception], which [_send_discord] and [_send_email] catch; and when
    the mail is configured, the port converts and the message with this
    subject can be built, whatever its content: the two steps
    [_send_email] takes outside its [try]. *)
Record quiet (h : Host) (subject : string) : Prop := {
  quiet_transport : ∀ d e, transport h d = Raise e → is_Exception e = true;
  quiet_port : mail_configured h = true →
               ∃ smtp_port, int h (environ_get h "DNS_SYNC_SMTP_PORT" "587") = Ok smtp_port;
  quiet_message : mail_configured h = true →
                  ∀ content,
                    email_message h subject (mail_sender h)
                                  (environ_get h "DNS_SYNC_SMTP_TO" "") content = Ok tt;
}.

(** The same for the sync-failed messages of a list of spokes. *)
Definition quiet_for (h : Host) (spokes : list ServerConfig) : Prop :=
  Forall (λ cfg, quiet h (sync_failed_subject (cfg_name cfg))) spokes.

(** The world after a message went to the transports. *)
Definition notified {R} (note : Notification) (w : World R) : World R :=
  post (deliveries (w_host w) (w_now w) note) w.

(** The history row of a spoke sync that failed with [e], and that of one
    that succeeded with [stats]. *)
Definition failure_row (now : string) (cfg : ServerConfig) (e : exn) : db.SyncRun :=
  db.sync_run now (cfg_name cfg) (cfg_type cfg) "spoke" empty_stats (Some (str_exn e)).

Definition success_row (now : string) (cfg : ServerConfig) (stats : Stats) : db.SyncRun :=
  db.sync_run now (cfg_name cfg) (cfg_type cfg) "spoke" stats None.

(** The world after the failure of a spoke sync was recorded and
    notified. *)
Definition failed {R} (cfg : ServerConfig) (e : exn) (w : World R) : World R :=
  notified (sync_failed_note (w_now w) (cfg_name cfg) (cfg_type cfg) (str_exn e))
           (with_runs [failure_row (w_now w) cfg e] w).

(** The world after the spoke state and the success of a spoke sync were
    recorded. *)
Definition succeeded {R} (cfg : ServerConfig) (hub_records : Records) (stats : Stats)
    (w : World R) : World R :=
  with_runs [success_row (w_now w) cfg stats]
    (set_db (db.save_spoke_records (w_now w) (cfg_name cfg) hub_records (w_db w)) w).

(** A computation that touches only adapters and raises only exceptions
    in [Q]. *)
Definition keeps {R A} (Q : exn → Prop) (m : M R A) : Prop :=
  ∀ w, same_store w (m w).2 ∧ ∀ e, (m w).1 = Raise e → Q e.

(** An adapter whose calls raise only exceptions in [Q]. *)
Definition raises_in {R} (Q : exn → Prop) (srv : DNSServer R) : Prop :=
  (∀ r e, (connect srv r).1 = Raise e → Q e)
  ∧ (∀ r e, (get_records srv r).1 = Raise e → Q e)
  ∧ (∀ record r e, (add_record srv record r).1 = Raise e → Q e)
  ∧ (∀ record r e, (delete_record srv record r).1 = Raise e → Q e).

(** The world after a hub refresh failed with [e]: the notification is in
    the outbox. *)
Definition hub_failed {R} (hub_cfg : ServerConfig) (e : exn) (w : World R) : World R :=
  notified (hub_unreachable_note (w_now w) (cfg_name hub_cfg) (cfg_type hub_cfg) (str_exn e))
           w.

(** The world after the hub records were saved. *)
Definition hub_saved {R} (hub_cfg : ServerConfig) (hub_records : Records) (w : World R)
  : World R :=
  set_db (db.save_hub_records (w_now w) (cfg_name hub_cfg) hub_records (w_db w)) w.

(** The history row [perform_sync] writes when the hub refresh returned
    nothing. *)
Definition hub_unreachable_row (now : string) (cfg : ServerConfig) : db.SyncRun :=
  db.sync_run now (cfg_name cfg) (cfg_type cfg) "spoke" empty_stats
              (Some "Hub unreachable and no cached records").

(** What a turn of the loop of [sync_all_enabled_spokes] keeps on a
    working database, however it ends: the database still works, the host
    is the same, and a spoke state that is the hub snapshot stays the hub
    snapshot. *)
Definition turn_keeps {R} (name : string) (hub_records : Records) (w w' : World R) : Prop :=
  w_db_faults w = [] →
  w_db_faults w' = [] ∧ w_host w' = w_host w
  ∧ (stored name (db.spoke_records (w_db w)) = pairs_of hub_records →
     stored name (db.spoke_records (w_db w')) = pairs_of hub_records).

(** The history rows written between two worlds. *)
Definition new_runs {R} (w w' : World R) : list db.SyncRun :=
  drop (length (db.sync_runs (w_db w))) (db.sync_runs (w_db w')).

(** ** db.py: the queries of the dashboard and [clear_history] *)

Module queries.

(** [row[0] if row else None] over [SELECT last_updated FROM cache_meta
    WHERE hub_name = ?]; [hub_name] is the primary key of the table. *)
Definition get_cache_last_updated (hub_name : string) (d : db.t) : option string :=
  db.cache_meta d !! hub_name.

(** [SELECT record_type, COUNT( * ) ... GROUP BY record_type], read into
    the dict [{row[0]: row[1] for row in rows}]. *)
Definition count_by_type (rows : list db.Row) : gmap string nat :=
  foldl (λ counts row,
           <[db.record_type row := default 0 (counts !! db.record_type row) + 1]> counts)
        ∅ rows.

Definition get_cache_record_counts (hub_name : string) (d : db.t) : gmap string nat :=
  count_by_type (db.select_where hub_name (db.authoritative_records d)).

Definition get_spoke_record_counts (spoke_name : string) (d : db.t) : gmap string nat :=
  count_by_type (db.select_where spoke_name (db.spoke_records d)).

(** [DELETE FROM sync_runs WHERE server_name = ?] when [server_name] is
    truthy, [DELETE FROM sync_runs] otherwise. *)
Definition clear_history (server_name : option string) (d : db.t) : db.t :=
  db.mk (db.authoritative_records d) (db.cache_meta d) (db.spoke_records d)
        (match server_name with
         | Some (String _ _ as name) =>
             filter (λ run, db.server_name run ≠ name) (db.sync_runs d)
         | _ => []
         end).

(** [ORDER BY started_at DESC]: the text column is compared byte by byte.
    SQLite leaves the order of rows with equal [started_at] open; the
    insertion below keeps them in the order of their insertion. *)
Fixpoint insert_desc (run : db.SyncRun) (sorted : list db.SyncRun) : list db.SyncRun :=
  match sorted with
  | [] => [run]
  | x :: rest =>
      if String.ltb (db.started_at x) (db.started_at run) then run :: x :: rest
      else x :: insert_desc run rest
  end.

Definition order_by_started_at_desc (rows : list db.SyncRun) : list db.SyncRun :=
  foldl (λ sorted run, insert_desc run sorted) [] rows.

(** [LIMIT ?]: a negative limit is no limit. *)
Definition sql_limit {A} (limit : Z) (rows : list A) : list A :=
  if bool_decide (limit < 0)%Z then rows else take (Z.to_nat limit) rows.

(** The rows [get_history] and [get_last_sync] return are the rows of
    [sync_runs] without the [id] column, which the store does not keep. *)
Definition get_history (limit : Z) (server_name : option string) (d : db.t)
  : list db.SyncRun :=
  match server_name with
  | Some (String _ _ as name) =>
      sql_limit limit
        (order_by_started_at_desc
           (filter (λ run, db.server_name run = name) (db.sync_runs d)))
  | _ => sql_limit limit (order_by_started_at_desc (db.sync_runs d))
  end.

(** [limit: int = 50] *)
Definition default_limit : Z := 50.

Definition get_last_sync (server_name : string) (d : db.t) : option db.SyncRun :=
  head (sql_limit 1
          (order_by_started_at_desc
             (filter (λ run, db.server_name run = server_name) (db.sync_runs d)))).

End queries.

(** A write that the diff of [S] against [T] calls for: the addition of a
    record of [S] that [T] lacks, or the deletion of a record of [T] that
    [S] lacks. *)
Definition called_for (S T : Records) (c : Call) : Prop :=
  match c with
  | CAddRecord record =>
      DNSRecord.type record ∈ ["A"; "CNAME"]
      ∧ canonical record ∈ get_set S (DNSRecord.type record)
      ∧ canonical record ∉ get_set T (DNSRecord.type record)
  | CDeleteRecord record =>
      DNSRecord.type record ∈ ["A"; "CNAME"]
      ∧ canonical record ∈ get_set T (DNSRecord.type record)
      ∧ canonical record ∉ get_set S (DNSRecord.type record)
  | _ => True
  end.

(** An adapter that works, among others behind the same remote state:
    [views n] reads the record sets of the server called [n] out of the
    remote state.  The adapter is well behaved on the sets of [n],
    connects without raising, and none of its calls changes what the
    other servers hold. *)
Record healthy_spoke {R} (views : string → R → Records) (n : string)
    (srv : DNSServer R) : Prop := {
  hs_behaved : well_behaved srv (views n);
  hs_connect : ∀ r, ∃ connected r',
      connect srv r = (Ok connected, r') ∧ ∀ m, views m r' = views m r;
  hs_disconnect : ∀ r m, views m (disconnect srv r) = views m r;
  hs_add : ∀ record r m, m ≠ n → views m (add_record srv record r).2 = views m r;
  hs_delete : ∀ record r m, m ≠ n → views m (delete_record srv record r).2 = views m r;
}.

(** What the server called [n] holds in the two synchronised record
    types is what [S] holds. *)
Definition in_sync {R} (views : string → R → Records) (S : Records) (n : string) (r : R)
  : Prop :=
  get_set (views n r) "A" = get_set S "A"
  ∧ get_set (views n r) "CNAME" = get_set S "CNAME".

(** ** app.py: the sync flows *)

(** An entry of [config.list_servers()]: the configuration the engine
    reads, and the [sync_mode] key that tells the hub from the spokes. *)
Record Server := mkServerEntry {
  server_cfg : ServerConfig;
  sync_mode : option string;
}.

(** [[s for s in servers if s.get("sync_mode") == "hub"]] *)
Definition hub_cfgs (servers : list Server) : list Server :=
  filter (λ s, sync_mode s = Some "hub") servers.

(** [[s for s in servers if s.get("sync_mode") != "hub"]] *)
Definition spoke_cfgs (servers : list Server) : list Server :=
  filter (λ s, sync_mode s ≠ Some "hub") servers.

Section flows.
Context {R : Type}.
Variable create_server : string → string → ServerConfig → result (DNSServer R).

(** The startup sync of [lifespan]: refresh the first hub, then sync the
    spokes when the refresh returned records.  The scheduled sync of
    [_background_sync_loop] and the [sync_all] route run the same two
    calls under the same tests. *)
Definition startup_sync (servers : list Server) : M R unit :=
  match hub_cfgs servers with
  | hub_cfg :: _ =>
      let* hub_records := refresh_hub_cache create_server (server_cfg hub_cfg) in
      match hub_records with
      | Some _ =>
          sync_all_enabled_spokes create_server (server_cfg hub_cfg)
            (server_cfg <$> spoke_cfgs servers) ;;;
          ret tt
      | None => ret tt
      end
  | [] => ret tt
  end.

End flows.

(** ** app.py: clearing the records of a spoke *)

Section clear_spoke_records.
Context {R : Type}.
Variable create_server : string → string → ServerConfig → result (DNSServer R).

(** One turn of the inner loop of [_clear]: the record string is parsed
    outside the [try], the deletion is inside. *)
Definition clear_record (server : DNSServer R) (record_type : string)
    (removed : nat) (record_str : string) : M R nat :=
  let* record := lift (parse_record record_type record_str) in
  try_except
    (let* deleted := call_delete_record server record in
     if deleted : bool then ret (removed + 1) else ret removed)
    (λ e, ret removed).

(** The closure [_clear] of the route [clear_spoke_records]: the factory
    call comes before the [try], whose [finally] clause disconnects; the
    two database writes follow the [try]. *)
Definition _clear (server_name : string) (spoke_cfg : ServerConfig) : M R unit :=
  let removed := 0 in
  let* server := lift (create_server (cfg_type spoke_cfg) server_name spoke_cfg) in
  let* removed :=
    try_finally
      (call_connect server ;;;
       let* live_records := call_get_records server in
       for_each (map_to_list live_records)
         (λ removed '(record_type, record_set),
            for_each (elements record_set) (clear_record server record_type) removed)
         removed)
      (call_disconnect server) in
  db_write (λ now, db.save_spoke_records now server_name ∅) ;;;
  let empty : Stats :=
    {[ "added" := 0; "removed" := removed; "conflicts" := 0;
       "a_records" := 0; "cname_records" := 0 ]} in
  db_write (λ now, db.record_sync now server_name (cfg_type spoke_cfg) "spoke" empty None).

End clear_spoke_records.

(** The statistics of the history row [_clear] writes. *)
Definition cleared_stats (removed : nat) : Stats :=
  {[ "added" := 0; "removed" := removed; "conflicts" := 0;
     "a_records" := 0; "cname_records" := 0 ]}.

(** The (type, string) pairs of a record-set map, in the order the two
    nested loops over [records.items()] and over each set visit them. *)
Definition record_pairs (records : Records) : list (string * string) :=
  flat_map (λ '(rtype, record_set), (λ rstr, (rtype, rstr)) <$> elements record_set)
           (map_to_list records).


(** ** Strings, as the adapters use them *)

(** [sub in s] *)
Definition contains (sub s : string) : bool :=
  match DNSRecord.partition_at sub s with
  | Some _ => true
  | None => false
  end.

(** [s.split(sep)] for a separator of one character. *)
Fixpoint str_split (sep : Ascii.ascii) (s : string) : list string :=
  match s with
  | "" => [""]
  | String c s' =>
      if Ascii.eqb c sep then "" :: str_split sep s'
      else
        match str_split sep s' with
        | part :: parts => String c part :: parts
        | [] => [String c ""]
        end
  end.

(** [sep.join(parts)] *)
Fixpoint str_join (sep : string) (parts : list string) : string :=
  match parts with
  | [] => ""
  | [part] => part
  | part :: parts' => part +:+ sep +:+ str_join sep parts'
  end.

(** ** servers/technitium.py *)

Module Technitium.

Definition _extract_zone (domain : string) : string :=
  let parts := str_split "."%char domain in
  if bool_decide (1 < length parts) then str_join "." (drop 1 parts) +:+ "."
  else domain +:+ ".".

End Technitium.

(** ** servers/pihole.py *)

Module PiHole.

(** The loop of [get_records] over the [hosts] array of the Pi-hole
    configuration, an array of strings. *)
Definition a_records (hosts : list string) : gset string :=
  foldl (λ a_records host,
           if contains " " host then a_records ∪ {[host]} else a_records)
        ∅ hosts.

(** The loop of [get_records] over the [cnameRecords] array:
    [domain, target = cname.split(',')[:2]]. *)
Definition cname_records (cnames : list string) : result (gset string) :=
  foldl (λ acc cname,
           match acc with
           | Raise e => Raise e
           | Ok cname_records =>
               if contains "," cname then
                 match DNSRecord.unpack2 (take 2 (str_split ","%char cname)) with
                 | Ok (domain, target) =>
                     Ok (cname_records ∪ {[domain +:+ " -> " +:+ target]})
                 | Raise e => Raise e
                 end
               else Ok cname_records
           end)
        (Ok ∅) cnames.

(** What [get_records] returns for the two arrays. *)
Definition records_of (hosts cnames : list string) : result Records :=
  match cname_records cnames with
  | Ok cname_records => Ok {[ "A" := a_records hosts; "CNAME" := cname_records ]}
  | Raise e => Raise e
  end.

(** The entry [add_record] and [delete_record] name in the URL for a
    CNAME record: [f"{record.domain},{record.value}"]. *)
Definition cname_entry (record : DNSRecord.t) : string :=
  DNSRecord.domain record +:+ "," +:+ DNSRecord.value record.

End PiHole.

(** ** config.py: ConfigManager *)

Module ConfigManager.
Section config.

(** The values of a server entry, as YAML gives them; [==] and [!=] on
    them are decided.  A server entry is a dict, [gmap string V]. *)
Context {V : Type} `{EqDecision V}.

(** The manager: the list under [self.config['servers']], and what the
    last [_save] wrote to [config.yaml] ([None] before the first save). *)
Record t := mk {
  servers : list (gmap string V);
  config_file : option (list (gmap string V));
}.

(** [s[key]] *)
Definition item (s : gmap string V) (key : string) : result V :=
  match s !! key with
  | Some v => Ok v
  | None => Raise (Exn OtherException ("KeyError: " +:+ key))
  end.

(** [[s for s in servers if s['name'] != other]], where the right-hand
    side of the test is evaluated at every turn, after the left-hand
    side. *)
Fixpoint others (other : result V) (servers : list (gmap string V))
  : result (list (gmap string V)) :=
  match servers with
  | [] => Ok []
  | s :: rest =>
      match item s "name" with
      | Raise e => Raise e
      | Ok name =>
          match other with
          | Raise e => Raise e
          | Ok name' =>
              match others other rest with
              | Raise e => Raise e
              | Ok kept => Ok (if decide (name ≠ name') then s :: kept else kept)
              end
          end
      end
  end.





Definition list_servers (c : t) : list (gmap string V) := servers c.




End config.
Arguments t V : clear implicits.
End ConfigManager.




(** ** servers/base.py: _load_credentials *)

(** [s.replace(old, "")]: the occurrences of [old] are dropped from left
    to right; each step consumes a character, so the length of [s] is
    fuel enough. *)
Fixpoint remove_all_go (fuel : nat) (old s : string) : string :=
  match fuel with
  | 0 => s
  | S fuel' =>
      match DNSRecord.strip_prefix old s with
      | Some rest => remove_all_go fuel' old rest
      | None =>
          match s with
          | "" => ""
          | String c s' => String c (remove_all_go fuel' old s')
          end
      end
  end.

Definition remove_all (old s : string) : string :=
  remove_all_go (String.length s) old s.

(** A value of the [auth] section of a server entry: a string, or
    something else. *)
Inductive auth_value {Other : Type} :=
  | AuthStr (s : string)
  | AuthOther (o : Other).
Arguments auth_value Other : clear implicits.

Section credentials.
Context {Other : Type}.

(** [self.secrets.get_credential(server_name, field)]: the secrets
    manager is an external collaborator; it returns a string or [None],
    or raises. *)
Variable get_credential : string → string → result (option string).

(** One turn of the loop [for field in auth_config]. *)
Definition load_field (name : string) (credentials : gmap string (auth_value Other))
    (field : string) (value : auth_value Other) : result (gmap string (auth_value Other)) :=
  let docker_native :=
    match get_credential name field with
    | Raise e => Raise e
    | Ok cred_value =>
        Ok (<[field := if truthy cred_value then AuthStr (default "" cred_value)
                       else value]> credentials)
    end in
  match value with
  | AuthStr v =>
      match DNSRecord.strip_prefix "encrypted:" v with
      | Some _ =>
          let clean_field := remove_all "encrypted:" v in
          match get_credential name clean_field with
          | Raise e => Raise e
          | Ok cred_value =>
              if truthy cred_value
              then Ok (<[clean_field := AuthStr (default "" cred_value)]> credentials)
              else Ok credentials
          end
      | None => docker_native
      end
  | AuthOther _ => docker_native
  end.

(** [auth_config] is the [auth] dict of the entry, as the list of its
    items in iteration order. *)
Definition _load_credentials (name : string) (auth_config : list (string * auth_value Other))
  : result (gmap string (auth_value Other)) :=
  foldl (λ acc '(field, value),
           match acc with
           | Raise e => Raise e
           | Ok credentials => load_field name credentials field value
           end)
        (Ok ∅) auth_config.

End credentials.

(** A value that is not a reference of the legacy form
    [encrypted:<field>]. *)
Definition plain_value {Other} (value : auth_value Other) : Prop :=
  match value with
  | AuthStr v => DNSRecord.strip_prefix "encrypted:" v = None
  | AuthOther _ => True
  end.

(** The kind of a delivery. *)
Definition is_discord (d : Delivery) : bool :=
  match d with Discord _ _ _ => true | _ => false end.

Definition is_email (d : Delivery) : bool :=
  match d with Email _ _ _ _ _ _ _ => true | _ => false end.

(** The two steps [_send_email] takes before its [try]: the conversion of
    the port, then the construction of the message. *)
Definition prepared (h : Host) (subject content : string) : result unit :=
  match int h (environ_get h "DNS_SYNC_SMTP_PORT" "587") with
  | Raise e => Raise e
  | Ok _ =>
      email_message h subject (mail_sender h) (environ_get h "DNS_SYNC_SMTP_TO" "") content
  end.

(** ** The scenarios of the further examples *)

Module Scenario.

(** A day before [Fake.now]. *)
Definition yesterday : string := "2023-12-31T00:00:00+00:00".

(** The cache of the hub, and a success row of the day before for the
    spoke. *)
Definition synced_yesterday : db.t :=
  db.record_sync yesterday "spoke" "healthy" "spoke" empty_stats None Fake.cached.

(** A hub and two spokes, as [config.list_servers()] returns them; the
    second spoke has no [sync_mode]. *)
Definition servers : list Server :=
  [ mkServerEntry Fake.hub_cfg (Some "hub");
    mkServerEntry Fake.spoke_cfg (Some "spoke");
    mkServerEntry Fake.other_cfg None ].

(** The same with a hub that refuses the connection. *)
Definition servers_hub_down : list Server :=
  [ mkServerEntry Fake.hub_down_cfg (Some "hub");
    mkServerEntry Fake.spoke_cfg (Some "spoke") ].

(** The remote state in which the hub holds its records and the spoke a
    stale one. *)
Definition remote : Fake.Remote :=
  {[ "hub" := Fake.hub_records; "spoke" := Fake.spoke_records ]}.

(** The remote state in which the hub holds no record. *)
Definition remote_empty_hub : Fake.Remote :=
  {[ "hub" := Fake.no_records; "spoke" := Fake.spoke_records ]}.


(** A spoke that refuses the connection. *)
Definition down_cfg : ServerConfig := mkConfig "spoke" "unreachable" None.

(** A network that answers every request with status 503. *)
Definition busy (k : nat) : result Response.t := Ok (Response.mk 503 "busy").



(** A secrets manager that holds the password of every server and
    nothing else. *)
Definition get_credential (server_name field : string) : result (option string) :=
  if bool_decide (field = "password") then Ok (Some "s3cret") else Ok None.

(** An [auth] section with a password and a zone. *)
Definition auth : list (string * auth_value unit) :=
  [ ("password", AuthStr "from-config"); ("zone_id", AuthStr "z1") ].

End Scenario.


(** ** Round trip of the canonical strings *)

Section roundtrip.
Import DNSRecord.

Lemma append_String c a b : String c a +:+ b = String c (a +:+ b).
Proof. reflexivity. Qed.

Lemma strip_prefix_app sep rest : strip_prefix sep (sep +:+ rest) = Some rest.
Proof.
  induction sep as [|a sep IH]; [done|].
  rewrite append_String. simpl. by rewrite Ascii.eqb_refl.
Qed.

Lemma strip_prefix_Some sep s rest :
  strip_prefix sep s = Some rest → s = sep +:+ rest.
Proof.
  revert s. induction sep as [|a sep IH]; intros s; simpl.
  - by intros [= ->].
  - destruct s as [|b s]; [done|].
    destruct (Ascii.eqb a b) eqn:E; [|done].
    apply Ascii.eqb_eq in E as ->. intros H.
    by rewrite append_String, (IH _ H).
Qed.

Lemma partition_at_Some sep s a b :
  partition_at sep s = Some (a, b) → s = a +:+ sep +:+ b.
Proof.
  revert a b. induction s as [|c s IH]; intros a b; simpl.
  - destruct (strip_prefix sep "") eqn:E; [|done].
    intros [= <- <-]. by apply strip_prefix_Some in E.
  - destruct (strip_prefix sep (String c s)) eqn:E.
    + intros [= <- <-]. by apply strip_prefix_Some in E.
    + destruct (partition_at sep s) as [[a' b']|] eqn:E'; [|done].
      intros [= <- <-]. rewrite append_String. f_equal. by apply IH.
Qed.

Lemma partition_at_app sep a b :
  is_Some (partition_at sep (a +:+ sep +:+ b)).
Proof.
  induction a as [|c a IH].
  - change ("" +:+ sep +:+ b) with (sep +:+ b).
    destruct sep as [|d sep]; [destruct b; by eexists|].
    rewrite append_String. simpl.
    rewrite Ascii.eqb_refl, strip_prefix_app. by eexists.
  - rewrite append_String. simpl.
    destruct (strip_prefix sep (String c (a +:+ sep +:+ b))); [by eexists|].
    destruct IH as [[a' b'] ->]. by eexists.
Qed.

Lemma from_a_string_format s r : from_a_string s = Ok r → to_a_format r = s.
Proof.
  unfold from_a_string, split1.
  destruct (partition_at " " s) as [[a b]|] eqn:E; simpl; [|done].
  intros [= <-]. by apply partition_at_Some in E.
Qed.

Lemma from_cname_string_format s r :
  from_cname_string s = Ok r → to_cname_format r = s.
Proof.
  unfold from_cname_string, split1.
  destruct (partition_at " -> " s) as [[a b]|] eqn:E; simpl; [|done].
  intros [= <-]. by apply partition_at_Some in E.
Qed.

Lemma from_a_string_valid ip dom :
  ∃ r, from_a_string (ip +:+ " " +:+ dom) = Ok r ∧ type r = "A".
Proof.
  unfold from_a_string, split1.
  destruct (partition_at_app " " ip dom) as [[a b] ->]. by eexists.
Qed.

Lemma from_cname_string_valid dom target :
  ∃ r, from_cname_string (dom +:+ " -> " +:+ target) = Ok r ∧ type r = "CNAME".
Proof.
  unfold from_cname_string, split1.
  destruct (partition_at_app " -> " dom target) as [[a b] ->]. by eexists.
Qed.

(** C7: every string with the shape of a canonical A record, that is
    [ip ++ " " ++ domain], is parsed by [from_a_string] into a record that
    [to_a_format] prints back as the identical string, and every string
    [domain ++ " -> " ++ target] is parsed by [from_cname_string] into a
    record that [to_cname_format] prints back as the identical string. *)
Theorem canonical_string_roundtrip :
  (∀ ip dom, ∃ r,
      from_a_string (ip +:+ " " +:+ dom) = Ok r
      ∧ to_a_format r = ip +:+ " " +:+ dom)
  ∧ (∀ dom target, ∃ r,
      from_cname_string (dom +:+ " -> " +:+ target) = Ok r
      ∧ to_cname_format r = dom +:+ " -> " +:+ target).
Proof.
  split.
  - intros ip dom. destruct (from_a_string_valid ip dom) as (r & Hr & _).
    exists r. split; [done|]. by apply from_a_string_format.
  - intros dom target.
    destruct (from_cname_string_valid dom target) as (r & Hr & _).
    exists r. split; [done|]. by apply from_cname_string_format.
Qed.

End roundtrip.

(** ** The retry helper is bounded *)

Section retry.

Lemma attempt_request_eq s :
  attempt_request s
  = (outcome_at (responses s) (sent s),
     mkSession (responses s) (S (sent s)) (slept s)).
Proof.
  unfold outcome_at, attempt_request, session_request. simpl.
  destruct (responses s (sent s)) as [resp|e]; [|done].
  by destruct (Response.raise_for_status resp).
Qed.

Lemma backoff_S k : backoff (S k) = backoff k ++ [(2 * (Z.of_nat k + 1))%Z].
Proof. unfold backoff. by rewrite seq_S, fmap_app. Qed.

Local Ltac retry_done :=
  split_and!; solve [done | lia | by left | right; lia].

(** The loop, started at attempt [k] with [m + 1] attempts left. *)
Lemma retry_loop_spec retries net m : ∀ k,
  (k + S m = Z.to_nat retries)%nat →
  (∀ j, (j < k)%nat → ∃ e, outcome_at net j = Raise e ∧ is_RequestException e = true) →
  let '(r, s) := retry_loop retries (Z.of_nat <$> seq k (S m)) (mkSession net k (backoff k)) in
  (0 < sent s ≤ Z.to_nat retries)%nat
  ∧ slept s = backoff (sent s - 1)
  ∧ (∀ j, (j < sent s - 1)%nat →
       ∃ e, outcome_at net j = Raise e ∧ is_RequestException e = true)
  ∧ match r with
    | Ok None => False
    | Ok (Some response) => outcome_at net (sent s - 1) = Ok response
    | Raise e =>
        outcome_at net (sent s - 1) = Raise e
        ∧ (is_RequestException e = false ∨ sent s = Z.to_nat retries)
    end.
Proof.
  induction m as [|m IH]; intros k Hkm Hprev.
  - cbn [seq fmap list_fmap retry_loop]. rewrite attempt_request_eq.
    cbn [responses sent slept]. replace (S k - 1)%nat with k by lia.
    destruct (outcome_at net k) as [resp|e] eqn:Hout.
    + cbn [sent slept]. replace (S k - 1)%nat with k by lia.
      retry_done.
    + destruct (is_RequestException e) eqn:He.
      * rewrite bool_decide_eq_true_2 by lia.
        cbn [sent slept]. replace (S k - 1)%nat with k by lia.
        retry_done.
      * cbn [sent slept]. replace (S k - 1)%nat with k by lia.
        retry_done.
  - cbn [seq fmap list_fmap retry_loop]. rewrite attempt_request_eq.
    cbn [responses sent slept].
    destruct (outcome_at net k) as [resp|e] eqn:Hout.
    + cbn [sent slept]. replace (S k - 1)%nat with k by lia.
      retry_done.
    + destruct (is_RequestException e) eqn:He.
      * rewrite bool_decide_eq_false_2 by lia.
        unfold time_sleep. cbn [responses sent slept].
        replace ((Z.of_nat k + 1) * 2)%Z with (2 * (Z.of_nat k + 1))%Z by lia.
        rewrite <-backoff_S.
        apply (IH (S k)); [lia|].
        intros j Hj. destruct (decide (j = k)) as [->|]; [eauto|].
        apply Hprev. lia.
      * cbn [sent slept]. replace (S k - 1)%nat with k by lia.
        retry_done.
Qed.

(** C9: [_request_with_retry] sends at most [retries] requests, where
    [retries] is the configured count and 3 when none is configured; the
    waits between attempts are 2, 4, 6, ... seconds, one after each failed
    attempt but the last; every attempt before the last one failed with a
    [RequestException]; a [RequestException] is re-raised only by the last
    of the [retries] attempts, and it is the exception of that attempt.
    The loop is a structural recursion over [range(retries)], so it always
    ends. *)
Theorem request_with_retry_bounded (net : nat → result Response.t) (configured : option Z) :
  let retries := config_retries configured in
  let '(r, s) := _request_with_retry retries (mkSession net 0 []) in
  config_retries None = 3%Z
  ∧ (sent s ≤ Z.to_nat retries)%nat
  ∧ slept s = backoff (sent s - 1)
  ∧ Forall (λ j, ∃ e, outcome_at net j = Raise e ∧ is_RequestException e = true)
           (seq 0 (sent s - 1))
  ∧ match r with
    | Ok None => sent s = 0%nat ∧ (retries ≤ 0)%Z
    | Ok (Some response) =>
        (0 < sent s)%nat ∧ outcome_at net (sent s - 1) = Ok response
    | Raise e =>
        (0 < sent s)%nat ∧ outcome_at net (sent s - 1) = Raise e
        ∧ (is_RequestException e = false ∨ sent s = Z.to_nat retries)
    end.
Proof.
  intros retries. unfold _request_with_retry, range.
  destruct (Z.to_nat retries) as [|m] eqn:Hn.
  - simpl. repeat split; try done. lia.
  - pose proof (retry_loop_spec retries net m 0) as H.
    change (backoff 0) with (@nil Z) in H.
    destruct (retry_loop retries (Z.of_nat <$> seq 0 (S m)) (mkSession net 0 []))
      as [r s].
    destruct H as (Hsent & Hslept & Hprev & Hr); [lia|intros j Hj; lia|].
    split; [done|]. split; [lia|]. split; [done|]. split.
    + apply Forall_forall. intros j Hj. apply Hprev.
      apply elem_of_seq in Hj. lia.
    + destruct r as [[resp|]|e]; [split; [lia|done]|done|].
      destruct Hr as [? [?|?]]; split_and!; solve [done | lia | by left | right; lia].
Qed.

End retry.

(** ** The cache store *)

Section store.
Import db.

Lemma filter_all {A} (P : A → Prop) `{∀ x, Decision (P x)} (l : list A) :
  (∀ x, x ∈ l → P x) → filter P l = l.
Proof.
  induction l as [|x l IH]; intros Hall; [done|].
  rewrite filter_cons_True by (apply Hall; left).
  f_equal. apply IH. intros y Hy. apply Hall. by right.
Qed.

Lemma filter_none {A} (P : A → Prop) `{∀ x, Decision (P x)} (l : list A) :
  (∀ x, x ∈ l → ¬ P x) → filter P l = [].
Proof.
  induction l as [|x l IH]; intros Hall; [done|].
  rewrite filter_cons_False by (apply Hall; left).
  apply IH. intros y Hy. apply Hall. by right.
Qed.

Lemma elem_of_rows_of row name now records :
  row ∈ rows_of name now records
  ↔ ∃ rtype record_set rstr,
      records !! rtype = Some record_set ∧ rstr ∈ record_set
      ∧ row = mkRow name rtype rstr now.
Proof.
  unfold rows_of. rewrite list_elem_of_In, in_flat_map. split.
  - intros ([rtype record_set] & Hin & Hrow).
    apply list_elem_of_In, elem_of_map_to_list in Hin.
    apply list_elem_of_In, list_elem_of_fmap in Hrow as (rstr & -> & Hrstr).
    apply elem_of_elements in Hrstr. by exists rtype, record_set, rstr.
  - intros (rtype & record_set & rstr & Hlook & Hrstr & ->).
    exists (rtype, record_set). split.
    + by apply list_elem_of_In, elem_of_map_to_list.
    + apply list_elem_of_In, list_elem_of_fmap. exists rstr.
      split; [done|]. by apply elem_of_elements.
Qed.

Lemma select_delete_where name rows : select_where name (delete_where name rows) = [].
Proof.
  unfold select_where, delete_where. apply filter_none.
  intros row Hrow. by apply list_elem_of_filter in Hrow as [? _].
Qed.

Lemma select_rows_of name now records :
  select_where name (rows_of name now records) = rows_of name now records.
Proof.
  unfold select_where. apply filter_all. intros row Hrow.
  by apply elem_of_rows_of in Hrow as (? & ? & ? & _ & _ & ->).
Qed.

Lemma select_other name name' now records :
  name ≠ name' → select_where name (rows_of name' now records) = [].
Proof.
  intros Hne. unfold select_where. apply filter_none. intros row Hrow.
  apply elem_of_rows_of in Hrow as (? & ? & ? & _ & _ & ->). simpl. congruence.
Qed.

Lemma select_where_app name rows1 rows2 :
  select_where name (rows1 ++ rows2) = select_where name rows1 ++ select_where name rows2.
Proof. apply filter_app. Qed.

Lemma get_set_insert_eq (records : Records) rtype record_set :
  get_set (<[rtype := record_set]> records) rtype = record_set.
Proof. unfold get_set. by rewrite lookup_insert_eq. Qed.

Lemma get_set_insert_ne (records : Records) rtype rtype' record_set :
  rtype ≠ rtype' → get_set (<[rtype := record_set]> records) rtype' = get_set records rtype'.
Proof. intros. unfold get_set. by rewrite lookup_insert_ne. Qed.

Lemma group_rows_lookup rows : ∀ (records : Records) rtype,
  foldl (λ records row,
           <[record_type row := get_set records (record_type row) ∪ {[record_str row]}]> records)
        records rows !! rtype
  = match strings_of rtype rows with
    | [] => records !! rtype
    | strs => Some (get_set records rtype ∪ list_to_set strs)
    end.
Proof.
  induction rows as [|row rows IH]; intros records rtype; [done|].
  cbn [foldl]. rewrite IH. unfold strings_of. rewrite filter_cons.
  case_decide as Hty.
  - subst rtype. cbn [fmap list_fmap].
    rewrite get_set_insert_eq, lookup_insert_eq.
    fold (strings_of (record_type row) rows).
    destruct (strings_of (record_type row) rows) as [|str strs];
      f_equal; set_solver.
  - fold (strings_of rtype rows).
    rewrite get_set_insert_ne, lookup_insert_ne by done.
    by destruct (strings_of rtype rows).
Qed.

Lemma elem_of_strings_of rstr rtype name now records :
  rstr ∈ strings_of rtype (rows_of name now records) ↔ rstr ∈ get_set records rtype.
Proof.
  unfold strings_of. rewrite list_elem_of_fmap. split.
  - intros (row & -> & Hrow).
    apply list_elem_of_filter in Hrow as [Hty Hrow].
    apply elem_of_rows_of in Hrow as (rtype' & record_set & rstr & Hlook & Hin & ->).
    simpl in *. subst rtype'. unfold get_set. by rewrite Hlook.
  - intros Hin. unfold get_set in Hin.
    destruct (records !! rtype) as [record_set|] eqn:Hlook; [|set_solver].
    exists (mkRow name rtype rstr now). split; [done|].
    apply list_elem_of_filter. split; [done|].
    apply elem_of_rows_of. by exists rtype, record_set, rstr.
Qed.

Lemma group_rows_of name now records :
  group_rows (rows_of name now records) = nonempty_sets records.
Proof.
  apply map_eq. intros rtype. unfold group_rows, nonempty_sets.
  rewrite group_rows_lookup, map_lookup_filter.
  pose proof (elem_of_strings_of) as Hstr.
  specialize (Hstr) with (rtype := rtype) (name := name) (now := now) (records := records).
  unfold get_set in *. rewrite lookup_empty in *. cbn [default] in *.
  destruct (strings_of rtype (rows_of name now records)) as [|str strs] eqn:Hstrs.
  - destruct (records !! rtype) as [record_set|] eqn:Hlook; [|done].
    cbn. rewrite option_guard_False; [done|].
    intros Hne. apply Hne. apply set_eq. intros x. rewrite <-Hstr. set_solver.
  - destruct (records !! rtype) as [record_set|] eqn:Hlook.
    + cbn. rewrite option_guard_True.
      * cbn. f_equal. apply set_eq. intros x. rewrite <-Hstr. set_solver.
      * intros Hempty. specialize (Hstr str). rewrite Hempty in Hstr. set_solver.
    + specialize (Hstr str). set_solver.
Qed.

End store.

(** ** The rows and results of skipped spokes *)

Section skipped.

Lemma skipped_rows_status now spokes :
  Forall (λ row, db.status row = "error" ∧ db.error row = Some no_cache_msg
                 ∧ db.added row = 0 ∧ db.removed row = 0 ∧ db.conflicts row = 0)
         (skipped_rows now spokes).
Proof. unfold skipped_rows. apply Forall_fmap, Forall_forall. by intros cfg _. Qed.

Lemma skipped_rows_names now spokes :
  db.server_name <$> skipped_rows now spokes = enabled_names spokes.
Proof.
  unfold skipped_rows, enabled_names. rewrite <-list_fmap_compose.
  by apply list_fmap_ext.
Qed.

Lemma foldl_insert_lookup (names : list string) : ∀ (results : gmap string Stats) key,
  foldl (λ results n, <[n := empty_stats]> results) results names !! key
  = if decide (key ∈ names) then Some empty_stats else results !! key.
Proof.
  induction names as [|n names IH]; intros results key; cbn [foldl].
  - rewrite decide_False; [done|]. apply not_elem_of_nil.
  - rewrite IH. destruct (decide (key ∈ names)) as [Hin|Hnin].
    + rewrite decide_True; [done|]. by right.
    + destruct (decide (key = n)) as [->|Hne].
      * rewrite decide_True by left. by rewrite lookup_insert_eq.
      * rewrite decide_False; [by rewrite lookup_insert_ne|].
        rewrite elem_of_cons. naive_solver.
Qed.

Lemma skipped_results_lookup spokes key :
  skipped_results spokes !! key
  = if decide (key ∈ enabled_names spokes) then Some empty_stats else None.
Proof.
  unfold skipped_results, enabled_names.
  pose proof (foldl_insert_lookup
                (cfg_name <$> filter (λ cfg, enabled cfg = true) spokes) ∅ key) as H.
  by rewrite foldl_fmap, lookup_empty in H.
Qed.

Lemma enabled_names_cons cfg spokes :
  enabled_names (cfg :: spokes)
  = if enabled cfg then cfg_name cfg :: enabled_names spokes else enabled_names spokes.
Proof.
  unfold enabled_names. rewrite filter_cons.
  destruct (enabled cfg); [by rewrite decide_True|by rewrite decide_False].
Qed.

Lemma dom_skipped_results spokes :
  dom (skipped_results spokes) = list_to_set (enabled_names spokes).
Proof.
  apply set_eq. intros key. rewrite elem_of_dom, skipped_results_lookup.
  rewrite elem_of_list_to_set. case_decide; [by split|].
  split; [by intros [? ?]|done].
Qed.

End skipped.

(** ** Spoke sync without an authoritative cache *)

Section no_cache.
Context {R : Type}.
Variable create_server : string → string → ServerConfig → result (DNSServer R).

Lemma with_runs_nil (w : World R) : with_runs [] w = w.
Proof.
  destruct w as [[] ? ? ? ? ?]. unfold with_runs, set_db. simpl.
  by rewrite app_nil_r.
Qed.

Lemma with_runs_app rows1 rows2 (w : World R) :
  with_runs rows2 (with_runs rows1 w) = with_runs (rows1 ++ rows2) w.
Proof. unfold with_runs, set_db. simpl. by rewrite app_assoc. Qed.

Lemma sync_spoke_no_cache results cfg (w : World R) :
  w_db_faults w = [] →
  sync_spoke create_server None results cfg w
  = if enabled cfg
    then (Ok (<[cfg_name cfg := empty_stats]> results),
          with_runs [db.sync_run (w_now w) (cfg_name cfg) (cfg_type cfg) "spoke"
                                 empty_stats (Some no_cache_msg)] w)
    else (Ok results, w).
Proof.
  intros Hfaults. unfold sync_spoke.
  destruct (enabled cfg); [|done].
  cbn [negb]. unfold bind, db_write. by rewrite Hfaults.
Qed.

Lemma for_each_no_cache spokes : ∀ results (w : World R),
  w_db_faults w = [] →
  for_each spokes (sync_spoke create_server None) results w
  = (Ok (foldl (λ results cfg, <[cfg_name cfg := empty_stats]> results) results
               (filter (λ cfg, enabled cfg = true) spokes)),
     with_runs (skipped_rows (w_now w) spokes) w).
Proof.
  induction spokes as [|cfg spokes IH]; intros results w Hfaults.
  - cbn. by rewrite with_runs_nil.
  - cbn [for_each]. unfold bind at 1.
    rewrite sync_spoke_no_cache by done.
    unfold skipped_rows. rewrite filter_cons.
    destruct (enabled cfg) eqn:Hen.
    + rewrite decide_True by done. rewrite IH by done.
      cbn [foldl fmap list_fmap]. f_equal.
      by rewrite with_runs_app.
    + rewrite decide_False by done. by rewrite IH.
Qed.

Lemma sync_all_no_cache hub_cfg spokes (w : World R) :
  w_db_faults w = [] →
  db.get_cached_hub_records (cfg_name hub_cfg) (w_db w) = None →
  sync_all_enabled_spokes create_server hub_cfg spokes w
  = (Ok (skipped_results spokes), with_runs (skipped_rows (w_now w) spokes) w).
Proof.
  intros Hfaults Hnone. unfold sync_all_enabled_spokes, bind at 1, db_read.
  rewrite Hfaults, Hnone. by apply for_each_no_cache.
Qed.

End no_cache.

(** ** Saving and reloading the hub cache *)

Section hub_cache.
Import db.

Lemma group_rows_nonempty row rows : group_rows (row :: rows) ≠ ∅.
Proof.
  intros Hempty.
  assert (group_rows (row :: rows) !! record_type row = None) as Hnone
    by (by rewrite Hempty, lookup_empty).
  unfold group_rows in Hnone. rewrite group_rows_lookup in Hnone.
  unfold strings_of in Hnone. rewrite filter_cons_True in Hnone by done.
  done.
Qed.

Lemma reload_saved now hub_name records d :
  get_cached_hub_records hub_name (save_hub_records now hub_name records d)
  = if decide (nonempty_sets records = ∅) then None else Some (nonempty_sets records).
Proof.
  unfold get_cached_hub_records, save_hub_records. cbn [authoritative_records].
  rewrite select_where_app, select_delete_where, select_rows_of. cbn [app].
  rewrite <-(group_rows_of hub_name now records).
  destruct (rows_of hub_name now records) as [|row rows].
  - by rewrite decide_True.
  - rewrite decide_False; [done|]. apply group_rows_nonempty.
Qed.

Lemma nonempty_sets_empty records :
  (∀ rtype, get_set records rtype = ∅) → nonempty_sets records = ∅.
Proof.
  intros Hall. apply map_eq. intros rtype.
  unfold nonempty_sets. rewrite map_lookup_filter, lookup_empty.
  specialize (Hall rtype). unfold get_set in Hall.
  destruct (records !! rtype) as [record_set|]; [|done].
  cbn in *. subst. by rewrite option_guard_False by (by intros []).
Qed.

(** C10: reloading the hub cache right after [save_hub_records] gives the
    saved map without its empty type sets, and [None] when nothing is
    left; when every type set of the saved map is empty the reload gives
    [None], and a [sync_all_enabled_spokes] run on that database (with a
    working database) takes the no-cache branch for every enabled spoke:
    all-zero statistics, one error row each, nothing else changed. *)
Theorem empty_hub_cache_reads_as_missing now hub_name (records : Records) d :
  get_cached_hub_records hub_name (save_hub_records now hub_name records d)
  = (if decide (nonempty_sets records = ∅) then None else Some (nonempty_sets records))
  ∧ ((∀ rtype, get_set records rtype = ∅) →
     get_cached_hub_records hub_name (save_hub_records now hub_name records d) = None
     ∧ ∀ (R : Type) (create_server : string → string → ServerConfig → result (DNSServer R))
         (hub_cfg : ServerConfig) (spokes : list ServerConfig) (w : World R),
         cfg_name hub_cfg = hub_name →
         w_db w = save_hub_records now hub_name records d →
         w_db_faults w = [] →
         sync_all_enabled_spokes create_server hub_cfg spokes w
         = (Ok (skipped_results spokes), with_runs (skipped_rows (w_now w) spokes) w)).
Proof.
  split; [apply reload_saved|].
  intros Hall.
  assert (get_cached_hub_records hub_name (save_hub_records now hub_name records d) = None)
    as Hnone.
  { rewrite reload_saved. by rewrite decide_True by by apply nonempty_sets_empty. }
  split; [done|].
  intros R create_server hub_cfg spokes w Hname Hdb Hfaults.
  apply sync_all_no_cache; [done|]. by rewrite Hname, Hdb.
Qed.

End hub_cache.

(** ** Running the monad *)

Section runs.
Context {R : Type}.
Implicit Types w : World R.

Lemma same_store_refl w : same_store w w.
Proof. done. Qed.

Lemma same_store_trans w1 w2 w3 :
  same_store w1 w2 → same_store w2 w3 → same_store w1 w3.
Proof.
  unfold same_store. intros (-> & -> & -> & -> & ->) (-> & -> & -> & -> & ->). done.
Qed.

Lemma new_calls_app w w' l : w_calls w' = w_calls w ++ l → new_calls w w' = l.
Proof. intros Heq. unfold new_calls. by rewrite Heq, drop_app_length. Qed.

(** A run that did not raise returned something. *)
Lemma run_ok {A} (m : M R A) w :
  is_Some (returned (m w).1) → ∃ a w', m w = (Ok a, w').
Proof. destruct (m w) as [[a|e] w']; [by eexists _, _|by intros [? ?]]. Qed.

(** What a single adapter call does to the world. *)
Lemma call_run {A} (describe : A → Outcome) (srv : DNSServer R) c op w :
  call describe srv c op w
  = ((op (w_remote w)).1,
     set_remote (op (w_remote w)).2
                (log_call (mkEntry (name srv) c (outcome_of describe (op (w_remote w)).1)) w)).
Proof. unfold call. by destruct (op (w_remote w)). Qed.

Lemma call_same_store {A} (describe : A → Outcome) (srv : DNSServer R) c op w :
  same_store w (call describe srv c op w).2.
Proof. by rewrite call_run. Qed.

(** A loop whose body keeps [P] between worlds and raises only
    exceptions in [Q] does so as a whole. *)
Lemma for_each_keeps {A S} (P : World R → World R → Prop) (Q : exn → Prop)
    (body : S → A → M R S) xs :
  (∀ w, P w w) →
  (∀ w1 w2 w3, P w1 w2 → P w2 w3 → P w1 w3) →
  (∀ acc x w, P w (body acc x w).2 ∧ ∀ e, (body acc x w).1 = Raise e → Q e) →
  ∀ acc w, P w (for_each xs body acc w).2
           ∧ ∀ e, (for_each xs body acc w).1 = Raise e → Q e.
Proof.
  intros Hrefl Htrans Hbody.
  induction xs as [|x xs IH]; intros acc w; cbn [for_each].
  - split; [apply Hrefl|done].
  - unfold bind. destruct (Hbody acc x w) as [HP HQ].
    destruct (body acc x w) as [[acc'|e] w'].
    + destruct (IH acc' w') as [HP' HQ']. split; [|done].
      eapply Htrans; [exact HP|exact HP'].
    + split; [exact HP|exact HQ].
Qed.

(** A loop whose body always returns and re-establishes the invariant
    [I] returns, with the invariant on the whole list. *)
Lemma for_each_inv {A S} (I : list A → S → World R → Prop)
    (body : S → A → M R S) xs :
  (∀ seen x acc w, x ∈ xs → I seen acc w →
     ∃ acc' w', body acc x w = (Ok acc', w') ∧ I (seen ++ [x]) acc' w') →
  ∀ acc w, I [] acc w →
    ∃ acc' w', for_each xs body acc w = (Ok acc', w') ∧ I xs acc' w'.
Proof.
  intros Hbody.
  cut (∀ rest seen acc w, (∀ x, x ∈ rest → x ∈ xs) → I seen acc w →
         ∃ acc' w', for_each rest body acc w = (Ok acc', w') ∧ I (seen ++ rest) acc' w').
  { intros H acc w HI. by apply (H xs [] acc w). }
  induction rest as [|x rest IH]; intros seen acc w Hsub HI; cbn [for_each].
  - exists acc, w. by rewrite app_nil_r.
  - destruct (Hbody seen x acc w) as (acc' & w' & Hrun & HI');
      [apply Hsub; left|done|].
    unfold bind. rewrite Hrun.
    destruct (IH (seen ++ [x]) acc' w') as (acc'' & w'' & Hrun' & HI'');
      [intros y Hy; apply Hsub; by right|done|].
    exists acc'', w''. split; [done|]. by rewrite <-app_assoc in HI''.
Qed.

End runs.

(** ** The write loops *)

Section loops.
Context {R : Type}.
Implicit Types w : World R.

Lemma apply_add_turn (target : DNSServer R) rtype stats rstr w record :
  parse_record rtype rstr = Ok record →
  apply_add target rtype stats rstr w
  = write_turn target CAddRecord (add_record target) tally_apply record stats w.
Proof.
  intros Hparse.
  unfold apply_add, write_turn, bind, lift, try_except, call_add_record.
  rewrite Hparse, call_run.
  destruct (add_record target record (w_remote w)) as [[[]|e] r']; done.
Qed.

Lemma apply_remove_turn (target : DNSServer R) rtype stats rstr w record :
  parse_record rtype rstr = Ok record →
  apply_remove target rtype stats rstr w
  = write_turn target CDeleteRecord (delete_record target) tally_apply record stats w.
Proof.
  intros Hparse.
  unfold apply_remove, write_turn, bind, lift, try_except, call_delete_record.
  rewrite Hparse, call_run.
  destruct (delete_record target record (w_remote w)) as [[[]|e] r']; done.
Qed.

Lemma sync_records_add_turn (target : DNSServer R) rtype stats rstr w record :
  parse_record rtype rstr = Ok record →
  sync_records_add target rtype stats rstr w
  = write_turn target CAddRecord (add_record target) tally_sync record stats w.
Proof.
  intros Hparse.
  unfold sync_records_add, write_turn, bind, lift, try_except, call_add_record.
  rewrite Hparse, call_run.
  destruct (add_record target record (w_remote w)) as [[[]|e] r']; done.
Qed.

Lemma sync_records_remove_turn (target : DNSServer R) rtype stats rstr w record :
  parse_record rtype rstr = Ok record →
  sync_records_remove target rtype stats rstr w
  = write_turn target CDeleteRecord (delete_record target) tally_sync record stats w.
Proof.
  intros Hparse.
  unfold sync_records_remove, write_turn, bind, lift, try_except, call_delete_record.
  rewrite Hparse, call_run.
  destruct (delete_record target record (w_remote w)) as [[[]|e] r']; done.
Qed.

(** A write loop over parsable strings on an adapter that raises nothing
    fatal: it returns, it makes one call per string in order, the
    statistics are the tally of those calls, and an invariant [J] of the
    remote state, kept by each call, holds at the end. *)
Lemma write_loop (target : DNSServer R) rtype
    (body : Stats → string → M R Stats) mk_call op tally
    (J : list string → R → Prop) (Kout : Outcome → Prop) :
  (∀ stats rstr w record, parse_record rtype rstr = Ok record →
     body stats rstr w = write_turn target mk_call op tally record stats w) →
  (∀ record r, no_fatal (op record r)) →
  (∀ seen rstr record r, parse_record rtype rstr = Ok record → J seen r →
     J (seen ++ [rstr]) (op record r).2 ∧ Kout (outcome_of ReturnedBool (op record r).1)) →
  ∀ xs, (∀ rstr, rstr ∈ xs → ∃ record, parse_record rtype rstr = Ok record) →
  ∀ stats w, J [] (w_remote w) →
    ∃ stats' w' new,
      for_each xs body stats w = (Ok stats', w')
      ∧ w_calls w' = w_calls w ++ new
      ∧ stats' = foldl tally stats new
      ∧ same_store w w'
      ∧ J xs (w_remote w')
      ∧ Forall2 (entry_for target mk_call Kout rtype) xs new.
Proof.
  intros Hturn Hnf HJ xs Hvalid stats w HJ0.
  destruct (for_each_inv
    (λ seen stats' w', ∃ new,
       w_calls w' = w_calls w ++ new ∧ stats' = foldl tally stats new
       ∧ same_store w w' ∧ J seen (w_remote w')
       ∧ Forall2 (entry_for target mk_call Kout rtype) seen new)
    body xs) with (acc := stats) (w := w) as (stats' & w' & Hrun & new & Hinv).
  - intros seen rstr acc w1 Hin (new & Hcalls & -> & Hsame & HJ1 & Hall).
    destruct (Hvalid rstr Hin) as [record Hparse].
    rewrite (Hturn _ _ _ _ Hparse). unfold write_turn.
    destruct (HJ seen rstr record (w_remote w1) Hparse HJ1) as [HJ2 HK].
    pose proof (Hnf record (w_remote w1)) as Hnf'. unfold no_fatal in Hnf'.
    set (entry := mkEntry (name target) (mk_call record)
                          (outcome_of ReturnedBool (op record (w_remote w1)).1)) in *.
    assert (∃ w2, (match (op record (w_remote w1)).1 with
                   | Raise e => if is_Exception e
                                then (Ok (tally (foldl tally stats new) entry),
                                      set_remote (op record (w_remote w1)).2 (log_call entry w1))
                                else (Raise e, set_remote (op record (w_remote w1)).2
                                                          (log_call entry w1))
                   | Ok _ => (Ok (tally (foldl tally stats new) entry),
                              set_remote (op record (w_remote w1)).2 (log_call entry w1))
                   end) = (Ok (tally (foldl tally stats new) entry), w2)
                  ∧ w2 = set_remote (op record (w_remote w1)).2 (log_call entry w1))
      as (w2 & -> & ->).
    { destruct (op record (w_remote w1)).1 as [b|e] eqn:Hout; [by eexists|].
      rewrite (Hnf' e) by done. by eexists. }
    eexists _, _. split; [done|]. exists (new ++ [entry]).
    split_and!.
    + cbn. rewrite Hcalls. by rewrite app_assoc.
    + by rewrite foldl_app.
    + eapply same_store_trans; [exact Hsame|done].
    + exact HJ2.
    + apply Forall2_app; [done|]. constructor; [|constructor].
      by exists record.
  - exists []. split_and!; try done. by rewrite app_nil_r.
  - by exists stats', w', new.
Qed.

(** The four write loops of a diff in sequence.  [J rtype false] is the
    invariant of the addition loop of [rtype], [J rtype true] that of its
    removal loop. *)
Lemma diff_loops_run (target : DNSServer R) add_body remove_body tally
    (S T : Records) (J : string → bool → list string → R → Prop) (Kout : Outcome → Prop) :
  (∀ rtype stats rstr w record, parse_record rtype rstr = Ok record →
     add_body rtype stats rstr w
     = write_turn target CAddRecord (add_record target) tally record stats w) →
  (∀ rtype stats rstr w record, parse_record rtype rstr = Ok record →
     remove_body rtype stats rstr w
     = write_turn target CDeleteRecord (delete_record target) tally record stats w) →
  (∀ record r, no_fatal (add_record target record r)) →
  (∀ record r, no_fatal (delete_record target record r)) →
  valid_records S → valid_records T →
  (∀ rtype, rtype ∈ ["A"; "CNAME"] → ∀ seen rstr record r,
     parse_record rtype rstr = Ok record → J rtype false seen r →
     J rtype false (seen ++ [rstr]) (add_record target record r).2
     ∧ Kout (outcome_of ReturnedBool (add_record target record r).1)) →
  (∀ rtype, rtype ∈ ["A"; "CNAME"] → ∀ seen rstr record r,
     parse_record rtype rstr = Ok record → J rtype true seen r →
     J rtype true (seen ++ [rstr]) (delete_record target record r).2
     ∧ Kout (outcome_of ReturnedBool (delete_record target record r).1)) →
  (∀ rtype, rtype ∈ ["A"; "CNAME"] → ∀ r,
     J rtype false (queued_add S T rtype) r → J rtype true [] r) →
  (∀ r, J "A" true (queued_remove S T "A") r → J "CNAME" false [] r) →
  ∀ stats w, J "A" false [] (w_remote w) →
    ∃ stats' w' adds_a dels_a adds_c dels_c,
      diff_loops add_body remove_body S T stats w = (Ok stats', w')
      ∧ w_calls w' = w_calls w ++ adds_a ++ dels_a ++ adds_c ++ dels_c
      ∧ stats' = foldl tally stats (adds_a ++ dels_a ++ adds_c ++ dels_c)
      ∧ same_store w w'
      ∧ J "CNAME" true (queued_remove S T "CNAME") (w_remote w')
      ∧ Forall2 (entry_for target CAddRecord Kout "A") (queued_add S T "A") adds_a
      ∧ Forall2 (entry_for target CDeleteRecord Kout "A") (queued_remove S T "A") dels_a
      ∧ Forall2 (entry_for target CAddRecord Kout "CNAME") (queued_add S T "CNAME") adds_c
      ∧ Forall2 (entry_for target CDeleteRecord Kout "CNAME")
                (queued_remove S T "CNAME") dels_c.
Proof.
  intros Hadd Hdel Hnfa Hnfd HS HT HJa HJd Hlink1 Hlink2 stats w HJ0.
  assert (∀ rtype, rtype ∈ ["A"; "CNAME"] →
            (∀ rstr, rstr ∈ queued_add S T rtype →
               ∃ record, parse_record rtype rstr = Ok record)
            ∧ (∀ rstr, rstr ∈ queued_remove S T rtype →
               ∃ record, parse_record rtype rstr = Ok record)) as Hvalid.
  { intros rtype Hty. unfold queued_add, queued_remove, to_add, to_remove. split.
    - intros rstr Hin. apply (HS rtype Hty). set_solver.
    - intros rstr Hin. apply (HT rtype Hty). set_solver. }
  assert ("A" ∈ ["A"; "CNAME"]) as Hin_a by set_solver.
  assert ("CNAME" ∈ ["A"; "CNAME"]) as Hin_c by set_solver.
  destruct (Hvalid "A" Hin_a) as [Hva Hvr].
  destruct (Hvalid "CNAME" Hin_c) as [Hvca Hvcr].
  destruct (write_loop target "A" (add_body "A") CAddRecord (add_record target) tally
              (J "A" false) Kout (Hadd "A") Hnfa (HJa "A" Hin_a) _ Hva stats w HJ0)
    as (st1 & w1 & adds_a & Hrun1 & Hc1 & -> & Hs1 & HJ1 & Hl1).
  destruct (write_loop target "A" (remove_body "A") CDeleteRecord (delete_record target) tally
              (J "A" true) Kout (Hdel "A") Hnfd (HJd "A" Hin_a) _ Hvr
              (foldl tally stats adds_a) w1 (Hlink1 _ Hin_a _ HJ1))
    as (st2 & w2 & dels_a & Hrun2 & Hc2 & -> & Hs2 & HJ2 & Hl2).
  destruct (write_loop target "CNAME" (add_body "CNAME") CAddRecord (add_record target) tally
              (J "CNAME" false) Kout (Hadd "CNAME") Hnfa (HJa "CNAME" Hin_c) _ Hvca
              (foldl tally (foldl tally stats adds_a) dels_a) w2 (Hlink2 _ HJ2))
    as (st3 & w3 & adds_c & Hrun3 & Hc3 & -> & Hs3 & HJ3 & Hl3).
  destruct (write_loop target "CNAME" (remove_body "CNAME") CDeleteRecord
              (delete_record target) tally
              (J "CNAME" true) Kout (Hdel "CNAME") Hnfd (HJd "CNAME" Hin_c) _ Hvcr
              (foldl tally (foldl tally (foldl tally stats adds_a) dels_a) adds_c)
              w3 (Hlink1 _ Hin_c _ HJ3))
    as (st4 & w4 & dels_c & Hrun4 & Hc4 & -> & Hs4 & HJ4 & Hl4).
  exists (foldl tally (foldl tally (foldl tally (foldl tally stats adds_a) dels_a) adds_c) dels_c),
    w4, adds_a, dels_a, adds_c, dels_c.
  split_and!; try done.
  - unfold diff_loops. cbn [for_each]. unfold bind.
    fold (queued_add S T "A") (queued_remove S T "A")
         (queued_add S T "CNAME") (queued_remove S T "CNAME").
    by rewrite Hrun1, Hrun2, Hrun3, Hrun4.
  - rewrite Hc4, Hc3, Hc2, Hc1. by rewrite <-!app_assoc.
  - by rewrite !foldl_app.
  - eauto using same_store_trans.
Qed.

End loops.

(** ** Statistics as counts over the call log *)

Section tally.

Lemma get_stat_insert_eq (stats : Stats) key n : get_stat (<[key := n]> stats) key = n.
Proof. unfold get_stat. by rewrite lookup_insert_eq. Qed.

Lemma get_stat_insert_ne (stats : Stats) key key' n :
  key ≠ key' → get_stat (<[key := n]> stats) key' = get_stat stats key'.
Proof. intros. unfold get_stat. by rewrite lookup_insert_ne. Qed.

Lemma get_stat_incr_eq stats key : get_stat (incr key stats) key = get_stat stats key + 1.
Proof. apply get_stat_insert_eq. Qed.

Lemma get_stat_incr_ne stats key key' :
  key ≠ key' → get_stat (incr key stats) key' = get_stat stats key'.
Proof. apply get_stat_insert_ne. Qed.

Lemma count_nil p : count p [] = 0.
Proof. done. Qed.

Lemma count_cons p c log : count p (c :: log) = (if p c then 1 else 0) + count p log.
Proof.
  unfold count. rewrite filter_cons.
  destruct (p c); [by rewrite decide_True|by rewrite decide_False].
Qed.

Lemma count_app p log1 log2 : count p (log1 ++ log2) = count p log1 + count p log2.
Proof. unfold count. by rewrite filter_app, length_app. Qed.

Lemma count_const p (b : bool) log :
  Forall (λ c, p c = b) log → count p log = if b then length log else 0.
Proof.
  induction 1 as [|c log Hc _ IH]; [by destruct b|].
  rewrite count_cons, Hc, IH. by destruct b.
Qed.

Local Ltac stat_simpl :=
  repeat first
    [ rewrite get_stat_incr_eq
    | rewrite get_stat_incr_ne by done ].

Lemma tally_apply_counts log : ∀ stats,
  get_stat (foldl tally_apply stats log) "added"
    = get_stat stats "added" + count add_true log
  ∧ get_stat (foldl tally_apply stats log) "removed"
    = get_stat stats "removed" + count delete_true log
  ∧ get_stat (foldl tally_apply stats log) "conflicts"
    = get_stat stats "conflicts" + count add_false log + count write_raised log.
Proof.
  induction log as [|c log IH]; intros stats; cbn [foldl].
  - rewrite !count_nil. lia.
  - destruct (IH (tally_apply stats c)) as (-> & -> & ->).
    rewrite !count_cons.
    destruct c as [srv [| |record|record|] [|[]|e]];
      cbn; stat_simpl; lia.
Qed.

Lemma tally_sync_counts log : ∀ stats,
  get_stat (foldl tally_sync stats log) "added"
    = get_stat stats "added" + count add_true log
  ∧ get_stat (foldl tally_sync stats log) "removed"
    = get_stat stats "removed" + count delete_true log
  ∧ get_stat (foldl tally_sync stats log) "conflicts"
    = get_stat stats "conflicts" + count write_raised log.
Proof.
  induction log as [|c log IH]; intros stats; cbn [foldl].
  - rewrite !count_nil. lia.
  - destruct (IH (tally_sync stats c)) as (-> & -> & ->).
    rewrite !count_cons.
    destruct c as [srv [| |record|record|] [|[]|e]];
      cbn; stat_simpl; lia.
Qed.

Lemma count_entries {R} p (b : bool) (target : DNSServer R) mk_call Kout rtype xs new :
  Forall2 (entry_for target mk_call Kout rtype) xs new →
  (∀ c record, ce_call c = mk_call record → Kout (ce_outcome c) → p c = b) →
  count p new = if b then length xs else 0.
Proof.
  intros Hall Hp. rewrite (Forall2_length _ _ _ Hall).
  apply count_const. apply Forall_forall. intros c Hc.
  apply list_elem_of_lookup in Hc as [i Hi].
  destruct (Forall2_lookup_r _ _ _ _ _ Hall Hi) as (rstr & _ & record & _ & Hcall & _ & HK).
  by apply (Hp c record).
Qed.

End tally.

(** ** What the statistics of a diff count *)

Section counting.
Context {R : Type}.
Implicit Types w : World R.

Lemma size_elements (X : gset string) : length (elements X) = size X.
Proof. done. Qed.

(** The log of a diff, split by loop, counted. *)
Lemma diff_log_counts (target : DNSServer R) (S T : Records) first
    adds_a dels_a adds_c dels_c :
  is_mutation (ce_call first) = false →
  Forall2 (entry_for target CAddRecord (λ _, True) "A") (queued_add S T "A") adds_a →
  Forall2 (entry_for target CDeleteRecord (λ _, True) "A") (queued_remove S T "A") dels_a →
  Forall2 (entry_for target CAddRecord (λ _, True) "CNAME") (queued_add S T "CNAME") adds_c →
  Forall2 (entry_for target CDeleteRecord (λ _, True) "CNAME")
          (queued_remove S T "CNAME") dels_c →
  let log := first :: adds_a ++ dels_a ++ adds_c ++ dels_c in
  count is_add_call log
    = size (to_add (get_set S "A") (get_set T "A"))
      + size (to_add (get_set S "CNAME") (get_set T "CNAME"))
  ∧ count is_delete_call log
    = size (to_remove (get_set S "A") (get_set T "A"))
      + size (to_remove (get_set S "CNAME") (get_set T "CNAME")).
Proof.
  intros Hfirst Ha Hd Hca Hcd log. subst log.
  rewrite !count_cons, !count_app.
  rewrite (count_entries is_add_call true _ _ _ _ _ _ Ha)
    by (intros c record Hc _; unfold is_add_call; by rewrite Hc).
  rewrite (count_entries is_add_call false _ _ _ _ _ _ Hd)
    by (intros c record Hc _; unfold is_add_call; by rewrite Hc).
  rewrite (count_entries is_add_call true _ _ _ _ _ _ Hca)
    by (intros c record Hc _; unfold is_add_call; by rewrite Hc).
  rewrite (count_entries is_add_call false _ _ _ _ _ _ Hcd)
    by (intros c record Hc _; unfold is_add_call; by rewrite Hc).
  rewrite (count_entries is_delete_call false _ _ _ _ _ _ Ha)
    by (intros c record Hc _; unfold is_delete_call; by rewrite Hc).
  rewrite (count_entries is_delete_call true _ _ _ _ _ _ Hd)
    by (intros c record Hc _; unfold is_delete_call; by rewrite Hc).
  rewrite (count_entries is_delete_call false _ _ _ _ _ _ Hca)
    by (intros c record Hc _; unfold is_delete_call; by rewrite Hc).
  rewrite (count_entries is_delete_call true _ _ _ _ _ _ Hcd)
    by (intros c record Hc _; unfold is_delete_call; by rewrite Hc).
  unfold is_add_call, is_delete_call, queued_add, queued_remove.
  rewrite !size_elements.
  destruct (ce_call first); try done; cbn; lia.
Qed.

Lemma first_not_counted p first log :
  is_mutation (ce_call first) = false →
  (∀ c, p c = true → is_mutation (ce_call c) = true) →
  count p (first :: log) = count p log.
Proof.
  intros Hfirst Hp. rewrite count_cons.
  destruct (p first) eqn:E; [|done]. apply Hp in E. congruence.
Qed.

Local Ltac skip_first :=
  rewrite first_not_counted;
  [ | done
    | intros [? [] ?]; unfold add_true, add_false, delete_true, write_raised; by cbn ].

(** The statistics of [_apply_diff] over its call log. *)
Lemma apply_diff_tallied (target : DNSServer R) (S T : Records) w r1 :
  nonfatal target → valid_records S → valid_records T →
  get_records target (w_remote w) = (Ok T, r1) →
  ∃ stats w',
    _apply_diff S target w = (Ok stats, w')
    ∧ count is_add_call (new_calls w w')
      = size (to_add (get_set S "A") (get_set T "A"))
        + size (to_add (get_set S "CNAME") (get_set T "CNAME"))
    ∧ count is_delete_call (new_calls w w')
      = size (to_remove (get_set S "A") (get_set T "A"))
        + size (to_remove (get_set S "CNAME") (get_set T "CNAME"))
    ∧ get_stat stats "added" = count add_true (new_calls w w')
    ∧ get_stat stats "removed" = count delete_true (new_calls w w')
    ∧ get_stat stats "conflicts"
      = count add_false (new_calls w w') + count write_raised (new_calls w w').
Proof.
  intros [_ _ Hnfa Hnfd] HS HT Hget.
  set (w1 := set_remote r1 (log_call (mkEntry (name target) CGetRecords Returned) w)).
  destruct (diff_loops_run target (apply_add target) (apply_remove target) tally_apply S T
              (λ _ _ _ _, True) (λ _, True)) with (stats := empty_stats) (w := w1)
    as (stats & w' & adds_a & dels_a & adds_c & dels_c
        & Hrun & Hcalls & -> & Hsame & _ & Ha & Hd & Hca & Hcd); try done.
  { intros. by apply apply_add_turn. }
  { intros. by apply apply_remove_turn. }
  eexists _, w'. split.
  { unfold _apply_diff, bind at 1, call_get_records. rewrite call_run, Hget.
    cbn [fst snd outcome_of]. fold w1.
    change (for_each _ _ empty_stats) with
      (diff_loops (apply_add target) (apply_remove target) S T empty_stats).
    unfold bind at 1. by rewrite Hrun. }
  rewrite (new_calls_app w w'
             (mkEntry (name target) CGetRecords Returned
                :: adds_a ++ dels_a ++ adds_c ++ dels_c))
    by (rewrite Hcalls; cbn; by rewrite <-app_assoc).
  destruct (diff_log_counts target S T (mkEntry (name target) CGetRecords Returned)
              adds_a dels_a adds_c dels_c) as [-> ->]; try done.
  destruct (tally_apply_counts (adds_a ++ dels_a ++ adds_c ++ dels_c) empty_stats)
    as (Hadded & Hremoved & Hconflicts).
  repeat skip_first.
  rewrite !get_stat_insert_ne by done.
  rewrite Hadded, Hremoved, Hconflicts. by cbn.
Qed.

(** The statistics of the non-dry-run [sync_records] over its call
    log. *)
Lemma sync_records_tallied (self target : DNSServer R) (S T : Records) w r0 r1 :
  nonfatal target → valid_records S → valid_records T →
  get_records self (w_remote w) = (Ok S, r0) →
  get_records target r0 = (Ok T, r1) →
  ∃ stats w',
    sync_records self target false w = (Ok stats, w')
    ∧ count is_add_call (new_calls w w')
      = size (to_add (get_set S "A") (get_set T "A"))
        + size (to_add (get_set S "CNAME") (get_set T "CNAME"))
    ∧ count is_delete_call (new_calls w w')
      = size (to_remove (get_set S "A") (get_set T "A"))
        + size (to_remove (get_set S "CNAME") (get_set T "CNAME"))
    ∧ get_stat stats "added" = count add_true (new_calls w w')
    ∧ get_stat stats "removed" = count delete_true (new_calls w w')
    ∧ get_stat stats "conflicts" = count write_raised (new_calls w w').
Proof.
  intros [_ _ Hnfa Hnfd] HS HT Hself Hget.
  set (w0 := set_remote r0 (log_call (mkEntry (name self) CGetRecords Returned) w)).
  set (w1 := set_remote r1 (log_call (mkEntry (name target) CGetRecords Returned) w0)).
  destruct (diff_loops_run target (sync_records_add target) (sync_records_remove target)
              tally_sync S T
              (λ _ _ _ _, True) (λ _, True))
    with (stats := ({[ "added" := 0; "removed" := 0; "conflicts" := 0 ]} : Stats))
         (w := w1)
    as (stats & w' & adds_a & dels_a & adds_c & dels_c
        & Hrun & Hcalls & -> & Hsame & _ & Ha & Hd & Hca & Hcd); try done.
  { intros. by apply sync_records_add_turn. }
  { intros. by apply sync_records_remove_turn. }
  eexists _, w'. split.
  { unfold sync_records, bind at 1, call_get_records. rewrite call_run, Hself.
    cbn [fst snd outcome_of]. fold w0.
    unfold bind at 1. rewrite call_run. cbn [w_remote w0 set_remote].
    rewrite Hget. cbn [fst snd outcome_of]. fold w1.
    exact Hrun. }
  rewrite (new_calls_app w w'
             (mkEntry (name self) CGetRecords Returned
                :: mkEntry (name target) CGetRecords Returned
                :: adds_a ++ dels_a ++ adds_c ++ dels_c))
    by (rewrite Hcalls; cbn; by rewrite <-!app_assoc).
  rewrite (count_cons is_add_call), (count_cons is_delete_call).
  cbn [is_add_call is_delete_call ce_call is_add is_delete].
  destruct (diff_log_counts target S T (mkEntry (name target) CGetRecords Returned)
              adds_a dels_a adds_c dels_c) as [-> ->]; try done.
  destruct (tally_sync_counts (adds_a ++ dels_a ++ adds_c ++ dels_c)
              ({[ "added" := 0; "removed" := 0; "conflicts" := 0 ]} : Stats))
    as (Hadded & Hremoved & Hconflicts).
  repeat skip_first.
  rewrite Hadded, Hremoved, Hconflicts. by cbn.
Qed.

(** What the two diff paths count, call by call.  In a non-dry-run diff
    on an adapter that raises nothing fatal, over parsable record
    strings, every queued addition and every queued removal is attempted
    whatever the earlier calls returned or raised; [added] is the number
    of [add_record] calls that returned true and [removed] the number of
    [delete_record] calls that returned true.  The two paths part on
    [conflicts]: [_apply_diff] counts the [add_record] calls that returned
    false and the calls that raised, [sync_records] only the calls that
    raised. *)
Theorem statistics_count_call_outcomes (target : DNSServer R) (S T : Records) :
  nonfatal target → valid_records S → valid_records T →
  (∀ w r1, get_records target (w_remote w) = (Ok T, r1) →
     ∃ stats w',
       _apply_diff S target w = (Ok stats, w')
       ∧ count is_add_call (new_calls w w')
         = size (to_add (get_set S "A") (get_set T "A"))
           + size (to_add (get_set S "CNAME") (get_set T "CNAME"))
       ∧ count is_delete_call (new_calls w w')
         = size (to_remove (get_set S "A") (get_set T "A"))
           + size (to_remove (get_set S "CNAME") (get_set T "CNAME"))
       ∧ get_stat stats "added" = count add_true (new_calls w w')
       ∧ get_stat stats "removed" = count delete_true (new_calls w w')
       ∧ get_stat stats "conflicts"
         = count add_false (new_calls w w') + count write_raised (new_calls w w'))
  ∧ (∀ (self : DNSServer R) w r0 r1,
       get_records self (w_remote w) = (Ok S, r0) →
       get_records target r0 = (Ok T, r1) →
       ∃ stats w',
         sync_records self target false w = (Ok stats, w')
         ∧ count is_add_call (new_calls w w')
           = size (to_add (get_set S "A") (get_set T "A"))
             + size (to_add (get_set S "CNAME") (get_set T "CNAME"))
         ∧ count is_delete_call (new_calls w w')
           = size (to_remove (get_set S "A") (get_set T "A"))
             + size (to_remove (get_set S "CNAME") (get_set T "CNAME"))
         ∧ get_stat stats "added" = count add_true (new_calls w w')
         ∧ get_stat stats "removed" = count delete_true (new_calls w w')
         ∧ get_stat stats "conflicts" = count write_raised (new_calls w w')).
Proof.
  intros Hnf HS HT. split.
  - intros w r1 Hget. by apply (apply_diff_tallied target S T w r1).
  - intros self w r0 r1 Hself Hget.
    by apply (sync_records_tallied self target S T w r0 r1).
Qed.

End counting.

(** ** A diff on a well-behaved adapter converges *)

Section convergence.
Context {R : Type}.
Implicit Types w : World R.

Lemma parse_record_ok rtype rstr record :
  rtype ∈ ["A"; "CNAME"] →
  parse_record rtype rstr = Ok record →
  DNSRecord.type record = rtype ∧ canonical record = rstr.
Proof.
  intros Hty. unfold parse_record. case_bool_decide as Ha.
  - subst rtype. intros Hparse.
    pose proof (from_a_string_format _ _ Hparse) as Hfmt.
    unfold DNSRecord.from_a_string in Hparse.
    destruct (DNSRecord.unpack2 _) as [[ip dom]|e]; [|done].
    injection Hparse as <-. by split.
  - assert (rtype = "CNAME") as -> by set_solver. intros Hparse.
    pose proof (from_cname_string_format _ _ Hparse) as Hfmt.
    unfold DNSRecord.from_cname_string in Hparse.
    destruct (DNSRecord.unpack2 _) as [[dom target]|e]; [|done].
    injection Hparse as <-. by split.
Qed.

Lemma well_behaved_nonfatal (target : DNSServer R) view :
  (∀ r, no_fatal (connect target r)) →
  well_behaved target view → nonfatal target.
Proof.
  intros Hconnect [Hget Hadd Hdel]. split; [done|..].
  - intros r e. by rewrite Hget.
  - intros record r e. destruct (Hadd record r) as (r' & -> & _). done.
  - intros record r e. destruct (Hdel record r) as (r' & -> & _). done.
Qed.

Lemma converging_run (target : DNSServer R) view add_body remove_body tally (S T : Records) :
  (∀ rtype stats rstr w record, parse_record rtype rstr = Ok record →
     add_body rtype stats rstr w
     = write_turn target CAddRecord (add_record target) tally record stats w) →
  (∀ rtype stats rstr w record, parse_record rtype rstr = Ok record →
     remove_body rtype stats rstr w
     = write_turn target CDeleteRecord (delete_record target) tally record stats w) →
  well_behaved target view →
  valid_records S → valid_records T →
  ∀ stats w, view (w_remote w) = T →
    ∃ stats' w' adds_a dels_a adds_c dels_c,
      diff_loops add_body remove_body S T stats w = (Ok stats', w')
      ∧ w_calls w' = w_calls w ++ adds_a ++ dels_a ++ adds_c ++ dels_c
      ∧ stats' = foldl tally stats (adds_a ++ dels_a ++ adds_c ++ dels_c)
      ∧ same_store w w'
      ∧ get_set (view (w_remote w')) "A" = get_set S "A"
      ∧ get_set (view (w_remote w')) "CNAME" = get_set S "CNAME"
      ∧ Forall2 (entry_for target CAddRecord (λ o, o = ReturnedBool true) "A")
                (queued_add S T "A") adds_a
      ∧ Forall2 (entry_for target CDeleteRecord (λ o, o = ReturnedBool true) "A")
                (queued_remove S T "A") dels_a
      ∧ Forall2 (entry_for target CAddRecord (λ o, o = ReturnedBool true) "CNAME")
                (queued_add S T "CNAME") adds_c
      ∧ Forall2 (entry_for target CDeleteRecord (λ o, o = ReturnedBool true) "CNAME")
                (queued_remove S T "CNAME") dels_c.
Proof.
  intros Hadd Hdel Hwb HS HT stats w Hview.
  destruct Hwb as [Hget Hwadd Hwdel].
  destruct (diff_loops_run target add_body remove_body tally S T
              (converging view S T) (λ o, o = ReturnedBool true))
    with (stats := stats) (w := w)
    as (stats' & w' & adds_a & dels_a & adds_c & dels_c
        & Hrun & Hcalls & Hstats & Hsame & (HC & _ & HA) & Ha & Hd & Hca & Hcd);
    try done.
  - intros record r e. by destruct (Hwadd record r) as (r' & -> & _).
  - intros record r e. by destruct (Hwdel record r) as (r' & -> & _).
  - intros rtype Hty seen rstr record r Hparse (Hkey & Hc & Ha).
    destruct (parse_record_ok _ _ _ Hty Hparse) as [Htype Hcanon].
    destruct (Hwadd record r) as (r' & Heq & Hview'). rewrite Heq. cbn.
    split; [|done]. unfold converging, view_add in *. rewrite Hview', Htype, Hcanon.
    rewrite get_set_insert_eq, Hkey. split_and!.
    + rewrite list_to_set_app_L. set_solver.
    + intros ->. rewrite get_set_insert_ne by done. by apply Hc.
    + intros ->. rewrite get_set_insert_ne by done. by apply Ha.
  - intros rtype Hty seen rstr record r Hparse (Hkey & Hc & Ha).
    destruct (parse_record_ok _ _ _ Hty Hparse) as [Htype Hcanon].
    destruct (Hwdel record r) as (r' & Heq & Hview'). rewrite Heq. cbn.
    split; [|done]. unfold converging, view_delete in *. rewrite Hview', Htype, Hcanon.
    rewrite get_set_insert_eq, Hkey. split_and!.
    + rewrite list_to_set_app_L. set_solver.
    + intros ->. rewrite get_set_insert_ne by done. by apply Hc.
    + intros ->. rewrite get_set_insert_ne by done. by apply Ha.
  - intros rtype Hty r (Hkey & Hc & Ha). unfold converging, queued_add in *.
    rewrite list_to_set_elements_L in Hkey. split_and!; [|done|done].
    rewrite Hkey. set_solver.
  - intros r (Hkey & Hc & _). unfold converging, queued_remove in *.
    rewrite list_to_set_elements_L in Hkey. split_and!; [|done|].
    + rewrite Hc by done. set_solver.
    + intros _. rewrite Hkey. unfold to_add, to_remove.
      apply set_eq. intros x. rewrite !elem_of_difference, !elem_of_union,
        !elem_of_difference.
      destruct (decide (x ∈ get_set S "A")), (decide (x ∈ get_set T "A")); naive_solver.
  - unfold converging. rewrite Hview. split_and!; [set_solver|done|done].
  - exists stats', w', adds_a, dels_a, adds_c, dels_c. split_and!; try done.
    + by apply HA.
    + unfold queued_remove in HC. rewrite list_to_set_elements_L in HC.
      rewrite HC. unfold to_add, to_remove.
      apply set_eq. intros x. rewrite !elem_of_difference, !elem_of_union,
        !elem_of_difference.
      destruct (decide (x ∈ get_set S "CNAME")), (decide (x ∈ get_set T "CNAME"));
        naive_solver.
Qed.

Local Ltac count_segment H :=
  repeat first
    [ rewrite (count_entries _ true _ _ _ _ _ _ H)
        by (intros c record Hc Ho;
            unfold add_true, add_false, delete_true, write_raised,
                   returned_true, returned_false, raised;
            by rewrite Hc, Ho)
    | rewrite (count_entries _ false _ _ _ _ _ _ H)
        by (intros c record Hc Ho;
            unfold add_true, add_false, delete_true, write_raised,
                   returned_true, returned_false, raised;
            by rewrite Hc, Ho) ].

(** The log of a diff in which every call returned true, counted. *)
Lemma all_true_counts (target : DNSServer R) (S T : Records) adds_a dels_a adds_c dels_c :
  Forall2 (entry_for target CAddRecord (λ o, o = ReturnedBool true) "A")
          (queued_add S T "A") adds_a →
  Forall2 (entry_for target CDeleteRecord (λ o, o = ReturnedBool true) "A")
          (queued_remove S T "A") dels_a →
  Forall2 (entry_for target CAddRecord (λ o, o = ReturnedBool true) "CNAME")
          (queued_add S T "CNAME") adds_c →
  Forall2 (entry_for target CDeleteRecord (λ o, o = ReturnedBool true) "CNAME")
          (queued_remove S T "CNAME") dels_c →
  let log := adds_a ++ dels_a ++ adds_c ++ dels_c in
  count add_true log
    = size (to_add (get_set S "A") (get_set T "A"))
      + size (to_add (get_set S "CNAME") (get_set T "CNAME"))
  ∧ count delete_true log
    = size (to_remove (get_set S "A") (get_set T "A"))
      + size (to_remove (get_set S "CNAME") (get_set T "CNAME"))
  ∧ count add_false log = 0
  ∧ count write_raised log = 0.
Proof.
  intros Ha Hd Hca Hcd log. subst log. rewrite !count_app.
  count_segment Ha. count_segment Hd. count_segment Hca. count_segment Hcd.
  unfold queued_add, queued_remove. rewrite !size_elements. lia.
Qed.

(** C1: for each record type the diff is [to_add = source - target] and
    [to_remove = target - source]; the two are disjoint and applying them
    to the target set gives the source set.  On an adapter on which every
    [add_record] and [delete_record] succeeds, over parsable record
    strings, [_apply_diff] and the non-dry-run [sync_records] return, the
    adapter's A and CNAME sets are the source's afterwards, and the
    statistics report [added] as the number of queued additions,
    [removed] as the number of queued removals and no conflict. *)
Theorem diff_reaches_source (target : DNSServer R) (view : R → Records) (S : Records) w :
  well_behaved target view →
  valid_records S → valid_records (view (w_remote w)) →
  let T := view (w_remote w) in
  (∀ rtype,
     to_add (get_set S rtype) (get_set T rtype) = get_set S rtype ∖ get_set T rtype
     ∧ to_remove (get_set S rtype) (get_set T rtype) = get_set T rtype ∖ get_set S rtype
     ∧ to_add (get_set S rtype) (get_set T rtype)
         ## to_remove (get_set S rtype) (get_set T rtype)
     ∧ (get_set T rtype ∪ to_add (get_set S rtype) (get_set T rtype))
         ∖ to_remove (get_set S rtype) (get_set T rtype) = get_set S rtype)
  ∧ (∃ stats w',
       _apply_diff S target w = (Ok stats, w')
       ∧ get_set (view (w_remote w')) "A" = get_set S "A"
       ∧ get_set (view (w_remote w')) "CNAME" = get_set S "CNAME"
       ∧ get_stat stats "added"
         = size (to_add (get_set S "A") (get_set T "A"))
           + size (to_add (get_set S "CNAME") (get_set T "CNAME"))
       ∧ get_stat stats "removed"
         = size (to_remove (get_set S "A") (get_set T "A"))
           + size (to_remove (get_set S "CNAME") (get_set T "CNAME"))
       ∧ get_stat stats "conflicts" = 0)
  ∧ (∀ self : DNSServer R,
       get_records self (w_remote w) = (Ok S, w_remote w) →
       ∃ stats w',
         sync_records self target false w = (Ok stats, w')
         ∧ get_set (view (w_remote w')) "A" = get_set S "A"
         ∧ get_set (view (w_remote w')) "CNAME" = get_set S "CNAME"
         ∧ get_stat stats "added"
           = size (to_add (get_set S "A") (get_set T "A"))
             + size (to_add (get_set S "CNAME") (get_set T "CNAME"))
         ∧ get_stat stats "removed"
           = size (to_remove (get_set S "A") (get_set T "A"))
             + size (to_remove (get_set S "CNAME") (get_set T "CNAME"))
         ∧ get_stat stats "conflicts" = 0).
Proof.
  intros Hwb HS HT T. split_and!.
  - intros rtype. unfold to_add, to_remove. split_and!; [done|done|set_solver|].
    apply set_eq. intros x. rewrite !elem_of_difference, !elem_of_union,
      !elem_of_difference.
    destruct (decide (x ∈ get_set S rtype)), (decide (x ∈ get_set T rtype));
      naive_solver.
  - pose proof (wb_get _ _ Hwb (w_remote w)) as Hget.
    set (w1 := set_remote (w_remote w)
                 (log_call (mkEntry (name target) CGetRecords Returned) w)).
    destruct (converging_run target view (apply_add target) (apply_remove target)
                tally_apply S T) with (stats := empty_stats) (w := w1)
      as (stats & w' & adds_a & dels_a & adds_c & dels_c
          & Hrun & Hcalls & -> & Hsame & HA & HC & Ha & Hd & Hca & Hcd); try done.
    { intros. by apply apply_add_turn. }
    { intros. by apply apply_remove_turn. }
    eexists _, w'. split.
    { unfold _apply_diff, bind at 1, call_get_records. rewrite call_run, Hget.
      cbn [fst snd outcome_of]. fold w1.
      change (for_each _ _ empty_stats) with
        (diff_loops (apply_add target) (apply_remove target) S T empty_stats).
      unfold bind at 1. by rewrite Hrun. }
    destruct (all_true_counts target S T adds_a dels_a adds_c dels_c)
      as (Hc1 & Hc2 & Hc3 & Hc4); try done.
    destruct (tally_apply_counts (adds_a ++ dels_a ++ adds_c ++ dels_c) empty_stats)
      as (Hadded & Hremoved & Hconflicts).
    rewrite !get_stat_insert_ne by done.
    rewrite Hadded, Hremoved, Hconflicts, Hc1, Hc2, Hc3, Hc4. by cbn.
  - intros self Hself.
    pose proof (wb_get _ _ Hwb (w_remote w)) as Hget.
    set (w0 := set_remote (w_remote w)
                 (log_call (mkEntry (name self) CGetRecords Returned) w)).
    set (w1 := set_remote (w_remote w)
                 (log_call (mkEntry (name target) CGetRecords Returned) w0)).
    destruct (converging_run target view (sync_records_add target)
                (sync_records_remove target) tally_sync S T)
      with (stats := ({[ "added" := 0; "removed" := 0; "conflicts" := 0 ]} : Stats))
           (w := w1)
      as (stats & w' & adds_a & dels_a & adds_c & dels_c
          & Hrun & Hcalls & -> & Hsame & HA & HC & Ha & Hd & Hca & Hcd); try done.
    { intros. by apply sync_records_add_turn. }
    { intros. by apply sync_records_remove_turn. }
    eexists _, w'. split.
    { unfold sync_records, bind at 1, call_get_records. rewrite call_run, Hself.
      cbn [fst snd outcome_of]. fold w0.
      unfold bind at 1. rewrite call_run. cbn [w_remote w0 set_remote].
      rewrite Hget. cbn [fst snd outcome_of]. fold w1.
      exact Hrun. }
    destruct (all_true_counts target S T adds_a dels_a adds_c dels_c)
      as (Hc1 & Hc2 & Hc3 & Hc4); try done.
    destruct (tally_sync_counts (adds_a ++ dels_a ++ adds_c ++ dels_c)
                ({[ "added" := 0; "removed" := 0; "conflicts" := 0 ]} : Stats))
      as (Hadded & Hremoved & Hconflicts).
    rewrite Hadded, Hremoved, Hconflicts, Hc1, Hc2, Hc4. by cbn.
Qed.

End convergence.

(** ** Dry run *)

Section dry_run.
Context {R : Type}.
Implicit Types w : World R.

Local Ltac stat_steps :=
  repeat first
    [ rewrite get_stat_insert_eq
    | rewrite get_stat_insert_ne by done ].

(** C8: [sync_records] with [dry_run=True] calls [get_records] on the
    source and on the target and nothing else, so no [add_record] and no
    [delete_record], whatever the two calls return or raise; when both
    return, the statistics are [added] = the sum over the two record
    types of the sizes of [to_add], [removed] = the sum of the sizes of
    [to_remove], the sets the other path iterates over, and no conflict. *)
Theorem dry_run_makes_no_write (self target : DNSServer R) w :
  Forall (λ c, is_mutation (ce_call c) = false)
         (new_calls w (sync_records self target true w).2)
  ∧ ∀ S r0 T r1,
      get_records self (w_remote w) = (Ok S, r0) →
      get_records target r0 = (Ok T, r1) →
      ∃ stats w',
        sync_records self target true w = (Ok stats, w')
        ∧ new_calls w w' = [mkEntry (name self) CGetRecords Returned;
                            mkEntry (name target) CGetRecords Returned]
        ∧ w_remote w' = r1
        ∧ get_stat stats "added"
          = size (to_add (get_set S "A") (get_set T "A"))
            + size (to_add (get_set S "CNAME") (get_set T "CNAME"))
        ∧ get_stat stats "removed"
          = size (to_remove (get_set S "A") (get_set T "A"))
            + size (to_remove (get_set S "CNAME") (get_set T "CNAME"))
        ∧ get_stat stats "conflicts" = 0.
Proof.
  split.
  - unfold sync_records, bind at 1, call_get_records. rewrite call_run.
    destruct (get_records self (w_remote w)) as [[S|e] r0] eqn:Hself; cbn [fst snd].
    + unfold bind at 1. rewrite call_run. cbn [w_remote set_remote log_call].
      destruct (get_records target r0) as [[T|e] r1] eqn:Hget; cbn [fst snd].
      * cbn [for_each]. unfold bind, ret. cbn [snd].
        erewrite new_calls_app; [|cbn; by rewrite <-app_assoc].
        by repeat constructor.
      * erewrite new_calls_app; [|cbn; by rewrite <-app_assoc].
        by repeat constructor.
    + erewrite new_calls_app; [|done]. by repeat constructor.
  - intros S r0 T r1 Hself Hget.
    unfold sync_records, bind at 1, call_get_records. rewrite call_run, Hself.
    cbn [fst snd]. unfold bind at 1. rewrite call_run.
    cbn [w_remote set_remote log_call]. rewrite Hget. cbn [fst snd outcome_of].
    cbn [for_each]. unfold bind, ret.
    eexists _, _. split; [done|]. split_and!.
    + erewrite new_calls_app; [done|]. cbn. by rewrite <-app_assoc.
    + done.
    + unfold incr_by. stat_steps. by cbn.
    + unfold incr_by. stat_steps. by cbn.
    + unfold incr_by. stat_steps. by cbn.
Qed.

End dry_run.

(** ** The orchestrator on a working database *)

Section orchestration.
Context {R : Type}.
Variable create_server : string → string → ServerConfig → result (DNSServer R).
Implicit Types w : World R.

Lemma db_write_healthy f w :
  w_db_faults w = [] → db_write f w = (Ok tt, set_db (f (w_now w) (w_db w)) w).
Proof. intros H. unfold db_write. by rewrite H. Qed.

Lemma db_read_healthy {A} (f : db.t → A) w :
  w_db_faults w = [] → db_read f w = (Ok (f (w_db w)), w).
Proof. intros H. unfold db_read. by rewrite H. Qed.

Lemma parse_record_raises rtype rstr e :
  parse_record rtype rstr = Raise e → is_Exception e = true.
Proof.
  unfold parse_record, DNSRecord.from_a_string, DNSRecord.from_cname_string,
    DNSRecord.unpack2.
  case_bool_decide.
  - destruct (DNSRecord.split1 rstr " ") as [|? [|? [|? ?]]]; by intros [= <-].
  - destruct (DNSRecord.split1 rstr " -> ") as [|? [|? [|? ?]]]; by intros [= <-].
Qed.

Section keeps.
Variable Q : exn → Prop.

Lemma keeps_ret {A} (a : A) : keeps (R := R) Q (ret a).
Proof. intros w. by split. Qed.

Lemma keeps_lift {A} (r : result A) :
  (∀ e, r = Raise e → Q e) → keeps (R := R) Q (lift r).
Proof. intros H w. split; [done|]. apply H. Qed.

Lemma keeps_bind {A B} (m : M R A) (k : A → M R B) :
  keeps Q m → (∀ a, keeps Q (k a)) → keeps Q (bind m k).
Proof.
  intros Hm Hk w. unfold bind. destruct (Hm w) as [Hs Hq].
  destruct (m w) as [[a|e] w1]; simpl in *.
  2:{ split; [done|]. intros e' [= <-]. by apply Hq. }
  destruct (Hk a w1) as [Hs' Hq']. split; [|done].
  by eapply same_store_trans.
Qed.

Lemma keeps_call {A} (describe : A → Outcome) (srv : DNSServer R) c op :
  (∀ r e, (op r).1 = Raise e → Q e) → keeps Q (call describe srv c op).
Proof. intros H w. rewrite call_run. split; [done|]. apply H. Qed.

Lemma keeps_try_except {A} (m : M R A) handler :
  keeps Q m → (∀ e, keeps Q (handler e)) → keeps Q (try_except m handler).
Proof.
  intros Hm Hh w. unfold try_except. destruct (Hm w) as [Hs Hq].
  destruct (m w) as [[a|e] w1]; simpl in *; [by split|].
  destruct (is_Exception e); [|by split].
  destruct (Hh e w1) as [Hs' Hq']. split; [|done].
  by eapply same_store_trans.
Qed.

Lemma keeps_for_each {A S} (body : S → A → M R S) xs acc :
  (∀ acc x, keeps Q (body acc x)) → keeps Q (for_each xs body acc).
Proof.
  intros Hbody w.
  apply (for_each_keeps same_store Q body xs);
    [apply same_store_refl|apply same_store_trans|].
  intros acc' x w'. apply Hbody.
Qed.

Hypothesis HQ : ∀ e, is_Exception e = true → Q e.

Lemma keeps_apply_diff (target : DNSServer R) (S : Records) :
  raises_in Q target → keeps Q (_apply_diff S target).
Proof.
  intros (Hc & Hg & Ha & Hd). unfold _apply_diff.
  apply keeps_bind; [by apply keeps_call|]. intros T.
  apply keeps_bind; [|intros; apply keeps_ret].
  apply keeps_for_each. intros stats rtype.
  apply keeps_bind; [|intros stats'].
  - apply keeps_for_each. intros acc rstr. unfold apply_add.
    apply keeps_bind.
    { apply keeps_lift. intros e He. eapply HQ, parse_record_raises, He. }
    intros record. apply keeps_try_except; [|intros; apply keeps_ret].
    apply keeps_bind; [apply keeps_call, Ha|].
    intros []; apply keeps_ret.
  - apply keeps_for_each. intros acc rstr. unfold apply_remove.
    apply keeps_bind.
    { apply keeps_lift. intros e He. eapply HQ, parse_record_raises, He. }
    intros record. apply keeps_try_except; [|intros; apply keeps_ret].
    apply keeps_bind; [apply keeps_call, Hd|].
    intros []; apply keeps_ret.
Qed.

Lemma keeps_attempt (srv : DNSServer R) (hub_records : Records) :
  raises_in Q srv → keeps Q (attempt srv hub_records).
Proof.
  intros Hsrv. unfold attempt.
  apply keeps_bind; [apply keeps_call, Hsrv|].
  intros _. by apply keeps_apply_diff.
Qed.

Lemma keeps_fetch (srv : DNSServer R) :
  raises_in Q srv → keeps Q (fetch srv).
Proof.
  intros (Hc & Hg & _). unfold fetch.
  apply keeps_bind; [apply keeps_call, Hc|].
  intros _. apply keeps_call, Hg.
Qed.

End keeps.

Lemma raises_in_True (srv : DNSServer R) : raises_in (λ _, True) srv.
Proof. by repeat split. Qed.

Lemma nonfatal_raises_in (srv : DNSServer R) :
  nonfatal srv → raises_in (λ e, is_Exception e = true) srv.
Proof. intros [Hc Hg Ha Hd]. by repeat split. Qed.

(** The adapter part of a spoke sync leaves the database, its fault
    schedule, the clock and the outbox alone. *)
Lemma attempt_same_store (srv : DNSServer R) hub_records w :
  same_store w (attempt srv hub_records w).2.
Proof. by apply (keeps_attempt (λ _, True)); [|apply raises_in_True]. Qed.

Lemma fetch_same_store (srv : DNSServer R) w : same_store w (fetch srv w).2.
Proof. by apply (keeps_fetch (λ _, True)), raises_in_True. Qed.

Lemma attempt_nonfatal (srv : DNSServer R) hub_records w e :
  nonfatal srv → (attempt srv hub_records w).1 = Raise e → is_Exception e = true.
Proof.
  intros Hnf. apply (keeps_attempt (λ e, is_Exception e = true)); [done|].
  by apply nonfatal_raises_in.
Qed.

Lemma fetch_nonfatal (srv : DNSServer R) w e :
  nonfatal srv → (fetch srv w).1 = Raise e → is_Exception e = true.
Proof.
  intros Hnf. apply (keeps_fetch (λ e, is_Exception e = true)).
  by apply nonfatal_raises_in.
Qed.

Lemma bind_assoc {A B C} (m : M R A) (k : A → M R B) (k' : B → M R C) w :
  bind (bind m k) k' w = bind m (λ a, bind (k a) k') w.
Proof. unfold bind. by destruct (m w) as [[a|e] w1]. Qed.

Lemma healthy_after w w' : same_store w w' → w_db_faults w = [] → w_db_faults w' = [].
Proof. intros (_ & -> & _). done. Qed.

Lemma quiet_after w w' subject :
  same_store w w' → quiet (w_host w) subject → quiet (w_host w') subject.
Proof. intros (_ & _ & _ & _ & ->). done. Qed.

Lemma post_nil w : post [] w = w.
Proof. destruct w. unfold post. cbn. by rewrite app_nil_r. Qed.

Lemma post_post ds1 ds2 w : post ds2 (post ds1 w) = post (ds1 ++ ds2) w.
Proof. unfold post. cbn. by rewrite app_assoc. Qed.

(** A transport that raises inside [Exception] is caught by the [try]
    around it. *)
Lemma deliver_caught d w :
  (∀ e, transport (w_host w) d = Raise e → is_Exception e = true) →
  try_except (deliver d) (λ _, ret tt) w = (Ok tt, post [d] w).
Proof.
  intros Hnf. unfold try_except, deliver.
  destruct (transport (w_host w) d) as [[]|e] eqn:E; [done|]. by rewrite (Hnf e).
Qed.

(** On a quiet host the two transports return. *)
Lemma send_discord_quiet url title description color w subject :
  quiet (w_host w) subject →
  _send_discord url title description color w
  = (Ok tt, post [Discord url (mkNote title description color) (w_now w)] w).
Proof.
  intros [Htransport _ _]. unfold _send_discord, bind at 1, _now.
  apply deliver_caught. intros e. apply Htransport.
Qed.

Lemma send_email_quiet subject body w :
  quiet (w_host w) subject → mail_configured (w_host w) = true →
  _send_email subject body w
  = (Ok tt,
     post (match int (w_host w) (environ_get (w_host w) "DNS_SYNC_SMTP_PORT" "587") with
           | Ok smtp_port =>
               [Email (environ_get (w_host w) "DNS_SYNC_SMTP_HOST" "") smtp_port
                      (if nonempty (environ_get (w_host w) "DNS_SYNC_SMTP_USER" "")
                          && nonempty (environ_get (w_host w) "DNS_SYNC_SMTP_PASSWORD" "")
                       then Some (environ_get (w_host w) "DNS_SYNC_SMTP_USER" "",
                                  environ_get (w_host w) "DNS_SYNC_SMTP_PASSWORD" "")
                       else None)
                      (mail_sender (w_host w)) (environ_get (w_host w) "DNS_SYNC_SMTP_TO" "")
                      subject body]
           | Raise _ => []
           end) w).
Proof.
  intros [Htransport Hport Hmessage] Hmail.
  destruct (Hport Hmail) as [smtp_port Hint].
  unfold _send_email, bind, getenv, host_call.
  fold (mail_sender (w_host w)). rewrite Hint, (Hmessage Hmail).
  apply deliver_caught. intros e. apply Htransport.
Qed.

(** On a quiet host [_dispatch] returns, having handed the message to
    the configured transports. *)
Lemma dispatch_quiet subject body color w :
  quiet (w_host w) subject →
  _dispatch subject body color w = (Ok tt, notified (mkNote subject body color) w).
Proof.
  intros Hquiet. unfold notified, deliveries.
  unfold _dispatch, bind at 1 2 3, getenv.
  fold (mail_configured (w_host w)).
  destruct (nonempty (environ_get (w_host w) "DNS_SYNC_DISCORD_WEBHOOK_URL" "")).
  - unfold bind. rewrite (send_discord_quiet _ _ _ _ _ subject) by done.
    destruct (mail_configured (w_host w)) eqn:Hmail.
    + rewrite send_email_quiet by done. by rewrite post_post.
    + by rewrite app_nil_r.
  - unfold bind, ret at 1.
    destruct (mail_configured (w_host w)) eqn:Hmail.
    + by rewrite send_email_quiet.
    + by rewrite post_nil.
Qed.

(** Whatever the notifier does, it touches nothing but the outbox. *)
Lemma deliver_frame d w :
  (try_except (deliver d) (λ _, ret tt) w).2 = post [d] w.
Proof.
  unfold try_except, deliver.
  destruct (transport (w_host w) d) as [[]|e]; [done|]. by destruct (is_Exception e).
Qed.

Lemma dispatch_frame subject body color w :
  ∃ ds, (_dispatch subject body color w).2 = post ds w.
Proof.
  unfold _dispatch, _send_discord, _send_email, bind, getenv, _now, host_call.
  pose proof (deliver_frame
                (Discord (environ_get (w_host w) "DNS_SYNC_DISCORD_WEBHOOK_URL" "")
                         (mkNote subject body color) (w_now w)) w) as Hdiscord.
  destruct (nonempty (environ_get (w_host w) "DNS_SYNC_DISCORD_WEBHOOK_URL" "")).
  - destruct (try_except _ _ w) as [[[]|e] w1]; cbn [snd] in Hdiscord; subst w1;
      [|by eexists].
    destruct (nonempty _ && nonempty _); [|by eexists].
    cbn [w_host post].
    destruct (int _ _) as [smtp_port|e]; [|by eexists].
    destruct (email_message _ _ _ _ _) as [[]|e]; [|by eexists].
    match goal with |- context [try_except (deliver ?d) _ ?w0] =>
      pose proof (deliver_frame d w0) as Hmail;
      destruct (try_except (deliver d) _ w0) as [r w2] end.
    cbn [snd] in Hmail. subst w2. rewrite post_post. by eexists.
  - unfold ret at 1.
    destruct (nonempty _ && nonempty _); [|exists []; by rewrite post_nil].
    destruct (int _ _) as [smtp_port|e]; [|exists []; by rewrite post_nil].
    destruct (email_message _ _ _ _ _) as [[]|e]; [|exists []; by rewrite post_nil].
    match goal with |- context [try_except (deliver ?d) _ ?w0] =>
      pose proof (deliver_frame d w0) as Hmail;
      destruct (try_except (deliver d) _ w0) as [r w2] end.
    cbn [snd] in Hmail. subst w2. by eexists.
Qed.

Lemma notify_sync_failed_frame server_name server_type error w :
  ∃ ds, (notify_sync_failed server_name server_type error w).2 = post ds w.
Proof. unfold notify_sync_failed, bind at 1, _now. apply dispatch_frame. Qed.

Lemma notify_sync_failed_quiet server_name server_type error w :
  quiet (w_host w) (sync_failed_subject server_name) →
  notify_sync_failed server_name server_type error w
  = (Ok tt, notified (sync_failed_note (w_now w) server_name server_type error) w).
Proof.
  intros Hquiet. unfold notify_sync_failed, bind at 1, _now.
  by rewrite dispatch_quiet.
Qed.

Lemma notify_hub_unreachable_quiet hub_name hub_type error w :
  quiet (w_host w) (hub_unreachable_subject hub_name) →
  notify_hub_unreachable hub_name hub_type error w
  = (Ok tt, notified (hub_unreachable_note (w_now w) hub_name hub_type error) w).
Proof.
  intros Hquiet. unfold notify_hub_unreachable, bind at 1, _now.
  by rewrite dispatch_quiet.
Qed.

(** [refresh_hub_cache] on a working database and a quiet host. *)
Lemma refresh_run hub_cfg w :
  w_db_faults w = [] → quiet (w_host w) (hub_unreachable_subject (cfg_name hub_cfg)) →
  refresh_hub_cache create_server hub_cfg w
  = match create_server (cfg_type hub_cfg) (cfg_name hub_cfg) hub_cfg with
    | Raise e =>
        if is_Exception e
        then (Ok (db.get_cached_hub_records (cfg_name hub_cfg) (w_db w)),
              hub_failed hub_cfg e w)
        else (Raise e, w)
    | Ok srv =>
        match fetch srv w with
        | (Ok hub_records, w1) =>
            (Ok (Some hub_records), call_disconnect srv (hub_saved hub_cfg hub_records w1))
        | (Raise e, w1) =>
            if is_Exception e
            then (Ok (db.get_cached_hub_records (cfg_name hub_cfg) (w_db w1)),
                  call_disconnect srv (hub_failed hub_cfg e w1))
            else (Raise e, call_disconnect srv w1)
        end
    end.
Proof.
  intros Hfaults Hquiet. unfold refresh_hub_cache, with_server.
  destruct (create_server _ _ _) as [srv|e].
  - unfold try_finally, try_except. rewrite <-bind_assoc. fold (fetch srv).
    pose proof (fetch_same_store srv w) as Hsame. unfold bind at 1.
    destruct (fetch srv w) as [[hub_records|e] w1]; cbn [snd] in Hsame.
    + unfold bind. rewrite db_write_healthy by (cbn; by eapply healthy_after). done.
    + destruct (is_Exception e); [|done].
      unfold bind. rewrite notify_hub_unreachable_quiet by (by eapply quiet_after).
      rewrite db_read_healthy by (cbn; by eapply healthy_after). done.
  - unfold try_except, raise. destruct (is_Exception e); [|done].
    unfold bind. rewrite notify_hub_unreachable_quiet by done.
    by rewrite db_read_healthy.
Qed.

(** One turn of the loop of [sync_all_enabled_spokes], for an enabled
    spoke, with an authoritative cache, on a working database and a quiet
    host. *)
Lemma sync_spoke_run hub_records results cfg w :
  w_db_faults w = [] → quiet (w_host w) (sync_failed_subject (cfg_name cfg)) →
  enabled cfg = true →
  sync_spoke create_server (Some hub_records) results cfg w
  = match create_server (cfg_type cfg) (cfg_name cfg) cfg with
    | Raise e =>
        if is_Exception e
        then (Ok (<[cfg_name cfg := empty_stats]> results), failed cfg e w)
        else (Raise e, w)
    | Ok srv =>
        match attempt srv hub_records w with
        | (Ok stats, w1) =>
            (Ok (<[cfg_name cfg := stats]> results),
             call_disconnect srv (succeeded cfg hub_records stats w1))
        | (Raise e, w1) =>
            if is_Exception e
            then (Ok (<[cfg_name cfg := empty_stats]> results),
                  call_disconnect srv (failed cfg e w1))
            else (Raise e, call_disconnect srv w1)
        end
    end.
Proof.
  intros Hfaults Hquiet Hen. unfold sync_spoke, with_server. rewrite Hen. cbn [negb].
  destruct (create_server _ _ _) as [srv|e].
  - unfold try_finally, try_except. rewrite <-bind_assoc. fold (attempt srv hub_records).
    pose proof (attempt_same_store srv hub_records w) as Hsame. unfold bind at 1.
    destruct (attempt srv hub_records w) as [[stats|e] w1]; cbn [snd] in Hsame.
    + unfold bind. rewrite db_write_healthy by (cbn; by eapply healthy_after).
      rewrite db_write_healthy by (cbn; by eapply healthy_after). done.
    + destruct (is_Exception e); [|done].
      unfold bind. rewrite db_write_healthy by (cbn; by eapply healthy_after).
      rewrite notify_sync_failed_quiet by (cbn; by eapply quiet_after). done.
  - unfold try_except, raise. destruct (is_Exception e); [|done].
    unfold bind. rewrite db_write_healthy by done.
    by rewrite notify_sync_failed_quiet.
Qed.

(** The spoke part of [perform_sync], after the hub refresh, on a
    working database and a quiet host. *)
Lemma perform_sync_run hub_cfg cfg w hub_records w0 :
  enabled cfg = true →
  refresh_hub_cache create_server hub_cfg w = (Ok (Some hub_records), w0) →
  w_db_faults w0 = [] → quiet (w_host w0) (sync_failed_subject (cfg_name cfg)) →
  perform_sync create_server hub_cfg cfg w
  = match create_server (cfg_type cfg) (cfg_name cfg) cfg with
    | Raise e =>
        if is_Exception e then (Ok empty_stats, failed cfg e w0) else (Raise e, w0)
    | Ok srv =>
        match attempt srv hub_records w0 with
        | (Ok stats, w1) =>
            (Ok stats, call_disconnect srv (succeeded cfg hub_records stats w1))
        | (Raise e, w1) =>
            if is_Exception e
            then (Ok empty_stats, call_disconnect srv (failed cfg e w1))
            else (Raise e, call_disconnect srv w1)
        end
    end.
Proof.
  intros Hen Hrefresh Hfaults Hquiet. unfold perform_sync. rewrite Hen. cbn [negb].
  unfold bind at 1. rewrite Hrefresh. unfold with_server.
  destruct (create_server _ _ _) as [srv|e].
  - unfold try_finally, try_except. rewrite <-bind_assoc. fold (attempt srv hub_records).
    pose proof (attempt_same_store srv hub_records w0) as Hsame. unfold bind at 1.
    destruct (attempt srv hub_records w0) as [[stats|e] w1]; cbn [snd] in Hsame.
    + unfold bind. rewrite db_write_healthy by (cbn; by eapply healthy_after).
      rewrite db_write_healthy by (cbn; by eapply healthy_after). done.
    + destruct (is_Exception e); [|done].
      unfold bind. rewrite db_write_healthy by (cbn; by eapply healthy_after).
      rewrite notify_sync_failed_quiet by (cbn; by eapply quiet_after). done.
  - unfold try_except, raise. destruct (is_Exception e); [|done].
    unfold bind. rewrite db_write_healthy by done.
    by rewrite notify_sync_failed_quiet.
Qed.

(** The success path of a turn never reaches the notifier. *)
Lemma sync_spoke_success hub_records results cfg (srv : DNSServer R) w stats w1 :
  w_db_faults w = [] → enabled cfg = true →
  create_server (cfg_type cfg) (cfg_name cfg) cfg = Ok srv →
  attempt srv hub_records w = (Ok stats, w1) →
  sync_spoke create_server (Some hub_records) results cfg w
  = (Ok (<[cfg_name cfg := stats]> results),
     call_disconnect srv (succeeded cfg hub_records stats w1)).
Proof.
  intros Hfaults Hen Hcreate Hattempt.
  unfold sync_spoke, with_server. rewrite Hen, Hcreate. cbn [negb].
  unfold try_finally, try_except. rewrite <-bind_assoc. fold (attempt srv hub_records).
  pose proof (attempt_same_store srv hub_records w) as Hsame. unfold bind at 1.
  rewrite Hattempt in *. cbn [snd] in Hsame.
  unfold bind. rewrite db_write_healthy by (cbn; by eapply healthy_after).
  rewrite db_write_healthy by (cbn; by eapply healthy_after). done.
Qed.

Lemma perform_sync_success hub_cfg cfg (srv : DNSServer R) w hub_records w0 stats w1 :
  enabled cfg = true →
  refresh_hub_cache create_server hub_cfg w = (Ok (Some hub_records), w0) →
  w_db_faults w0 = [] →
  create_server (cfg_type cfg) (cfg_name cfg) cfg = Ok srv →
  attempt srv hub_records w0 = (Ok stats, w1) →
  perform_sync create_server hub_cfg cfg w
  = (Ok stats, call_disconnect srv (succeeded cfg hub_records stats w1)).
Proof.
  intros Hen Hrefresh Hfaults Hcreate Hattempt. unfold perform_sync. rewrite Hen. cbn [negb].
  unfold bind at 1. rewrite Hrefresh. unfold with_server. rewrite Hcreate.
  unfold try_finally, try_except. rewrite <-bind_assoc. fold (attempt srv hub_records).
  pose proof (attempt_same_store srv hub_records w0) as Hsame. unfold bind at 1.
  rewrite Hattempt in *. cbn [snd] in Hsame.
  unfold bind. rewrite db_write_healthy by (cbn; by eapply healthy_after).
  rewrite db_write_healthy by (cbn; by eapply healthy_after). done.
Qed.

End orchestration.

(** ** A hub that cannot be reached *)

Section degraded.
Context {R : Type}.
Variable create_server : string → string → ServerConfig → result (DNSServer R).
Implicit Types w : World R.

(** What [refresh_hub_cache] does once the hub adapter raised, on a quiet
    host: the notification, then the read of the cache, whose outcome is
    the outcome of the call. *)
Lemma refresh_fallback hub_cfg (srv : DNSServer R) w e w1 :
  create_server (cfg_type hub_cfg) (cfg_name hub_cfg) hub_cfg = Ok srv →
  fetch srv w = (Raise e, w1) →
  is_Exception e = true →
  quiet (w_host w1) (hub_unreachable_subject (cfg_name hub_cfg)) →
  refresh_hub_cache create_server hub_cfg w
  = ((db_read (db.get_cached_hub_records (cfg_name hub_cfg)) (hub_failed hub_cfg e w1)).1,
     call_disconnect srv
       (db_read (db.get_cached_hub_records (cfg_name hub_cfg)) (hub_failed hub_cfg e w1)).2).
Proof.
  intros Hcreate Hfetch He Hquiet. unfold refresh_hub_cache, with_server. rewrite Hcreate.
  unfold try_finally, try_except. rewrite <-bind_assoc. fold (fetch srv).
  unfold bind at 1. rewrite Hfetch, He.
  unfold bind at 1. rewrite notify_hub_unreachable_quiet by done.
  fold (hub_failed hub_cfg e w1). unfold bind.
  by destruct (db_read _ _) as [[cached|e'] w2].
Qed.

(** C3, as the code has it.  [connect] or [get_records] of the hub
    adapter raises an [Exception], on a host whose notifier does not
    raise.  Then [refresh_hub_cache] hands the hub-unreachable
    notification to the configured transports and reads the cache: it
    returns what [get_cached_hub_records] holds for the hub (the last
    persisted cache, or [None]), and it raises exactly when that read
    raises, with the exception of the read.  The database is left as it
    was and no [add_record] or [delete_record] is called.  When the
    result is [None] and the database works, [sync_all_enabled_spokes]
    returns all-zero statistics for every enabled spoke, writes one
    history row per enabled spoke with status [error] and the no-cache
    message, and calls no adapter at all; [perform_sync] on an enabled
    spoke does the same with its own message. *)
Theorem unreachable_hub_degrades hub_cfg (srv : DNSServer R) w e r1 :
  create_server (cfg_type hub_cfg) (cfg_name hub_cfg) hub_cfg = Ok srv →
  (connect srv (w_remote w) = (Raise e, r1)
   ∨ ∃ b r0, connect srv (w_remote w) = (Ok b, r0) ∧ get_records srv r0 = (Raise e, r1)) →
  is_Exception e = true →
  quiet (w_host w) (hub_unreachable_subject (cfg_name hub_cfg)) →
  ∃ w',
    refresh_hub_cache create_server hub_cfg w
    = (match w_db_faults w with
       | Some e' :: _ => Raise e'
       | _ => Ok (db.get_cached_hub_records (cfg_name hub_cfg) (w_db w))
       end, w')
    ∧ w_db w' = w_db w
    ∧ w_outbox w'
      = w_outbox w
        ++ deliveries (w_host w) (w_now w)
             (hub_unreachable_note (w_now w) (cfg_name hub_cfg) (cfg_type hub_cfg)
                                   (str_exn e))
    ∧ Forall (λ c, is_mutation (ce_call c) = false) (new_calls w w')
    ∧ (w_db_faults w = [] →
       db.get_cached_hub_records (cfg_name hub_cfg) (w_db w) = None →
       ∀ spokes,
         sync_all_enabled_spokes create_server hub_cfg spokes w'
         = (Ok (skipped_results spokes), with_runs (skipped_rows (w_now w) spokes) w')
         ∧ new_calls w' (with_runs (skipped_rows (w_now w) spokes) w') = []
         ∧ w_remote (with_runs (skipped_rows (w_now w) spokes) w') = w_remote w'
         ∧ db.server_name <$> skipped_rows (w_now w) spokes = enabled_names spokes
         ∧ Forall (λ row, db.status row = "error" ∧ db.error row = Some no_cache_msg
                          ∧ db.added row = 0 ∧ db.removed row = 0 ∧ db.conflicts row = 0)
                  (skipped_rows (w_now w) spokes)
         ∧ ∀ spoke_cfg, enabled spoke_cfg = true →
             perform_sync create_server hub_cfg spoke_cfg w
             = (Ok empty_stats, with_runs [hub_unreachable_row (w_now w) spoke_cfg] w')
             ∧ db.status (hub_unreachable_row (w_now w) spoke_cfg) = "error").
Proof.
  intros Hcreate Hfail He Hquiet.
  assert (∃ w1 log,
            fetch srv w = (Raise e, w1) ∧ same_store w w1
            ∧ w_calls w1 = w_calls w ++ log
            ∧ Forall (λ c, is_mutation (ce_call c) = false) log) as
    (w1 & log & Hfetch & Hsame & Hcalls & Hlog).
  { unfold fetch, bind, call_connect, call_get_records. rewrite call_run.
    destruct Hfail as [Hc|(b & r0 & Hc & Hg)]; rewrite Hc; cbn [fst snd].
    - eexists _, _. split_and!; [done|done|done|]. by repeat constructor.
    - rewrite call_run. cbn [w_remote set_remote log_call]. rewrite Hg. cbn [fst snd].
      eexists _, _. split_and!; [done|done| |].
      + cbn. by rewrite <-app_assoc.
      + by repeat constructor. }
  assert (quiet (w_host w1) (hub_unreachable_subject (cfg_name hub_cfg))) as Hquiet1
    by (by eapply quiet_after).
  destruct Hsame as (Hdb & Hfl & Hnow & Hout & Hhost).
  pose proof (refresh_fallback hub_cfg srv w e w1 Hcreate Hfetch He Hquiet1) as Hrun.
  set (out := db_read (db.get_cached_hub_records (cfg_name hub_cfg))
                      (hub_failed hub_cfg e w1)) in Hrun.
  assert (out = match w_db_faults w with
                | Some e' :: fs => (Raise e', set_faults fs (hub_failed hub_cfg e w1))
                | None :: fs =>
                    (Ok (db.get_cached_hub_records (cfg_name hub_cfg) (w_db w)),
                     set_faults fs (hub_failed hub_cfg e w1))
                | [] => (Ok (db.get_cached_hub_records (cfg_name hub_cfg) (w_db w)),
                         hub_failed hub_cfg e w1)
                end) as Hout'.
  { subst out. unfold db_read. cbn [w_db_faults hub_failed notified post w_db].
    rewrite Hfl, Hdb. by destruct (w_db_faults w) as [|[e'|] fs]. }
  exists (call_disconnect srv out.2).
  split_and!.
  - rewrite Hrun, Hout'. by destruct (w_db_faults w) as [|[e'|] fs].
  - rewrite Hout'. by destruct (w_db_faults w) as [|[e'|] fs]; cbn.
  - rewrite Hout'. destruct (w_db_faults w) as [|[e'|] fs]; cbn; by rewrite Hout, Hnow, Hhost.
  - erewrite new_calls_app.
    2:{ rewrite Hout'. destruct (w_db_faults w) as [|[e'|] fs]; cbn;
          rewrite Hcalls; by rewrite <-app_assoc. }
    apply Forall_app. split; [done|]. by repeat constructor.
  - intros Hfaults Hnone spokes.
    rewrite Hfaults in Hout'. rewrite Hout'. cbn [snd].
    set (w' := call_disconnect srv (hub_failed hub_cfg e w1)).
    assert (w_now w' = w_now w) as Hnow' by done.
    split_and!.
    + rewrite <-Hnow'. apply sync_all_no_cache; [by cbn; rewrite Hfl|].
      cbn. by rewrite Hdb.
    + unfold new_calls. cbn. by rewrite drop_all.
    + done.
    + apply skipped_rows_names.
    + apply skipped_rows_status.
    + intros spoke_cfg Hen. split; [|done].
      unfold perform_sync. rewrite Hen. cbn [negb]. unfold bind at 1.
      rewrite refresh_run, Hcreate, Hfetch, He by done.
      rewrite Hdb, Hnone. unfold bind.
      rewrite db_write_healthy by (cbn; by rewrite Hfl).
      cbn. by rewrite Hnow.
Qed.
End degraded.

(** ** One spoke's failure does not stop the others *)

Section isolation.
Context {R : Type}.
Variable create_server : string → string → ServerConfig → result (DNSServer R).
Implicit Types w : World R.

Lemma new_runs_app w w' rows :
  db.sync_runs (w_db w') = db.sync_runs (w_db w) ++ rows → new_runs w w' = rows.
Proof. intros Heq. unfold new_runs. by rewrite Heq, drop_app_length. Qed.

(** When the adapter part of a spoke sync raises, and when it does
    not. *)
Lemma attempt_outcome (srv : DNSServer R) (hub_records : Records) w :
  nonfatal srv →
  match connect srv (w_remote w) with
  | (Raise e, _) => (attempt srv hub_records w).1 = Raise e
  | (Ok _, r0) =>
      match get_records srv r0 with
      | (Raise e, _) => (attempt srv hub_records w).1 = Raise e
      | (Ok T, _) =>
          valid_records hub_records → valid_records T →
          ∃ stats, (attempt srv hub_records w).1 = Ok stats
      end
  end.
Proof.
  intros Hnf.
  assert (attempt srv hub_records w
          = match connect srv (w_remote w) with
            | (Ok b, r0) =>
                _apply_diff hub_records srv
                  (set_remote r0 (log_call (mkEntry (name srv) CConnect (ReturnedBool b)) w))
            | (Raise e, r0) =>
                (Raise e,
                 set_remote r0 (log_call (mkEntry (name srv) CConnect (Raised e)) w))
            end) as ->.
  { unfold attempt, bind, call_connect. rewrite call_run.
    by destruct (connect srv (w_remote w)) as [[b|e] r0]. }
  destruct (connect srv (w_remote w)) as [[b|e] r0] eqn:Hc; [|done].
  set (w0 := set_remote r0 _).
  destruct (get_records srv r0) as [[T|e] r1] eqn:Hg.
  - intros HS HT.
    destruct (apply_diff_tallied srv hub_records T w0 r1) as (stats & w' & Hrun & _);
      try done.
    exists stats. by rewrite Hrun.
  - unfold _apply_diff, bind at 1, call_get_records. rewrite call_run.
    cbn [w_remote w0 set_remote]. by rewrite Hg.
Qed.

(** One turn of the loop never raises and writes exactly one history
    row. *)
Lemma sync_spoke_isolated (hub_records : Records) results cfg w :
  nonfatal_factory create_server →
  w_db_faults w = [] → quiet (w_host w) (sync_failed_subject (cfg_name cfg)) →
  enabled cfg = true →
  ∃ stats w' row,
    sync_spoke create_server (Some hub_records) results cfg w
    = (Ok (<[cfg_name cfg := stats]> results), w')
    ∧ w_db_faults w' = [] ∧ w_host w' = w_host w
    ∧ db.sync_runs (w_db w') = db.sync_runs (w_db w) ++ [row]
    ∧ db.server_name row = cfg_name cfg
    ∧ match create_server (cfg_type cfg) (cfg_name cfg) cfg with
      | Raise e =>
          stats = empty_stats ∧ row = failure_row (w_now w) cfg e
          ∧ w_outbox w'
            = w_outbox w
              ++ deliveries (w_host w) (w_now w)
                   (sync_failed_note (w_now w) (cfg_name cfg) (cfg_type cfg) (str_exn e))
      | Ok srv =>
          match (attempt srv hub_records w).1 with
          | Raise e =>
              stats = empty_stats ∧ row = failure_row (w_now w) cfg e
              ∧ w_outbox w'
                = w_outbox w
                  ++ deliveries (w_host w) (w_now w)
                       (sync_failed_note (w_now w) (cfg_name cfg) (cfg_type cfg) (str_exn e))
          | Ok stats' =>
              stats = stats' ∧ row = success_row (w_now w) cfg stats'
              ∧ w_outbox w' = w_outbox w
          end
      end.
Proof.
  intros Hfactory Hfaults Hquiet Hen. rewrite sync_spoke_run by done.
  specialize (Hfactory (cfg_type cfg) (cfg_name cfg) cfg).
  destruct (create_server _ _ _) as [srv|e].
  - pose proof (attempt_same_store srv hub_records w) as (Hdb & Hfl & Hnow & Hout & Hhost).
    pose proof (attempt_nonfatal srv hub_records w) as Hnf.
    destruct (attempt srv hub_records w) as [[stats|e] w1]; cbn [fst snd] in *.
    + eexists _, _, _. split; [done|]. cbn.
      rewrite Hfl, Hdb, Hnow, Hout, Hhost. by split_and!.
    + rewrite (Hnf e) by done.
      eexists _, _, _. split; [done|]. cbn.
      rewrite Hfl, Hdb, Hnow, Hout, Hhost. by split_and!.
  - rewrite Hfactory. eexists _, _, _. split; [done|]. cbn. by split_and!.
Qed.

Lemma for_each_isolated (hub_records : Records) spokes : ∀ results w,
  nonfatal_factory create_server →
  w_db_faults w = [] → quiet_for (w_host w) spokes →
  ∃ results' w' rows,
    for_each spokes (sync_spoke create_server (Some hub_records)) results w
    = (Ok results', w')
    ∧ w_db_faults w' = [] ∧ w_host w' = w_host w
    ∧ dom results' = dom results ∪ list_to_set (enabled_names spokes)
    ∧ db.sync_runs (w_db w') = db.sync_runs (w_db w) ++ rows
    ∧ db.server_name <$> rows = enabled_names spokes.
Proof.
  induction spokes as [|cfg spokes IH]; intros results w Hfactory Hfaults Hquiet.
  - exists results, w, []. cbn. split_and!; [done|done|done|set_solver| |done].
    by rewrite app_nil_r.
  - cbn [for_each]. unfold bind. rewrite enabled_names_cons.
    apply Forall_cons in Hquiet as [Hquiet Hquiets].
    destruct (enabled cfg) eqn:Hen.
    + destruct (sync_spoke_isolated hub_records results cfg w)
        as (stats & w1 & row & -> & Hfl1 & Hhost1 & Hruns1 & Hname & _); try done.
      destruct (IH (<[cfg_name cfg := stats]> results) w1)
        as (results' & w' & rows & -> & Hfl' & Hhost' & Hdom & Hruns' & Hnames);
        [done|done|by rewrite Hhost1|].
      exists results', w', (row :: rows). split_and!; [done|done|congruence| | |].
      * rewrite Hdom, dom_insert_L. set_solver.
      * rewrite Hruns', Hruns1. by rewrite <-app_assoc.
      * cbn. by rewrite Hname, Hnames.
    + assert (sync_spoke create_server (Some hub_records) results cfg w = (Ok results, w))
        as -> by (unfold sync_spoke; by rewrite Hen).
      by apply IH.
Qed.

(** C2, as the code has it.  The factory and the adapters raise nothing
    outside [Exception], the database works and the notifier does not
    raise.  Then a turn of the loop of [sync_all_enabled_spokes] for an
    enabled spoke never raises: it writes exactly one history row for the
    spoke and enters the spoke in the result map.  When the factory
    raises, or [connect] or [get_records] raises, the row carries the
    exception's message as error (so its status is [error] unless the
    message is empty), the statistics are all zero and the sync-failed
    notification goes to the configured transports.  When [connect] and
    [get_records] return, over parsable record strings, the adapter part
    returns whatever [add_record] and [delete_record] do (their
    exceptions are counted as conflicts), the row is a success row and
    nothing is notified.  The whole loop returns a map whose keys are the
    names of the enabled spokes and writes one row per enabled spoke, in
    order. *)
Theorem spoke_failures_are_isolated :
  nonfatal_factory create_server →
  (∀ (hub_records : Records) results cfg w,
     w_db_faults w = [] → quiet (w_host w) (sync_failed_subject (cfg_name cfg)) →
     enabled cfg = true →
     ∃ stats w' row,
       sync_spoke create_server (Some hub_records) results cfg w
       = (Ok (<[cfg_name cfg := stats]> results), w')
       ∧ new_runs w w' = [row]
       ∧ db.server_name row = cfg_name cfg
       ∧ match create_server (cfg_type cfg) (cfg_name cfg) cfg with
         | Raise e =>
             stats = empty_stats ∧ row = failure_row (w_now w) cfg e
             ∧ w_outbox w'
               = w_outbox w
                 ++ deliveries (w_host w) (w_now w)
                      (sync_failed_note (w_now w) (cfg_name cfg) (cfg_type cfg) (str_exn e))
         | Ok srv =>
             match (attempt srv hub_records w).1 with
             | Raise e =>
                 stats = empty_stats ∧ row = failure_row (w_now w) cfg e
                 ∧ w_outbox w'
                   = w_outbox w
                     ++ deliveries (w_host w) (w_now w)
                          (sync_failed_note (w_now w) (cfg_name cfg) (cfg_type cfg)
                                            (str_exn e))
             | Ok stats' =>
                 stats = stats' ∧ row = success_row (w_now w) cfg stats'
                 ∧ w_outbox w' = w_outbox w
             end
             ∧ match connect srv (w_remote w) with
               | (Raise e, _) => (attempt srv hub_records w).1 = Raise e
               | (Ok _, r0) =>
                   match get_records srv r0 with
                   | (Raise e, _) => (attempt srv hub_records w).1 = Raise e
                   | (Ok T, _) =>
                       valid_records hub_records → valid_records T →
                       ∃ stats', (attempt srv hub_records w).1 = Ok stats'
                   end
               end
         end)
  ∧ (∀ now cfg e,
       db.error (failure_row now cfg e) = Some (str_exn e)
       ∧ (str_exn e ≠ "" → db.status (failure_row now cfg e) = "error"))
  ∧ (∀ hub_cfg spokes w,
       w_db_faults w = [] → quiet_for (w_host w) spokes →
       ∃ results w',
         sync_all_enabled_spokes create_server hub_cfg spokes w = (Ok results, w')
         ∧ dom results = list_to_set (enabled_names spokes)
         ∧ db.server_name <$> new_runs w w' = enabled_names spokes).
Proof.
  intros Hfactory. split_and!.
  - intros hub_records results cfg w Hfaults Hquiet Hen.
    destruct (sync_spoke_isolated hub_records results cfg w)
      as (stats & w' & row & Hrun & _ & _ & Hruns & Hname & Hcases); try done.
    exists stats, w', row. split_and!; [done|by apply new_runs_app|done|].
    pose proof (Hfactory (cfg_type cfg) (cfg_name cfg) cfg) as Hsrv.
    destruct (create_server _ _ _) as [srv|e]; [|done].
    split; [done|]. by apply attempt_outcome.
  - intros now cfg e. split; [done|].
    unfold failure_row, db.sync_run. cbn. by destruct (str_exn e).
  - intros hub_cfg spokes w Hfaults Hquiet.
    destruct (db.get_cached_hub_records (cfg_name hub_cfg) (w_db w))
      as [hub_records|] eqn:Hcache.
    + unfold sync_all_enabled_spokes, bind at 1. rewrite db_read_healthy, Hcache by done.
      destruct (for_each_isolated hub_records spokes ∅ w)
        as (results & w' & rows & Hrun & _ & _ & Hdom & Hruns & Hnames); try done.
      exists results, w'. split_and!; [done| |].
      * rewrite Hdom. set_solver.
      * by rewrite (new_runs_app _ _ _ Hruns).
    + rewrite sync_all_no_cache by done.
      eexists _, _. split_and!; [done|apply dom_skipped_results|].
      erewrite new_runs_app; [apply skipped_rows_names|done].
Qed.

End isolation.

(** ** The persisted spoke state *)

Section spoke_state.
Context {R : Type}.
Variable create_server : string → string → ServerConfig → result (DNSServer R).
Implicit Types w : World R.

Lemma elem_of_pairs_of (records : Records) rtype rstr :
  (rtype, rstr) ∈ pairs_of records ↔ rstr ∈ get_set records rtype.
Proof.
  unfold pairs_of, get_set. rewrite elem_of_list_to_set, list_elem_of_In, in_flat_map.
  split.
  - intros ([rtype' record_set] & Hin & Hpair).
    apply list_elem_of_In, elem_of_map_to_list in Hin.
    apply list_elem_of_In, list_elem_of_fmap in Hpair as (rstr' & [= -> ->] & Hrstr).
    apply elem_of_elements in Hrstr. by rewrite Hin.
  - intros Hin. destruct (records !! rtype) as [record_set|] eqn:Hlook; [|set_solver].
    exists (rtype, record_set). split.
    + by apply list_elem_of_In, elem_of_map_to_list.
    + apply list_elem_of_In, list_elem_of_fmap. exists rstr.
      split; [done|]. by apply elem_of_elements.
Qed.

Lemma stored_saved now name (records : Records) rows :
  stored name (db.delete_where name rows ++ db.rows_of name now records) = pairs_of records.
Proof.
  unfold stored. rewrite select_where_app, select_delete_where, select_rows_of.
  cbn [app]. apply set_eq. intros [rtype rstr].
  rewrite elem_of_pairs_of, elem_of_list_to_set, list_elem_of_fmap. split.
  - intros (row & [= -> ->] & Hrow).
    apply elem_of_rows_of in Hrow as (rtype & record_set & rstr & Hlook & Hin & ->).
    cbn. unfold get_set. by rewrite Hlook.
  - intros Hin. unfold get_set in Hin.
    destruct (records !! rtype) as [record_set|] eqn:Hlook; [|set_solver].
    exists (db.mkRow name rtype rstr now). split; [done|].
    apply elem_of_rows_of. by exists rtype, record_set, rstr.
Qed.

Lemma reload_spoke now name (records : Records) d :
  db.get_spoke_records name (db.save_spoke_records now name records d)
  = if decide (nonempty_sets records = ∅) then None else Some (nonempty_sets records).
Proof.
  unfold db.get_spoke_records, db.save_spoke_records. cbn [db.spoke_records].
  rewrite select_where_app, select_delete_where, select_rows_of. cbn [app].
  rewrite <-(group_rows_of name now records).
  destruct (db.rows_of name now records) as [|row rows].
  - by rewrite decide_True.
  - rewrite decide_False; [done|]. apply group_rows_nonempty.
Qed.

(** What the database holds once a spoke sync was recorded as a
    success. *)
Lemma succeeded_state cfg (hub_records : Records) stats (srv : DNSServer R) w :
  let w' := call_disconnect srv (succeeded cfg hub_records stats w) in
  stored (cfg_name cfg) (db.spoke_records (w_db w')) = pairs_of hub_records
  ∧ db.get_spoke_records (cfg_name cfg) (w_db w')
    = (if decide (nonempty_sets hub_records = ∅) then None
       else Some (nonempty_sets hub_records))
  ∧ db.sync_runs (w_db w') = db.sync_runs (w_db w) ++ [success_row (w_now w) cfg stats]
  ∧ w_outbox w' = w_outbox w.
Proof.
  intros w'. subst w'. cbn. split_and!; [apply stored_saved| |done|done].
  apply (reload_spoke (w_now w) (cfg_name cfg) hub_records (w_db w)).
Qed.

Lemma select_delete_other name name' rows :
  name ≠ name' →
  db.select_where name (db.delete_where name' rows) = db.select_where name rows.
Proof.
  intros Hne. unfold db.select_where, db.delete_where.
  induction rows as [|row rows IH]; [done|].
  destruct (decide (db.owner row = name)) as [Heq|Hneq].
  - rewrite (filter_cons_True (λ row, db.owner row ≠ name')) by congruence.
    rewrite !(filter_cons_True (λ row, db.owner row = name)) by done.
    by rewrite IH.
  - rewrite (filter_cons_False (λ row, db.owner row = name) row rows) by done.
    destruct (decide (db.owner row ≠ name')).
    + rewrite (filter_cons_True (λ row, db.owner row ≠ name')) by done.
      by rewrite filter_cons_False.
    + by rewrite (filter_cons_False (λ row, db.owner row ≠ name')).
Qed.

Lemma stored_other now name name' (records : Records) rows :
  name ≠ name' →
  stored name (db.delete_where name' rows ++ db.rows_of name' now records)
  = stored name rows.
Proof.
  intros Hne. unfold stored.
  by rewrite select_where_app, select_delete_other, select_other, app_nil_r.
Qed.

Lemma for_each_app {A S} (body : S → A → M R S) xs ys acc w :
  for_each (xs ++ ys) body acc w = bind (for_each xs body acc) (for_each ys body) w.
Proof.
  revert acc w. induction xs as [|x xs IH]; intros acc w; [reflexivity|].
  cbn [app for_each]. unfold bind.
  destruct (body acc x w) as [[acc'|e] w1]; [|reflexivity]. by rewrite IH.
Qed.

(** The handler of a turn, on a working database: the error row is
    written, and whatever the notifier does, nothing else changes but the
    outbox. *)
Lemma handler_frame cfg e (results : gmap string Stats) w :
  w_db_faults w = [] →
  ∃ ds,
    ((db_write (λ now, db.record_sync now (cfg_name cfg) (cfg_type cfg) "spoke"
                         empty_stats (Some (str_exn e))) ;;;
      notify_sync_failed (cfg_name cfg) (cfg_type cfg) (str_exn e) ;;;
      ret (<[cfg_name cfg := empty_stats]> results)) w).2
    = post ds (with_runs [failure_row (w_now w) cfg e] w).
Proof.
  intros Hfaults. unfold bind at 1. rewrite db_write_healthy by done.
  unfold bind.
  match goal with |- context [notify_sync_failed ?n ?t ?err ?w0] =>
    destruct (notify_sync_failed_frame n t err w0) as [ds Hds];
    destruct (notify_sync_failed n t err w0) as [[[]|e'] w2] end;
    cbn [snd] in Hds; subst w2; by exists ds.
Qed.

Lemma sync_spoke_keeps name (hub_records : Records) (results : gmap string Stats) cfg w :
  turn_keeps name hub_records w
    (sync_spoke create_server (Some hub_records) results cfg w).2.
Proof.
  intros Hfaults.
  destruct (sync_spoke create_server (Some hub_records) results cfg w) as [r w'] eqn:Hrun.
  cbn [snd]. revert Hrun. unfold sync_spoke.
  destruct (enabled cfg); cbn [negb]; [|by intros [= <- <-]].
  unfold with_server. destruct (create_server _ _ _) as [srv|e].
  - unfold try_finally, try_except. rewrite <-bind_assoc. fold (attempt srv hub_records).
    pose proof (attempt_same_store srv hub_records w) as (Hdb & Hfl & _ & _ & Hhost).
    unfold bind at 1.
    destruct (attempt srv hub_records w) as [[stats|e] w1]; cbn [snd] in Hdb, Hfl, Hhost.
    + unfold bind. rewrite db_write_healthy by (by rewrite Hfl).
      rewrite db_write_healthy by (cbn; by rewrite Hfl).
      intros [= <- <-]. cbn. split_and!; [by rewrite Hfl|done|].
      intros Hstored. rewrite Hdb.
      destruct (decide (name = cfg_name cfg)) as [->|Hne].
      * apply stored_saved.
      * rewrite <-Hstored.
        by apply (stored_other (w_now w1) name (cfg_name cfg) hub_records).
    + destruct (is_Exception e).
      * destruct (handler_frame cfg e results w1) as [ds Hds]; [by rewrite Hfl|].
        match goal with |- context [bind ?m ?k w1] =>
          destruct (bind m k w1) as [r' w2] end.
        cbn [snd] in Hds. subst w2. intros [= <- <-]. cbn. rewrite Hfl, Hdb.
        by split_and!.
      * intros [= <- <-]. cbn. rewrite Hfl, Hdb. by split_and!.
  - unfold try_except, raise. destruct (is_Exception e); [|by intros [= <- <-]].
    destruct (handler_frame cfg e results w) as [ds Hds]; [done|].
    match goal with |- context [bind ?m ?k w] =>
      destruct (bind m k w) as [r' w2] end.
    cbn [snd] in Hds. subst w2. intros [= <- <-]. by cbn.
Qed.

Lemma turns_keep name (hub_records : Records) spokes (results : gmap string Stats) w :
  turn_keeps name hub_records w
    (for_each spokes (sync_spoke create_server (Some hub_records)) results w).2.
Proof.
  apply (for_each_keeps (turn_keeps name hub_records) (λ _, True)).
  - by intros w0 Hfaults.
  - intros w1 w2 w3 H12 H23 Hfaults. destruct (H12 Hfaults) as (Hfl2 & Hhost2 & Hst2).
    destruct (H23 Hfl2) as (Hfl3 & Hhost3 & Hst3). split_and!; [done|congruence|].
    intros H. by apply Hst3, Hst2.
  - intros acc cfg w0. split; [apply sync_spoke_keeps|done].
Qed.

(** C5: when the adapter part of a spoke sync (connect, diff, apply)
    succeeded and the database works, the spoke state persisted by a turn
    of the loop of [sync_all_enabled_spokes], and by [perform_sync], is
    the hub snapshot that was applied: the stored (type, string) pairs are
    those of the hub records, whatever the spoke held before, and a
    success row closes the history.  It is still the hub snapshot when
    [sync_all_enabled_spokes] ends, whatever spokes come before and after
    in the list and however the run ends; the run returns when the
    factory and the adapters raise nothing outside [Exception] and the
    notifier does not raise for the spokes that follow. *)
Theorem persisted_spoke_state_is_hub_snapshot cfg (srv : DNSServer R) :
  enabled cfg = true →
  create_server (cfg_type cfg) (cfg_name cfg) cfg = Ok srv →
  (∀ (hub_records : Records) results w stats w1,
     w_db_faults w = [] →
     attempt srv hub_records w = (Ok stats, w1) →
     ∃ w',
       sync_spoke create_server (Some hub_records) results cfg w
       = (Ok (<[cfg_name cfg := stats]> results), w')
       ∧ stored (cfg_name cfg) (db.spoke_records (w_db w')) = pairs_of hub_records
       ∧ db.get_spoke_records (cfg_name cfg) (w_db w')
         = (if decide (nonempty_sets hub_records = ∅) then None
            else Some (nonempty_sets hub_records))
       ∧ db.sync_runs (w_db w')
         = db.sync_runs (w_db w) ++ [success_row (w_now w) cfg stats])
  ∧ (∀ hub_cfg (hub_records : Records) w w0 stats w1,
       refresh_hub_cache create_server hub_cfg w = (Ok (Some hub_records), w0) →
       w_db_faults w0 = [] →
       attempt srv hub_records w0 = (Ok stats, w1) →
       ∃ w',
         perform_sync create_server hub_cfg cfg w = (Ok stats, w')
         ∧ stored (cfg_name cfg) (db.spoke_records (w_db w')) = pairs_of hub_records
         ∧ db.get_spoke_records (cfg_name cfg) (w_db w')
           = (if decide (nonempty_sets hub_records = ∅) then None
              else Some (nonempty_sets hub_records))
         ∧ db.sync_runs (w_db w')
           = db.sync_runs (w_db w0) ++ [success_row (w_now w0) cfg stats])
  ∧ (∀ hub_cfg (hub_records : Records) before after w results_mid w_mid stats w1,
       w_db_faults w = [] →
       db.get_cached_hub_records (cfg_name hub_cfg) (w_db w) = Some hub_records →
       for_each before (sync_spoke create_server (Some hub_records)) ∅ w
       = (Ok results_mid, w_mid) →
       attempt srv hub_records w_mid = (Ok stats, w1) →
       let out :=
         sync_all_enabled_spokes create_server hub_cfg (before ++ cfg :: after) w in
       stored (cfg_name cfg) (db.spoke_records (w_db out.2)) = pairs_of hub_records
       ∧ (nonfatal_factory create_server → quiet_for (w_host w) after →
          ∃ results, out.1 = Ok results)).
Proof.
  intros Hen Hcreate. split_and!.
  - intros hub_records results w stats w1 Hfaults Hattempt.
    pose proof (attempt_same_store srv hub_records w) as (Hdb & _ & Hnow & _ & Hhost).
    rewrite Hattempt in Hdb, Hnow. cbn [snd] in Hdb, Hnow.
    eexists. split.
    { by apply sync_spoke_success. }
    destruct (succeeded_state cfg hub_records stats srv w1) as (H1 & H2 & H3 & _).
    split_and!; [done|done|]. by rewrite H3, Hdb, Hnow.
  - intros hub_cfg hub_records w w0 stats w1 Hrefresh Hfaults Hattempt.
    pose proof (attempt_same_store srv hub_records w0) as (Hdb & _ & Hnow & _ & Hhost).
    rewrite Hattempt in Hdb, Hnow. cbn [snd] in Hdb, Hnow.
    eexists. split.
    { by eapply perform_sync_success. }
    destruct (succeeded_state cfg hub_records stats srv w1) as (H1 & H2 & H3 & _).
    split_and!; [done|done|]. by rewrite H3, Hdb, Hnow.
  - intros hub_cfg hub_records before after w results_mid w_mid stats w1
      Hfaults Hcache Hbefore Hattempt out.
    destruct (turns_keep (cfg_name cfg) hub_records before ∅ w Hfaults)
      as (Hfl0 & Hhost0 & _).
    rewrite Hbefore in Hfl0, Hhost0. cbn [snd] in Hfl0, Hhost0.
    pose proof (attempt_same_store srv hub_records w_mid) as (Hdb & Hfl & _ & _ & Hhost).
    rewrite Hattempt in Hdb, Hfl, Hhost. cbn [snd] in Hdb, Hfl, Hhost.
    set (w2 := call_disconnect srv (succeeded cfg hub_records stats w1)).
    assert (out = for_each after (sync_spoke create_server (Some hub_records))
                    (<[cfg_name cfg := stats]> results_mid) w2) as ->.
    { subst out. unfold sync_all_enabled_spokes, bind at 1.
      rewrite db_read_healthy, Hcache by done.
      rewrite for_each_app. unfold bind at 1. rewrite Hbefore.
      cbn [for_each]. unfold bind at 1.
      by rewrite (sync_spoke_success _ _ _ _ srv _ stats w1). }
    assert (w_db_faults w2 = []) as Hfl2 by (subst w2; cbn; by rewrite Hfl).
    split.
    + destruct (turns_keep (cfg_name cfg) hub_records after
                  (<[cfg_name cfg := stats]> results_mid) w2 Hfl2) as (_ & _ & Hkept).
      apply Hkept. subst w2. cbn. apply stored_saved.
    + intros Hfactory Hquiet.
      destruct (for_each_isolated create_server hub_records after
                  (<[cfg_name cfg := stats]> results_mid) w2)
        as (results & w' & rows & -> & _); [done|done| |by exists results].
      subst w2. cbn. by rewrite Hhost, Hhost0.
Qed.

End spoke_state.

(** ** A failing history write *)

Section persistence.
Context {R : Type}.
Variable create_server : string → string → ServerConfig → result (DNSServer R).
Implicit Types w : World R.

(** C6, as the code has it: [record_sync] does not catch a failure of its
    own insert, the exception goes to its caller and nothing is written.
    In a turn of the loop of [sync_all_enabled_spokes] whose adapter part
    succeeded and whose spoke state was saved, an [Exception] raised by
    the success-path [record_sync] is caught by the per-spoke handler:
    on a host whose notifier does not raise, the spoke gets an error row
    with that exception's message, the sync-failed notification and
    all-zero statistics, while what was applied to the spoke and the
    saved spoke state stay.  When the handler's own [record_sync] raises
    as well, or the [record_sync] of the no-cache branch raises, the
    exception leaves [sync_all_enabled_spokes]: the last adapter call is
    the [disconnect] of the spoke at hand (no call at all in the no-cache
    branch), so the remaining spokes are not attempted. *)
Theorem history_failure_fails_the_sync cfg (srv : DNSServer R)
    (hub_records : Records) stats w w1 e :
  enabled cfg = true →
  create_server (cfg_type cfg) (cfg_name cfg) cfg = Ok srv →
  attempt srv hub_records w = (Ok stats, w1) →
  is_Exception e = true →
  (∀ f fs w0, w_db_faults w0 = Some e :: fs →
     db_write (R := R) f w0 = (Raise e, set_faults fs w0))
  ∧ (w_db_faults w = [None; Some e] →
     quiet (w_host w) (sync_failed_subject (cfg_name cfg)) →
     ∀ results, ∃ w',
       sync_spoke create_server (Some hub_records) results cfg w
       = (Ok (<[cfg_name cfg := empty_stats]> results), w')
       ∧ w_remote w' = disconnect srv (w_remote w1)
       ∧ new_runs w w' = [failure_row (w_now w) cfg e]
       ∧ w_outbox w'
         = w_outbox w
           ++ deliveries (w_host w) (w_now w)
                (sync_failed_note (w_now w) (cfg_name cfg) (cfg_type cfg) (str_exn e))
       ∧ stored (cfg_name cfg) (db.spoke_records (w_db w')) = pairs_of hub_records)
  ∧ (∀ e2 fs hub_cfg rest w0,
       db.get_cached_hub_records (cfg_name hub_cfg) (w_db w0) = Some hub_records →
       w_db_faults w0 = None :: None :: Some e :: Some e2 :: fs →
       w = set_faults (None :: Some e :: Some e2 :: fs) w0 →
       ∃ w',
         sync_all_enabled_spokes create_server hub_cfg (cfg :: rest) w0 = (Raise e2, w')
         ∧ w_remote w' = disconnect srv (w_remote w1)
         ∧ w_calls w' = w_calls w1 ++ [mkEntry (name srv) CDisconnect Returned]
         ∧ new_runs w0 w' = [])
  ∧ (∀ fs hub_cfg rest w0,
       db.get_cached_hub_records (cfg_name hub_cfg) (w_db w0) = None →
       w_db_faults w0 = None :: Some e :: fs →
       sync_all_enabled_spokes create_server hub_cfg (cfg :: rest) w0
       = (Raise e, set_faults fs w0)).
Proof.
  intros Hen Hcreate Hattempt He.
  pose proof (attempt_same_store srv hub_records w) as (Hdb & Hfl & Hnow & Hout & Hhost).
  rewrite Hattempt in Hdb, Hfl, Hnow, Hout, Hhost.
  cbn [snd] in Hdb, Hfl, Hnow, Hout, Hhost.
  split_and!.
  - intros f fs w0 Hfaults. unfold db_write. by rewrite Hfaults.
  - intros Hfaults Hquiet results.
    unfold sync_spoke, with_server. rewrite Hen, Hcreate. cbn [negb].
    unfold try_finally, try_except. rewrite <-bind_assoc. fold (attempt srv hub_records).
    unfold bind at 1. rewrite Hattempt.
    unfold bind, db_write. rewrite Hfl, Hfaults. cbn -[notify_sync_failed]. rewrite He.
    cbn -[notify_sync_failed].
    rewrite notify_sync_failed_quiet by (cbn; by rewrite Hhost).
    eexists. split; [done|]. cbn. split_and!.
    + done.
    + unfold new_runs. cbn. by rewrite Hdb, drop_app_length, Hnow.
    + by rewrite Hout, Hnow, Hhost.
    + apply stored_saved.
  - intros e2 fs hub_cfg rest w0 Hcache Hfaults Hw.
    unfold sync_all_enabled_spokes, bind at 1, db_read. rewrite Hfaults, Hcache.
    rewrite <-Hw. cbn [for_each]. unfold bind at 1.
    unfold sync_spoke, with_server. rewrite Hen, Hcreate. cbn [negb].
    unfold try_finally, try_except. rewrite <-bind_assoc. fold (attempt srv hub_records).
    unfold bind at 1. rewrite Hattempt.
    assert (w_db_faults w1 = [None; Some e; Some e2] ++ fs) as Hfl1
      by (by rewrite Hfl, Hw).
    unfold bind, db_write. rewrite Hfl1. cbn. rewrite He. cbn.
    eexists. split; [done|]. cbn. split_and!; [done|done|].
    unfold new_runs. cbn. rewrite Hdb, Hw. cbn. by rewrite drop_all.
  - intros fs hub_cfg rest w0 Hnone Hfaults.
    unfold sync_all_enabled_spokes, bind at 1, db_read. rewrite Hfaults, Hnone.
    cbn [for_each]. unfold bind, sync_spoke. rewrite Hen. cbn [negb].
    unfold bind, db_write. cbn. done.
Qed.
End persistence.

(** ** The fake servers *)

Section fakes.

Lemma valid_recordsb_spec records : valid_recordsb records = true → valid_records records.
Proof.
  unfold valid_recordsb. rewrite forallb_forall. intros Hall rtype Hty rstr Hin.
  apply list_elem_of_In in Hty. specialize (Hall rtype Hty).
  rewrite forallb_forall in Hall.
  specialize (Hall rstr). rewrite <-list_elem_of_In, elem_of_elements in Hall.
  specialize (Hall Hin). destruct (parse_record rtype rstr) as [record|]; [|done].
  by exists record.
Qed.

Lemma live_insert server_name records (remote : Fake.Remote) :
  Fake.live server_name (<[server_name := records]> remote) = records.
Proof. unfold Fake.live. by rewrite lookup_insert_eq. Qed.

Lemma fake_well_behaved server_name :
  well_behaved (Fake.server Fake.Healthy server_name) (Fake.live server_name).
Proof.
  split.
  - done.
  - intros record r. eexists. split; [done|]. apply live_insert.
  - intros record r. eexists. split; [done|]. apply live_insert.
Qed.

Lemma fake_nonfatal k server_name : nonfatal (Fake.server k server_name).
Proof.
  split.
  - intros r e. by destruct k; intros [= <-].
  - by intros r e.
  - intros record r e. cbn. unfold Fake.write.
    destruct k; try case_bool_decide; by intros [= <-].
  - intros record r e. cbn. unfold Fake.write.
    destruct k; try case_bool_decide; by intros [= <-].
Qed.

Lemma fake_nonfatal_factory : nonfatal_factory Fake.create_server.
Proof.
  intros server_type server_name cfg. unfold Fake.create_server.
  repeat case_bool_decide; try apply fake_nonfatal. done.
Qed.

Lemma fake_quiet subject : Fake.has_line_break subject = false → quiet Fake.host subject.
Proof.
  intros Hsubject. split.
  - done.
  - intros _. by exists 587%Z.
  - intros _ content. unfold email_message, Fake.host, Fake.email_message.
    by rewrite Hsubject.
Qed.

End fakes.

(** ** The statements on concrete runs *)

Section examples.
Import Fake.

Local Ltac by_computation := vm_compute; reflexivity.
Local Ltac decided :=
  match goal with |- ?P => apply (bool_decide_eq_true_1 P); by_computation end.

(** Scenario 1 and 2 of the specification at once: the spoke lacks one
    host and the alias, and holds one stale host. *)
Lemma diff_reaches_source_witness :
  ∃ stats w',
    _apply_diff hub_records (server Healthy "spoke")
                (world db.init [] {[ "spoke" := spoke_records ]}) = (Ok stats, w')
    ∧ get_set (live "spoke" (w_remote w')) "A" = get_set hub_records "A"
    ∧ get_set (live "spoke" (w_remote w')) "CNAME" = get_set hub_records "CNAME"
    ∧ get_stat stats "added" = 2
    ∧ get_stat stats "removed" = 1
    ∧ get_stat stats "conflicts" = 0.
Proof.
  assert (valid_records hub_records) as HS
    by (apply valid_recordsb_spec; by_computation).
  assert (valid_records
            (live "spoke" (w_remote (world db.init [] {[ "spoke" := spoke_records ]}))))
    as HT by (apply valid_recordsb_spec; by_computation).
  destruct (diff_reaches_source (server Healthy "spoke") (live "spoke") hub_records
              (world db.init [] {[ "spoke" := spoke_records ]})
              (fake_well_behaved "spoke") HS HT)
    as (_ & (stats & w' & Hrun & HA & HC & Hadded & Hremoved & Hconflicts) & _).
  exists stats, w'. split_and!; [exact Hrun|exact HA|exact HC| | |exact Hconflicts].
  - rewrite Hadded. by_computation.
  - rewrite Hremoved. by_computation.
Defined.

(** An exception of [add_record] does not make the spoke a failed one:
    the three additions raise, they are counted as conflicts, both
    history rows are success rows and nothing is notified. *)
Lemma add_exception_is_not_a_failed_sync :
  let out := sync_all_enabled_spokes create_server hub_cfg [raising_cfg; other_cfg]
               (world cached [] ∅) in
  count write_raised (w_calls out.2) = 3
  ∧ (λ row, (db.server_name row, db.status row, db.error row, db.conflicts row))
      <$> db.sync_runs (w_db out.2)
    = [("spoke", "success", None, 3); ("other", "success", None, 0)]
  ∧ w_outbox out.2 = [].
Proof. intros out. split_and!; by_computation. Qed.

Lemma spoke_failures_are_isolated_witness :
  ∃ results w',
    sync_all_enabled_spokes create_server hub_cfg
      [mkConfig "down" "unreachable" None; mkConfig "odd" "unknown" None;
       mkConfig "off" "healthy" (Some false); other_cfg]
      (world cached [] ∅) = (Ok results, w')
    ∧ dom results = {[ "down"; "odd"; "other" ]}
    ∧ db.server_name <$> new_runs (world cached [] ∅) w' = ["down"; "odd"; "other"].
Proof.
  destruct (spoke_failures_are_isolated create_server fake_nonfatal_factory)
    as (_ & _ & Hall).
  destruct (Hall hub_cfg
              [mkConfig "down" "unreachable" None; mkConfig "odd" "unknown" None;
               mkConfig "off" "healthy" (Some false); other_cfg]
              (world cached [] ∅) eq_refl)
    as (results & w' & Hrun & Hdom & Hrows);
    [repeat (apply Forall_cons_2; [by apply fake_quiet|]); apply Forall_nil_2|].
  exists results, w'. split_and!; [exact Hrun| |exact Hrows].
  rewrite Hdom. decided.
Defined.

(** The hub refuses the connection and the read of the cache fails: the
    failure of the read leaves [refresh_hub_cache], after the
    notification went out. *)
Lemma unreadable_cache_leaves_the_refresh :
  let out := refresh_hub_cache create_server hub_down_cfg (world cached [Some locked] ∅) in
  out.1 = Raise locked
  ∧ (λ c, (ce_server c, ce_call c, ce_outcome c)) <$> w_calls out.2
    = [("hub", CConnect, Raised refused); ("hub", CDisconnect, Returned)]
  ∧ length (w_outbox out.2) = 2.
Proof. intros out. split_and!; by_computation. Qed.

(** Scenario 3 of the specification: no cache, and the hub refuses the
    connection. *)
Lemma unreachable_hub_degrades_witness :
  ∃ w',
    refresh_hub_cache create_server hub_down_cfg (world db.init [] ∅) = (Ok None, w')
    ∧ w_outbox w'
      = [Discord "https://discord.example/hook"
                 (hub_unreachable_note now "hub" "unreachable" "connection refused") now;
         Email "mail.example" 587 (Some ("dns-sync@example", "s3cret"))
               "dns-sync@example" "ops@example" "[dns-sync] Hub unreachable: hub"
               (body (hub_unreachable_note now "hub" "unreachable" "connection refused"))]
    ∧ sync_all_enabled_spokes create_server hub_down_cfg [spoke_cfg] w'
      = (Ok (skipped_results [spoke_cfg]), with_runs (skipped_rows now [spoke_cfg]) w')
    ∧ new_calls w' (with_runs (skipped_rows now [spoke_cfg]) w') = [].
Proof.
  destruct (unreachable_hub_degrades create_server hub_down_cfg
              (server Unreachable "hub") (world db.init [] ∅) refused ∅
              eq_refl (or_introl eq_refl) eq_refl
              (fake_quiet (hub_unreachable_subject "hub") eq_refl))
    as (w' & Hrun & _ & Hout & _ & Hnone).
  destruct (Hnone eq_refl eq_refl [spoke_cfg]) as (Hsync & Hcalls & _).
  exists w'. split_and!; [exact Hrun| |exact Hsync|exact Hcalls].
  rewrite Hout. reflexivity.
Defined.

(** C4: scenario 4 of the specification on the two diff paths.  The hub
    holds two hosts, the spoke none, and the spoke answers [False] to the
    addition of one of them.  Both paths make the two [add_record] calls
    and get the same answers; [_apply_diff] reports one addition and one
    conflict, [sync_records] reports one addition and no conflict: the
    false return is counted nowhere. *)
Theorem false_add_is_counted_on_one_path_only :
  let w := world db.init [] {[ "hub" := two_hosts ]} in
  let picky := server (Picky "pi.home") "spoke" in
  let by_apply_diff := _apply_diff two_hosts picky w in
  let by_sync_records := sync_records (server Healthy "hub") picky false w in
  let tallies out :=
    (λ stats, (get_stat stats "added", get_stat stats "removed", get_stat stats "conflicts"))
      <$> returned out in
  filter (λ c, is_mutation (ce_call c) = true) (w_calls by_apply_diff.2)
  = filter (λ c, is_mutation (ce_call c) = true) (w_calls by_sync_records.2)
  ∧ count is_add_call (w_calls by_sync_records.2) = 2
  ∧ count add_true (w_calls by_sync_records.2) = 1
  ∧ count add_false (w_calls by_sync_records.2) = 1
  ∧ tallies by_apply_diff.1 = Some (1, 0, 1)
  ∧ tallies by_sync_records.1 = Some (1, 0, 0).
Proof.
  intros w picky by_apply_diff by_sync_records tallies.
  split_and!; by_computation.
Qed.

(** Scenario 4 of the specification in [_apply_diff], through the
    counts. *)
Lemma statistics_count_call_outcomes_witness :
  ∃ stats w',
    _apply_diff two_hosts (server (Picky "pi.home") "spoke") (world db.init [] ∅)
    = (Ok stats, w')
    ∧ count is_add_call (new_calls (world db.init [] ∅) w') = 2
    ∧ count add_false (new_calls (world db.init [] ∅) w') = 1
    ∧ get_stat stats "added" = 1
    ∧ get_stat stats "conflicts" = 1.
Proof.
  assert (valid_records two_hosts) as HS
    by (apply valid_recordsb_spec; by_computation).
  assert (valid_records ∅) as HT
    by (apply valid_recordsb_spec; by_computation).
  destruct (statistics_count_call_outcomes (server (Picky "pi.home") "spoke") two_hosts ∅
              (fake_nonfatal _ _) HS HT) as [Happly _].
  destruct (Happly (world db.init [] ∅) ∅)
    as (stats & w' & Hrun & Hadds & _ & Hadded & _ & Hconflicts);
    [reflexivity|].
  exists stats, w'.
  assert (w' = (_apply_diff two_hosts (server (Picky "pi.home") "spoke")
                            (world db.init [] ∅)).2) as Hw by (by rewrite Hrun).
  split_and!; [exact Hrun| | | |].
  - rewrite Hadds. by_computation.
  - rewrite Hw. by_computation.
  - rewrite Hadded, Hw. by_computation.
  - rewrite Hconflicts, Hw. by_computation.
Defined.

(** The spoke held a stale record before the sync; what is persisted is
    the hub snapshot. *)
Lemma persisted_spoke_state_witness :
  ∃ stats w',
    sync_spoke create_server (Some hub_records) ∅ spoke_cfg
               (world cached [] {[ "spoke" := spoke_records ]})
    = (Ok (<["spoke" := stats]> ∅), w')
    ∧ stored "spoke" (db.spoke_records (w_db w')) = pairs_of hub_records
    ∧ pairs_of spoke_records ≠ pairs_of hub_records.
Proof.
  destruct (persisted_spoke_state_is_hub_snapshot create_server spoke_cfg
              (server Healthy "spoke") eq_refl eq_refl) as (Hturn & _ & _).
  destruct (run_ok (attempt (server Healthy "spoke") hub_records)
                   (world cached [] {[ "spoke" := spoke_records ]}))
    as (stats & w1 & Hattempt);
    [decided|].
  destruct (Hturn hub_records ∅ (world cached [] {[ "spoke" := spoke_records ]})
                  stats w1 eq_refl Hattempt) as (w' & Hrun & Hstored & _).
  exists stats, w'. split_and!; [exact Hrun|exact Hstored|].
  apply (bool_decide_eq_false_1 (pairs_of spoke_records = pairs_of hub_records)).
  by_computation.
Defined.

(** The spoke was reconciled and its state saved, then the history
    insert failed: the run reports the spoke as failed with all-zero
    statistics; and when the insert of the error row fails as well, the
    exception leaves [sync_all_enabled_spokes] and the next spoke is not
    attempted. *)
Lemma history_failure_reaches_the_result :
  let out := sync_all_enabled_spokes create_server hub_cfg [spoke_cfg; other_cfg]
               (world cached [None; None; Some disk_full] {[ "spoke" := spoke_records ]}) in
  let out2 := sync_all_enabled_spokes create_server hub_cfg [spoke_cfg; other_cfg]
                (world cached [None; None; Some disk_full; Some locked]
                       {[ "spoke" := spoke_records ]}) in
  get_set (live "spoke" (w_remote out.2)) "A" = get_set hub_records "A"
  ∧ (λ results, (λ stats, (get_stat stats "added", get_stat stats "removed"))
                  <$> results !! "spoke") <$> returned out.1
    = Some (Some (0, 0))
  ∧ (λ row, (db.server_name row, db.status row, db.error row))
      <$> db.sync_runs (w_db out.2)
    = [("spoke", "error", Some "database or disk is full"); ("other", "success", None)]
  ∧ out2.1 = Raise locked
  ∧ get_set (live "spoke" (w_remote out2.2)) "A" = get_set hub_records "A"
  ∧ count (λ c, bool_decide (ce_server c = "other")) (w_calls out2.2) = 0
  ∧ db.sync_runs (w_db out2.2) = [].
Proof.
  intros out out2.
  split_and!;
    [decided|by_computation|by_computation|by_computation
    |decided|by_computation|by_computation].
Qed.

(** The mail is configured and [DNS_SYNC_SMTP_PORT] is set to the empty
    string: the conversion of the port raises [ValueError] before the
    [try] of [_send_email].  In [refresh_hub_cache] the exception leaves
    the handler of the unreachable hub.  In [sync_all_enabled_spokes] it
    leaves the handler of the first spoke after its error row was
    written: the spoke is not entered in a result, and the next spoke is
    not attempted. *)
Lemma missing_port_leaves_the_handlers :
  let w := set_host host_without_port (world cached [] ∅) in
  let refresh := refresh_hub_cache create_server hub_down_cfg w in
  let sync :=
    sync_all_enabled_spokes create_server hub_cfg
      [mkConfig "down" "unreachable" None; other_cfg] w in
  exn_cls <$> match refresh.1 with Raise e => Some e | Ok _ => None end = Some ValueError
  ∧ exn_cls <$> match sync.1 with Raise e => Some e | Ok _ => None end = Some ValueError
  ∧ (λ row, (db.server_name row, db.status row)) <$> db.sync_runs (w_db sync.2)
    = [("down", "error")]
  ∧ count (λ c, bool_decide (ce_server c = "other")) (w_calls sync.2) = 0
  ∧ length (w_outbox sync.2) = 1.
Proof. intros w refresh sync. split_and!; by_computation. Qed.

Lemma history_failure_witness :
  ∃ w',
    sync_spoke create_server (Some hub_records) ∅ spoke_cfg
               (world cached [None; Some disk_full] {[ "spoke" := spoke_records ]})
    = (Ok (<["spoke" := empty_stats]> ∅), w')
    ∧ new_runs (world cached [None; Some disk_full] {[ "spoke" := spoke_records ]}) w'
      = [failure_row now spoke_cfg disk_full]
    ∧ stored "spoke" (db.spoke_records (w_db w')) = pairs_of hub_records.
Proof.
  destruct (run_ok (attempt (server Healthy "spoke") hub_records)
                   (world cached [None; Some disk_full] {[ "spoke" := spoke_records ]}))
    as (stats & w1 & Hattempt);
    [decided|].
  destruct (history_failure_fails_the_sync create_server spoke_cfg
              (server Healthy "spoke") hub_records stats
              (world cached [None; Some disk_full] {[ "spoke" := spoke_records ]})
              w1 disk_full eq_refl eq_refl Hattempt eq_refl) as (_ & Hcaught & _).
  destruct (Hcaught eq_refl (fake_quiet (sync_failed_subject "spoke") eq_refl) ∅)
    as (w' & Hrun & _ & Hrows & _ & Hstored).
  exists w'. split_and!; [exact Hrun|exact Hrows|exact Hstored].
Defined.

(** The dry run of the test suite, with a stale record on the spoke. *)
Lemma dry_run_witness :
  ∃ stats w',
    sync_records (server Healthy "hub") (server Healthy "spoke") true
      (world db.init [] {[ "hub" := hub_records; "spoke" := spoke_records ]})
    = (Ok stats, w')
    ∧ ce_call <$> w_calls w' = [CGetRecords; CGetRecords]
    ∧ w_remote w' = {[ "hub" := hub_records; "spoke" := spoke_records ]}
    ∧ get_stat stats "added" = 2
    ∧ get_stat stats "removed" = 1
    ∧ get_stat stats "conflicts" = 0.
Proof.
  destruct (dry_run_makes_no_write (server Healthy "hub") (server Healthy "spoke")
              (world db.init [] {[ "hub" := hub_records; "spoke" := spoke_records ]}))
    as [_ Hstats].
  destruct (Hstats (live "hub" {[ "hub" := hub_records; "spoke" := spoke_records ]})
                   {[ "hub" := hub_records; "spoke" := spoke_records ]}
                   (live "spoke" {[ "hub" := hub_records; "spoke" := spoke_records ]})
                   {[ "hub" := hub_records; "spoke" := spoke_records ]})
    as (stats & w' & Hrun & Hcalls & Hremote & Hadded & Hremoved & Hconflicts);
    [reflexivity|reflexivity|].
  exists stats, w'. split_and!; [exact Hrun| |exact Hremote| | |exact Hconflicts].
  - transitivity
      (ce_call <$> new_calls
         (world db.init [] {[ "hub" := hub_records; "spoke" := spoke_records ]}) w');
      [reflexivity|by rewrite Hcalls].
  - rewrite Hadded. by_computation.
  - rewrite Hremoved. by_computation.
Defined.

(** A hub that answers with two empty sets. *)
Lemma empty_hub_cache_witness :
  db.get_cached_hub_records "hub" (db.save_hub_records now "hub" no_records db.init) = None
  ∧ sync_all_enabled_spokes create_server hub_cfg [spoke_cfg]
      (world (db.save_hub_records now "hub" no_records db.init) []
             {[ "spoke" := spoke_records ]})
    = (Ok (skipped_results [spoke_cfg]),
       with_runs (skipped_rows now [spoke_cfg])
         (world (db.save_hub_records now "hub" no_records db.init) []
                {[ "spoke" := spoke_records ]})).
Proof.
  destruct (empty_hub_cache_reads_as_missing now "hub" no_records db.init) as [_ Hempty].
  destruct Hempty as [Hnone Hsync].
  - intros rtype. unfold get_set, no_records.
    rewrite lookup_insert. case_decide; [done|].
    rewrite lookup_singleton. by case_decide.
  - split; [exact Hnone|].
    by apply (Hsync Remote create_server hub_cfg [spoke_cfg]).
Defined.

End examples.

(** ** The dashboard's view of the caches *)

Section cache_views.
Import db queries.

Lemma count_by_type_lookup rows : ∀ (counts : gmap string nat) rtype,
  foldl (λ counts row,
           <[record_type row := default 0 (counts !! record_type row) + 1]> counts)
        counts rows !! rtype
  = match strings_of rtype rows with
    | [] => counts !! rtype
    | strs => Some (default 0 (counts !! rtype) + length strs)
    end.
Proof.
  induction rows as [|row rows IH]; intros counts rtype; [done|].
  cbn [foldl]. rewrite IH. unfold strings_of. rewrite filter_cons.
  case_decide as Hty.
  - subst rtype. cbn [fmap list_fmap]. rewrite lookup_insert_eq. cbn [default].
    fold (strings_of (record_type row) rows).
    destruct (strings_of (record_type row) rows); cbn [length default]; f_equal.
    all: cbv [id]; lia.
  - fold (strings_of rtype rows). rewrite lookup_insert_ne by done.
    by destruct (strings_of rtype rows).
Qed.

Lemma count_by_type_spec rows rtype :
  count_by_type rows !! rtype
  = match strings_of rtype rows with
    | [] => None
    | strs => Some (length strs)
    end.
Proof.
  unfold count_by_type. rewrite count_by_type_lookup, lookup_empty.
  by destruct (strings_of rtype rows).
Qed.

Lemma group_rows_spec rows rtype :
  group_rows rows !! rtype
  = match strings_of rtype rows with
    | [] => None
    | strs => Some (list_to_set strs)
    end.
Proof.
  unfold group_rows. rewrite group_rows_lookup. unfold get_set.
  rewrite lookup_empty. cbn [default].
  destruct (strings_of rtype rows); [done|]. f_equal. set_solver.
Qed.

(** The strings of one type among the rows a save inserts: the elements
    of that type's set, each once. *)
Lemma strings_of_flat_map name now rtype (l : list (string * gset string)) :
  strings_of rtype
    (flat_map (λ '(rtype, record_set),
                 (λ rstr, mkRow name rtype rstr now) <$> elements record_set) l)
  = flat_map (λ '(rtype', record_set),
                if decide (rtype' = rtype) then elements record_set else []) l.
Proof.
  unfold strings_of. induction l as [|[rtype' record_set] l IH]; [done|].
  cbn [flat_map]. rewrite filter_app, fmap_app, IH. f_equal.
  case_decide as Hty.
  - subst rtype'. rewrite filter_all.
    + rewrite <-list_fmap_compose. apply list_fmap_id.
    + intros row Hrow. by apply list_elem_of_fmap in Hrow as (? & -> & _).
  - rewrite filter_none; [done|].
    intros row Hrow. by apply list_elem_of_fmap in Hrow as (? & -> & _).
Qed.

Lemma flat_map_pick rtype (l : list (string * gset string)) :
  NoDup l.*1 →
  flat_map (λ '(rtype', record_set),
              if decide (rtype' = rtype) then elements record_set else []) l
  = match list_to_map (M := Records) l !! rtype with
    | Some record_set => elements record_set
    | None => []
    end.
Proof.
  induction l as [|[rtype' record_set] l IH]; [done|].
  rewrite fmap_cons, NoDup_cons. intros [Hnotin Hnodup].
  cbn [flat_map list_to_map foldr]. rewrite IH by done. cbn [fst] in Hnotin.
  case_decide as Hty.
  - subst rtype'. rewrite lookup_insert_eq.
    apply not_elem_of_list_to_map_1 in Hnotin. rewrite Hnotin. apply app_nil_r.
  - by rewrite lookup_insert_ne.
Qed.

Lemma strings_of_rows_of name now (records : Records) rtype :
  strings_of rtype (rows_of name now records) = elements (get_set records rtype).
Proof.
  unfold rows_of. rewrite strings_of_flat_map, flat_map_pick
    by apply NoDup_fst_map_to_list.
  rewrite list_to_map_to_list. unfold get_set.
  destruct (records !! rtype); [done|]. cbn. by rewrite elements_empty.
Qed.

Lemma count_rows_of name now (records : Records) :
  count_by_type (rows_of name now records) = size <$> nonempty_sets records.
Proof.
  apply map_eq. intros rtype.
  rewrite count_by_type_spec, strings_of_rows_of, lookup_fmap.
  unfold nonempty_sets, get_set. rewrite map_lookup_filter.
  destruct (records !! rtype) as [record_set|] eqn:Hlook; cbn.
  - destruct (elements record_set) as [|x xs] eqn:Hel.
    + apply elements_empty_inv in Hel. apply leibniz_equiv in Hel. subst.
      by rewrite option_guard_False by (by intros []).
    + rewrite option_guard_True.
      * cbn. f_equal. unfold size, set_size. cbn. by rewrite Hel.
      * intros ->. by rewrite elements_empty in Hel.
  - by rewrite elements_empty.
Qed.

Lemma size_list_to_set_le (l : list string) :
  size (list_to_set (C := gset string) l) ≤ length l.
Proof.
  induction l as [|x l IH]; [done|].
  cbn [list_to_set length]. rewrite size_union_alt, size_singleton.
  assert (size (list_to_set (C := gset string) l ∖ {[x]}) ≤ size (list_to_set (C := gset string) l))
    by (apply subseteq_size; set_solver).
  lia.
Qed.

(** [save_hub_records] stamps the cache of its hub with the time of the
    save and leaves the stamps of the other hubs alone; no other write of
    [db.py] changes a stamp. *)
Lemma save_stamps_the_cache now hub_name (records : Records) d :
  let d' := save_hub_records now hub_name records d in
  get_cache_last_updated hub_name d' = Some now
  ∧ (∀ other, other ≠ hub_name →
       get_cache_last_updated other d' = get_cache_last_updated other d)
  ∧ ((∀ rtype, get_set records rtype = ∅) → get_cached_hub_records hub_name d' = None)
  ∧ (∀ hub now' name (records' : Records) server_type role stats error server_name,
       get_cache_last_updated hub (save_spoke_records now' name records' d)
         = get_cache_last_updated hub d
       ∧ get_cache_last_updated hub (record_sync now' name server_type role stats error d)
         = get_cache_last_updated hub d
       ∧ get_cache_last_updated hub (clear_history server_name d)
         = get_cache_last_updated hub d).
Proof.
  intros d'. subst d'. unfold get_cache_last_updated, save_hub_records. cbn.
  split_and!.
  - by rewrite lookup_insert_eq.
  - intros other Hne. by rewrite lookup_insert_ne.
  - intros Hall.
    pose proof (reload_saved now hub_name records d) as Hreload.
    unfold save_hub_records in Hreload. rewrite Hreload.
    by rewrite decide_True by by apply nonempty_sets_empty.
  - done.
Qed.

Lemma counts_after_save now name (records : Records) d :
  get_cache_record_counts name (save_hub_records now name records d)
    = size <$> nonempty_sets records
  ∧ get_spoke_record_counts name (save_spoke_records now name records d)
    = size <$> nonempty_sets records.
Proof.
  unfold get_cache_record_counts, get_spoke_record_counts,
    save_hub_records, save_spoke_records. cbn [authoritative_records spoke_records].
  rewrite !select_where_app, !select_delete_where, !select_rows_of. cbn [app].
  by rewrite count_rows_of.
Qed.

(** X2: right after a save the per-type counts are the sizes of the
    saved sets, a type with an empty set having no count at all; this
    holds for the hub cache and for the state of a spoke, whatever the
    database held before. *)
Theorem record_counts_after_save now name (records : Records) d :
  get_cache_record_counts name (save_hub_records now name records d)
    = size <$> nonempty_sets records
  ∧ get_spoke_record_counts name (save_spoke_records now name records d)
    = size <$> nonempty_sets records.
Proof. apply counts_after_save. Qed.

(** X3: on every database the counts and the cached record sets name the
    same record types, and a count is at least the number of distinct
    records of its type (rows are counted, records are collected in a
    set). *)
Theorem record_counts_cover_the_cache hub_name d :
  let counts := get_cache_record_counts hub_name d in
  let cached := default ∅ (get_cached_hub_records hub_name d) in
  dom counts = dom cached
  ∧ ∀ rtype n, counts !! rtype = Some n →
      ∃ record_set, cached !! rtype = Some record_set ∧ 1 ≤ size record_set ≤ n.
Proof.
  intros counts cached. subst counts cached.
  assert (default ∅ (get_cached_hub_records hub_name d)
          = group_rows (select_where hub_name (authoritative_records d))) as ->.
  { unfold get_cached_hub_records.
    by destruct (select_where hub_name (authoritative_records d)). }
  unfold get_cache_record_counts.
  set (rows := select_where hub_name (authoritative_records d)).
  split.
  - apply set_eq. intros rtype. rewrite !elem_of_dom.
    rewrite count_by_type_spec, group_rows_spec.
    destruct (strings_of rtype rows); [|split; eauto].
    split; intros [? ?]; done.
  - intros rtype n. rewrite count_by_type_spec, group_rows_spec.
    destruct (strings_of rtype rows) as [|str strs] eqn:Hstrs; [done|].
    intros [= <-]. eexists. split; [done|]. split.
    + assert (str ∈ list_to_set (C := gset string) (str :: strs)) as Hin by set_solver.
      destruct (decide (size (list_to_set (C := gset string) (str :: strs)) = 0)) as [Hz|]; [|lia].
      apply size_empty_inv in Hz. set_solver.
    + apply size_list_to_set_le.
Qed.

End cache_views.

(** ** The history queries *)

Section history.
Import db queries.

Lemma filter_filter_ne name other (runs : list SyncRun) :
  other ≠ name →
  filter (λ run, server_name run = other) (filter (λ run, server_name run ≠ name) runs)
  = filter (λ run, server_name run = other) runs.
Proof.
  intros Hne. induction runs as [|run runs IH]; [done|].
  destruct (decide (server_name run = name)) as [Heq|Hneq].
  - rewrite (filter_cons_False (λ run, server_name run ≠ name)) by (intros ?; done).
    rewrite (filter_cons_False (λ run, server_name run = other)) by congruence. done.
  - rewrite (filter_cons_True (λ run, server_name run ≠ name)) by done.
    rewrite !(filter_cons (λ run, server_name run = other)), IH. done.
Qed.

Lemma filter_filter_eq name (runs : list SyncRun) :
  filter (λ run, server_name run = name) (filter (λ run, server_name run ≠ name) runs) = [].
Proof.
  apply filter_none. intros run Hrun. by apply list_elem_of_filter in Hrun as [? _].
Qed.

(** X5: [clear_history] with a non-empty server name removes the rows of
    that server and nothing else: the server has no last sync any more,
    the last sync and the history of every other server are what they
    were.  With no name, or with the empty name, it removes every row.
    In both cases the hub cache, its time stamp and the spoke states are
    untouched. *)
Theorem clear_history_forgets_only_history (server : option string) d :
  let d' := clear_history server d in
  (∀ name, server = Some name → name ≠ "" →
     get_last_sync name d' = None
     ∧ (∀ limit, get_history limit (Some name) d' = [])
     ∧ ∀ other, other ≠ name →
         get_last_sync other d' = get_last_sync other d
         ∧ ∀ limit, other ≠ "" →
             get_history limit (Some other) d' = get_history limit (Some other) d)
  ∧ (server = None ∨ server = Some "" →
     sync_runs d' = [] ∧ ∀ limit name, get_history limit name d' = [])
  ∧ (∀ name, get_cached_hub_records name d' = get_cached_hub_records name d
             ∧ get_cache_last_updated name d' = get_cache_last_updated name d
             ∧ get_spoke_records name d' = get_spoke_records name d).
Proof.
  intros d'. subst d'. split_and!.
  - intros name -> Hname. destruct name as [|c name]; [done|].
    unfold get_last_sync, get_history, clear_history. cbn [sync_runs].
    rewrite filter_filter_eq. split_and!.
    + unfold sql_limit. case_bool_decide; by rewrite ?take_nil.
    + intros limit. unfold sql_limit, order_by_started_at_desc. cbn [foldl].
      case_bool_decide; by rewrite ?take_nil.
    + intros other Hne. split; [by rewrite filter_filter_ne|].
      intros limit Hother. destruct other as [|c' other]; [done|].
      by rewrite filter_filter_ne.
  - intros [-> | ->]; cbn; (split; [done|]); intros limit [[|? ?]|]; cbn;
      unfold sql_limit, order_by_started_at_desc; cbn [foldl];
      case_bool_decide; by rewrite ?take_nil.
  - done.
Qed.

Lemma elem_of_insert_desc x run sorted :
  x ∈ insert_desc run sorted ↔ x = run ∨ x ∈ sorted.
Proof.
  induction sorted as [|y sorted IH]; cbn.
  - set_solver.
  - destruct (String.ltb _ _); [set_solver|].
    rewrite !elem_of_cons, IH. naive_solver.
Qed.

Lemma elem_of_order_by x rows : x ∈ order_by_started_at_desc rows ↔ x ∈ rows.
Proof.
  unfold order_by_started_at_desc.
  induction rows as [|run rows IH] using rev_ind; [done|].
  rewrite foldl_app. cbn [foldl]. rewrite elem_of_insert_desc, IH. set_solver.
Qed.

Lemma order_by_snoc rows run :
  order_by_started_at_desc (rows ++ [run])
  = insert_desc run (order_by_started_at_desc rows).
Proof. unfold order_by_started_at_desc. by rewrite foldl_app. Qed.

Lemma insert_desc_latest run sorted :
  (∀ x, x ∈ sorted → String.ltb (started_at x) (started_at run) = true) →
  insert_desc run sorted = run :: sorted.
Proof.
  destruct sorted as [|x sorted]; [done|]. intros Hall. cbn.
  by rewrite Hall by left.
Qed.

Lemma last_sync_snoc name run runs :
  server_name run = name →
  (∀ x, x ∈ runs → server_name x = name →
        String.ltb (started_at x) (started_at run) = true) →
  head (sql_limit 1 (order_by_started_at_desc
                       (filter (λ r, server_name r = name) (runs ++ [run]))))
  = Some run.
Proof.
  intros Hname Hlater. rewrite filter_app, filter_cons_True, filter_nil by done.
  rewrite order_by_snoc, insert_desc_latest; [done|].
  intros x Hx. apply elem_of_order_by, list_elem_of_filter in Hx as [? ?]. auto.
Qed.

(** X6: a row recorded at a time later than every earlier row of its
    server is what [get_last_sync] returns for that server; the last
    sync of every other server is unchanged. *)
Theorem last_sync_is_the_row_just_recorded now name server_type role stats error d :
  (∀ run, run ∈ sync_runs d → server_name run = name →
     String.ltb (started_at run) now = true) →
  get_last_sync name (record_sync now name server_type role stats error d)
    = Some (sync_run now name server_type role stats error)
  ∧ ∀ other, other ≠ name →
      get_last_sync other (record_sync now name server_type role stats error d)
      = get_last_sync other d.
Proof.
  intros Hlater. unfold get_last_sync, record_sync. cbn [sync_runs]. split.
  - by apply last_sync_snoc.
  - intros other Hne. rewrite filter_app, filter_cons_False, filter_nil, app_nil_r; [done|].
    cbn. congruence.
Qed.

End history.

(** ** What the dashboard shows after a run *)

Section dashboard.
Context {R : Type}.
Variable create_server : string → string → ServerConfig → result (DNSServer R).
Implicit Types w : World R.
Import queries.

Lemma fetch_calls (srv : DNSServer R) w records w1 :
  fetch srv w = (Ok records, w1) →
  ∃ connected,
    w_calls w1 = w_calls w ++ [mkEntry (name srv) CConnect (ReturnedBool connected);
                               mkEntry (name srv) CGetRecords Returned].
Proof.
  unfold fetch, bind, call_connect, call_get_records. rewrite call_run.
  destruct (connect srv (w_remote w)) as [[connected|e] r1]; [|done].
  cbn [fst snd outcome_of]. rewrite call_run. cbn [w_remote set_remote log_call].
  destruct (get_records srv r1) as [[records'|e] r2]; [|done].
  intros [= <- <-]. exists connected. cbn. by rewrite <-app_assoc.
Qed.

(** The success path of the refresh never reaches the notifier. *)
Lemma refresh_success hub_cfg (srv : DNSServer R) w hub_records w1 :
  create_server (cfg_type hub_cfg) (cfg_name hub_cfg) hub_cfg = Ok srv →
  w_db_faults w = [] →
  fetch srv w = (Ok hub_records, w1) →
  refresh_hub_cache create_server hub_cfg w
  = (Ok (Some hub_records), call_disconnect srv (hub_saved hub_cfg hub_records w1)).
Proof.
  intros Hsrv Hfaults Hfetch. unfold refresh_hub_cache, with_server. rewrite Hsrv.
  unfold try_finally, try_except. rewrite <-bind_assoc. fold (fetch srv).
  pose proof (fetch_same_store srv w) as Hsame. unfold bind at 1.
  rewrite Hfetch in *. cbn [snd] in Hsame.
  unfold bind. by rewrite db_write_healthy by (by eapply healthy_after).
Qed.

(** X1: when the hub answers and the database works, [refresh_hub_cache]
    returns the records it fetched, also when the hub has none; the cache
    is stamped with the time of the refresh and holds the non-empty sets,
    so a hub without records leaves a stamped cache that reads as
    missing.  The refresh calls connect, get_records and disconnect on
    the hub, sends no notification and writes no history row. *)
Theorem successful_refresh_saves_what_it_returns hub_cfg (srv : DNSServer R)
    w hub_records w1 :
  create_server (cfg_type hub_cfg) (cfg_name hub_cfg) hub_cfg = Ok srv →
  w_db_faults w = [] →
  fetch srv w = (Ok hub_records, w1) →
  ∃ w' connected,
    refresh_hub_cache create_server hub_cfg w = (Ok (Some hub_records), w')
    ∧ get_cache_last_updated (cfg_name hub_cfg) (w_db w') = Some (w_now w)
    ∧ db.get_cached_hub_records (cfg_name hub_cfg) (w_db w')
      = (if decide (nonempty_sets hub_records = ∅) then None
         else Some (nonempty_sets hub_records))
    ∧ get_cache_record_counts (cfg_name hub_cfg) (w_db w')
      = size <$> nonempty_sets hub_records
    ∧ new_calls w w' = [mkEntry (name srv) CConnect (ReturnedBool connected);
                        mkEntry (name srv) CGetRecords Returned;
                        mkEntry (name srv) CDisconnect Returned]
    ∧ w_outbox w' = w_outbox w
    ∧ db.sync_runs (w_db w') = db.sync_runs (w_db w).
Proof.
  intros Hsrv Hfaults Hfetch.
  pose proof (fetch_same_store srv w) as Hsame. rewrite Hfetch in Hsame.
  destruct Hsame as (Hdb & _ & Hnow & Hout & _). cbn [snd] in *.
  destruct (fetch_calls srv w hub_records w1 Hfetch) as [connected Hcalls].
  eexists _, connected. split.
  { by apply refresh_success. }
  cbn. rewrite Hdb, <-Hnow. split_and!; [..|done|done].
  - apply save_stamps_the_cache.
  - apply reload_saved.
  - apply counts_after_save.
  - apply new_calls_app. cbn. rewrite Hcalls. by rewrite <-app_assoc.
Qed.

Lemma apply_diff_reports_source_sizes (S : Records) (target : DNSServer R) w stats w' :
  _apply_diff S target w = (Ok stats, w') →
  get_stat stats "a_records" = size (get_set S "A")
  ∧ get_stat stats "cname_records" = size (get_set S "CNAME").
Proof.
  unfold _apply_diff, bind.
  destruct (call_get_records target w) as [[T|e] w1]; [|done].
  destruct (for_each _ _ _ w1) as [[stats'|e] w2]; [|done].
  unfold ret. intros [= <- <-].
  by rewrite get_stat_insert_ne, !get_stat_insert_eq.
Qed.

Lemma attempt_reports_source_sizes (srv : DNSServer R) (hub_records : Records) w stats w1 :
  attempt srv hub_records w = (Ok stats, w1) →
  get_stat stats "a_records" = size (get_set hub_records "A")
  ∧ get_stat stats "cname_records" = size (get_set hub_records "CNAME").
Proof.
  unfold attempt, bind. destruct (call_connect srv w) as [[c|e] w0]; [|done].
  apply apply_diff_reports_source_sizes.
Qed.

Lemma lookup_sizes (records : Records) rtype :
  default 0 ((size <$> nonempty_sets records) !! rtype) = size (get_set records rtype).
Proof.
  rewrite lookup_fmap. unfold nonempty_sets, get_set. rewrite map_lookup_filter.
  destruct (records !! rtype) as [record_set|]; cbn; [|done].
  destruct (decide (record_set = ∅)) as [->|Hne].
  - by rewrite option_guard_False by (by intros []).
  - by rewrite option_guard_True.
Qed.

(** X4: [_apply_diff] reports as [a_records] and [cname_records] the
    sizes of the hub's sets, whatever the adapter answered to the writes;
    after a spoke sync that succeeded these two statistics, the counts of
    the history row and the per-type counts of the stored spoke state
    agree. *)
Theorem spoke_counts_match_statistics (hub_records : Records) results cfg
    (srv : DNSServer R) w stats w1 :
  w_db_faults w = [] → enabled cfg = true →
  create_server (cfg_type cfg) (cfg_name cfg) cfg = Ok srv →
  attempt srv hub_records w = (Ok stats, w1) →
  ∃ w',
    sync_spoke create_server (Some hub_records) results cfg w
    = (Ok (<[cfg_name cfg := stats]> results), w')
    ∧ get_stat stats "a_records" = size (get_set hub_records "A")
    ∧ get_stat stats "cname_records" = size (get_set hub_records "CNAME")
    ∧ default 0 (get_spoke_record_counts (cfg_name cfg) (w_db w') !! "A")
      = get_stat stats "a_records"
    ∧ default 0 (get_spoke_record_counts (cfg_name cfg) (w_db w') !! "CNAME")
      = get_stat stats "cname_records"
    ∧ ∃ row, last (db.sync_runs (w_db w')) = Some row
             ∧ db.a_records row = get_stat stats "a_records"
             ∧ db.cname_records row = get_stat stats "cname_records".
Proof.
  intros Hfaults Hen Hsrv Hattempt.
  destruct (attempt_reports_source_sizes _ _ _ _ _ Hattempt) as [Ha Hc].
  eexists. split.
  { by apply sync_spoke_success. }
  split; [done|]. split; [done|].
  cbn [call_disconnect succeeded with_runs set_remote log_call set_db w_db].
  pose proof (counts_after_save (w_now w1) (cfg_name cfg) hub_records (w_db w1))
    as [_ Hcounts].
  unfold get_spoke_record_counts in *. cbn [db.spoke_records db.save_spoke_records] in *.
  rewrite Hcounts, !lookup_sizes, Ha, Hc. split_and!; [done|done|].
  eexists. split; [apply last_snoc|]. done.
Qed.

(** X7: after a turn of the loop of [sync_all_enabled_spokes] for an
    enabled spoke, on a working database whose earlier rows for that
    spoke are older than the clock (the factory and the adapters raising
    nothing outside [Exception], the notifier not raising for the spoke),
    [get_last_sync] returns the row of this
    turn: it carries the time of the clock, its counters are the
    statistics entered in the result map for the spoke, and its status is
    "success" when it carries no error. *)
Theorem last_sync_shows_the_returned_statistics (hub_records : Records) results cfg w :
  nonfatal_factory create_server →
  w_db_faults w = [] → quiet (w_host w) (sync_failed_subject (cfg_name cfg)) →
  enabled cfg = true →
  (∀ run, run ∈ db.sync_runs (w_db w) → db.server_name run = cfg_name cfg →
     String.ltb (db.started_at run) (w_now w) = true) →
  ∃ stats w' row,
    sync_spoke create_server (Some hub_records) results cfg w
    = (Ok (<[cfg_name cfg := stats]> results), w')
    ∧ get_last_sync (cfg_name cfg) (w_db w') = Some row
    ∧ db.started_at row = w_now w
    ∧ db.added row = get_stat stats "added"
    ∧ db.removed row = get_stat stats "removed"
    ∧ db.conflicts row = get_stat stats "conflicts"
    ∧ db.a_records row = get_stat stats "a_records"
    ∧ db.cname_records row = get_stat stats "cname_records"
    ∧ (db.error row = None → db.status row = "success").
Proof.
  intros Hfactory Hfaults Hquiet Hen Hlater.
  destruct (sync_spoke_isolated create_server hub_records results cfg w
              Hfactory Hfaults Hquiet Hen)
    as (stats & w' & row & Hrun & _ & _ & Hruns & Hname & Hrow).
  exists stats, w', row. split; [done|].
  assert (db.started_at row = w_now w
          ∧ db.added row = get_stat stats "added"
          ∧ db.removed row = get_stat stats "removed"
          ∧ db.conflicts row = get_stat stats "conflicts"
          ∧ db.a_records row = get_stat stats "a_records"
          ∧ db.cname_records row = get_stat stats "cname_records"
          ∧ (db.error row = None → db.status row = "success")) as Hfields.
  { destruct (create_server _ _ _) as [srv|e].
    - destruct (attempt srv hub_records w).1 as [stats'|e].
      + by destruct Hrow as (-> & -> & _).
      + by destruct Hrow as (-> & -> & _).
    - by destruct Hrow as (-> & -> & _). }
  split; [|done]. unfold get_last_sync. rewrite Hruns.
  apply last_sync_snoc; [done|]. intros x Hx Hxn.
  destruct Hfields as [-> _]. by apply Hlater.
Qed.

End dashboard.

(** ** The writes of a diff *)

Section writes.
Context {R : Type}.
Implicit Types w : World R.

Lemma entries_called_for (target : DNSServer R) (S T : Records) rtype mk_call
    (xs : list string) (log : list CallEntry) :
  rtype ∈ ["A"; "CNAME"] →
  (∀ record, DNSRecord.type record = rtype → canonical record ∈ xs →
     called_for S T (mk_call record)) →
  Forall2 (entry_for target mk_call (λ _, True) rtype) xs log →
  Forall (λ c, called_for S T (ce_call c) ∧ ce_server c = name target) log.
Proof.
  intros Hty Hcall Hall. induction Hall as [|rstr c xs log Hentry Hall IH]; [done|].
  constructor.
  - destruct Hentry as (record & Hparse & -> & Hsrv & _).
    destruct (parse_record_ok _ _ _ Hty Hparse) as [Htype Hcanon].
    split; [|done]. apply Hcall; [done|]. rewrite Hcanon. by left.
  - apply IH. intros record Htype Hin. apply Hcall; [done|]. by right.
Qed.

(** X8: whatever the adapter answers (anything but an exception outside
    [Exception]), [_apply_diff] adds only records of the source that the
    target did not report and deletes only records the target reported
    that the source lacks; the records are A or CNAME records; every call
    goes to the target, and the database, the clock and the notification
    outbox are left alone. *)
Theorem writes_follow_the_diff (target : DNSServer R) (S T : Records) w r1 :
  nonfatal target → valid_records S → valid_records T →
  get_records target (w_remote w) = (Ok T, r1) →
  ∃ stats w',
    _apply_diff S target w = (Ok stats, w')
    ∧ Forall (λ c, called_for S T (ce_call c) ∧ ce_server c = name target)
             (new_calls w w')
    ∧ same_store w w'.
Proof.
  intros [_ _ Hnfa Hnfd] HS HT Hget.
  set (w1 := set_remote r1 (log_call (mkEntry (name target) CGetRecords Returned) w)).
  destruct (diff_loops_run target (apply_add target) (apply_remove target) tally_apply S T
              (λ _ _ _ _, True) (λ _, True)) with (stats := empty_stats) (w := w1)
    as (stats & w' & adds_a & dels_a & adds_c & dels_c
        & Hrun & Hcalls & -> & Hsame & _ & Ha & Hd & Hca & Hcd); try done.
  { intros. by apply apply_add_turn. }
  { intros. by apply apply_remove_turn. }
  eexists _, w'. split.
  { unfold _apply_diff, bind at 1, call_get_records. rewrite call_run, Hget.
    cbn [fst snd outcome_of]. fold w1.
    change (for_each _ _ empty_stats) with
      (diff_loops (apply_add target) (apply_remove target) S T empty_stats).
    unfold bind at 1. by rewrite Hrun. }
  split; [|exact Hsame].
  rewrite (new_calls_app w w'
             (mkEntry (name target) CGetRecords Returned
                :: adds_a ++ dels_a ++ adds_c ++ dels_c))
    by (rewrite Hcalls; cbn; by rewrite <-app_assoc).
  assert ("A" ∈ ["A"; "CNAME"]) as Hin_a by set_solver.
  assert ("CNAME" ∈ ["A"; "CNAME"]) as Hin_c by set_solver.
  constructor; [done|]. rewrite !Forall_app. split_and!.
  - eapply entries_called_for; [exact Hin_a| |exact Ha].
    intros record Htype Hin. cbn. rewrite Htype. split; [done|].
    unfold queued_add, to_add in Hin. set_solver.
  - eapply entries_called_for; [exact Hin_a| |exact Hd].
    intros record Htype Hin. cbn. rewrite Htype. split; [done|].
    unfold queued_remove, to_remove in Hin. set_solver.
  - eapply entries_called_for; [exact Hin_c| |exact Hca].
    intros record Htype Hin. cbn. rewrite Htype. split; [done|].
    unfold queued_add, to_add in Hin. set_solver.
  - eapply entries_called_for; [exact Hin_c| |exact Hcd].
    intros record Htype Hin. cbn. rewrite Htype. split; [done|].
    unfold queued_remove, to_remove in Hin. set_solver.
Qed.

(** A diff against a target that already holds the source's A and CNAME
    sets: one [get_records] call and nothing else. *)
Lemma apply_diff_in_sync (target : DNSServer R) (S T : Records) w r1 :
  get_records target (w_remote w) = (Ok T, r1) →
  get_set T "A" = get_set S "A" → get_set T "CNAME" = get_set S "CNAME" →
  ∃ stats,
    _apply_diff S target w
    = (Ok stats, set_remote r1 (log_call (mkEntry (name target) CGetRecords Returned) w))
    ∧ get_stat stats "added" = 0 ∧ get_stat stats "removed" = 0
    ∧ get_stat stats "conflicts" = 0.
Proof.
  intros Hget Ha Hc. eexists. split.
  - unfold _apply_diff, bind at 1, call_get_records. rewrite call_run, Hget.
    cbn [fst snd outcome_of for_each]. unfold to_add, to_remove.
    rewrite Ha, Hc, !difference_diag_L, elements_empty. cbn [for_each].
    unfold bind, ret. reflexivity.
  - rewrite !get_stat_insert_ne by done. done.
Qed.

(** X9: on an adapter on which every write succeeds, a second
    [_apply_diff] with the same source right after the first finds nothing
    to do: it calls [get_records] once, makes no write, leaves the remote
    state as it is and reports no addition, no removal and no conflict. *)
Theorem second_diff_changes_nothing (target : DNSServer R) (view : R → Records)
    (S : Records) w :
  well_behaved target view →
  valid_records S → valid_records (view (w_remote w)) →
  ∃ stats1 w1 stats2 w2,
    _apply_diff S target w = (Ok stats1, w1)
    ∧ _apply_diff S target w1 = (Ok stats2, w2)
    ∧ new_calls w1 w2 = [mkEntry (name target) CGetRecords Returned]
    ∧ w_remote w2 = w_remote w1
    ∧ get_stat stats2 "added" = 0 ∧ get_stat stats2 "removed" = 0
    ∧ get_stat stats2 "conflicts" = 0.
Proof.
  intros Hwb HS HT.
  pose proof (wb_get _ _ Hwb) as Hget.
  set (w0 := set_remote (w_remote w)
               (log_call (mkEntry (name target) CGetRecords Returned) w)).
  destruct (converging_run target view (apply_add target) (apply_remove target)
              tally_apply S (view (w_remote w))) with (stats := empty_stats) (w := w0)
    as (stats & w1 & adds_a & dels_a & adds_c & dels_c
        & Hrun & _ & _ & _ & HA & HC & _); try done.
  { intros. by apply apply_add_turn. }
  { intros. by apply apply_remove_turn. }
  destruct (apply_diff_in_sync target S (view (w_remote w1)) w1 (w_remote w1))
    as (stats2 & Hrun2 & Hzero); [apply Hget|done|done|].
  eexists _, w1, stats2, _. split.
  { unfold _apply_diff, bind at 1, call_get_records. rewrite call_run, Hget.
    cbn [fst snd outcome_of]. fold w0.
    change (for_each _ _ empty_stats) with
      (diff_loops (apply_add target) (apply_remove target) S (view (w_remote w))
                  empty_stats).
    unfold bind at 1. by rewrite Hrun. }
  split; [exact Hrun2|]. split; [by apply new_calls_app|]. done.
Qed.

End writes.

(** ** A whole sync brings the spokes to the hub *)

Section end_to_end.
Context {R : Type}.
Variable create_server : string → string → ServerConfig → result (DNSServer R).
Variable views : string → R → Records.
Implicit Types w : World R.

Lemma attempt_converges n (srv : DNSServer R) (S : Records) w :
  healthy_spoke views n srv → valid_records S →
  valid_records (views n (w_remote w)) →
  ∃ stats w1,
    attempt srv S w = (Ok stats, w1)
    ∧ in_sync views S n (w_remote w1)
    ∧ (∀ m, m ≠ n → views m (w_remote w1) = views m (w_remote w))
    ∧ get_stat stats "added"
      = size (to_add (get_set S "A") (get_set (views n (w_remote w)) "A"))
        + size (to_add (get_set S "CNAME") (get_set (views n (w_remote w)) "CNAME"))
    ∧ get_stat stats "removed"
      = size (to_remove (get_set S "A") (get_set (views n (w_remote w)) "A"))
        + size (to_remove (get_set S "CNAME") (get_set (views n (w_remote w)) "CNAME"))
    ∧ get_stat stats "conflicts" = 0.
Proof.
  intros [Hwb Hconnect Hdisc Hfadd Hfdel] HS Hvalid.
  destruct (Hconnect (w_remote w)) as (connected & r0 & Hcon & Hkeep).
  pose proof (wb_get _ _ Hwb) as Hget.
  set (wc := set_remote r0 (log_call (mkEntry (name srv) CConnect (ReturnedBool connected)) w)).
  set (w0 := set_remote r0 (log_call (mkEntry (name srv) CGetRecords Returned) wc)).
  set (T := views n (w_remote w)).
  assert (views n r0 = T) as HT0 by apply Hkeep.
  destruct (converging_run srv (views n) (apply_add srv) (apply_remove srv)
              tally_apply S T) with (stats := empty_stats) (w := w0)
    as (stats & w1 & adds_a & dels_a & adds_c & dels_c
        & Hrun & Hcalls & -> & Hsame & HA & HC & Ha & Hd & Hca & Hcd); try done.
  { intros. by apply apply_add_turn. }
  { intros. by apply apply_remove_turn. }
  destruct (diff_loops_run srv (apply_add srv) (apply_remove srv) tally_apply S T
              (λ _ _ _ r, ∀ m, m ≠ n → views m r = views m (w_remote w)) (λ _, True))
    with (stats := empty_stats) (w := w0)
    as (stats' & w1' & adds_a' & dels_a' & adds_c' & dels_c'
        & Hrun' & _ & _ & _ & Hframe & _); try done.
  { intros. by apply apply_add_turn. }
  { intros. by apply apply_remove_turn. }
  { intros record r e. by destruct (wb_add _ _ Hwb record r) as (r' & -> & _). }
  { intros record r e. by destruct (wb_delete _ _ Hwb record r) as (r' & -> & _). }
  { intros rtype _ seen rstr record r _ Hfr. split; [|done].
    intros m Hm. rewrite Hfadd by done. by apply Hfr. }
  { intros rtype _ seen rstr record r _ Hfr. split; [|done].
    intros m Hm. rewrite Hfdel by done. by apply Hfr. }
  rewrite Hrun in Hrun'. injection Hrun' as _ <-.
  eexists _, w1. split.
  { unfold attempt, bind at 1, call_connect. rewrite call_run, Hcon.
    cbn [fst snd outcome_of]. fold wc.
    unfold _apply_diff, bind at 1, call_get_records. rewrite call_run.
    cbn [w_remote wc set_remote]. rewrite Hget, HT0.
    cbn [fst snd outcome_of]. fold w0.
    change (for_each _ _ empty_stats) with
      (diff_loops (apply_add srv) (apply_remove srv) S T empty_stats).
    unfold bind at 1. by rewrite Hrun. }
  split; [by split|]. split; [done|].
  destruct (all_true_counts srv S T adds_a dels_a adds_c dels_c)
    as (Hc1 & Hc2 & Hc3 & Hc4); try done.
  destruct (tally_apply_counts (adds_a ++ dels_a ++ adds_c ++ dels_c) empty_stats)
    as (Hadded & Hremoved & Hconflicts).
  rewrite !get_stat_insert_ne by done.
  rewrite Hadded, Hremoved, Hconflicts, Hc1, Hc2, Hc3, Hc4. by cbn.
Qed.

Lemma sync_spoke_converges (hub_records : Records) results cfg (srv : DNSServer R) w :
  w_db_faults w = [] → enabled cfg = true →
  create_server (cfg_type cfg) (cfg_name cfg) cfg = Ok srv →
  healthy_spoke views (cfg_name cfg) srv → valid_records hub_records →
  valid_records (views (cfg_name cfg) (w_remote w)) →
  ∃ stats w',
    sync_spoke create_server (Some hub_records) results cfg w
    = (Ok (<[cfg_name cfg := stats]> results), w')
    ∧ w_db_faults w' = []
    ∧ in_sync views hub_records (cfg_name cfg) (w_remote w')
    ∧ (∀ m, m ≠ cfg_name cfg → views m (w_remote w') = views m (w_remote w))
    ∧ get_stat stats "conflicts" = 0
    ∧ db.sync_runs (w_db w')
      = db.sync_runs (w_db w) ++ [success_row (w_now w) cfg stats]
    ∧ w_outbox w' = w_outbox w
    ∧ w_now w' = w_now w
    ∧ db.authoritative_records (w_db w') = db.authoritative_records (w_db w).
Proof.
  intros Hfaults Hen Hsrv Hhealthy HS HT.
  destruct (attempt_converges (cfg_name cfg) srv hub_records w Hhealthy HS HT)
    as (stats & w1 & Hattempt & [HA HC] & Hframe & _ & _ & Hconf).
  pose proof (attempt_same_store srv hub_records w) as Hsame.
  rewrite Hattempt in Hsame. destruct Hsame as (Hdb & Hfl & Hnow & Hout & Hhost).
  cbn [snd] in *.
  exists stats, (call_disconnect srv (succeeded cfg hub_records stats w1)).
  split.
  { by apply sync_spoke_success. }
  pose proof (hs_disconnect _ _ _ Hhealthy) as Hdisc.
  cbn. rewrite Hfl, Hdb, Hnow, Hout. unfold in_sync. rewrite !Hdisc.
  split_and!; try done. intros m Hm. rewrite Hdisc. by apply Hframe.
Qed.

Lemma valid_in_sync (S : Records) n r :
  in_sync views S n r → valid_records S → valid_records (views n r).
Proof.
  intros [HA HC] HS rtype Hty rstr Hin. apply (HS rtype Hty).
  apply elem_of_cons in Hty as [->|Hty]; [by rewrite <-HA|].
  apply list_elem_of_singleton in Hty as ->. by rewrite <-HC.
Qed.

Lemma for_each_converges (hub_records : Records) spokes :
  valid_records hub_records →
  (∀ cfg, cfg ∈ spokes → enabled cfg = true →
     ∃ srv, create_server (cfg_type cfg) (cfg_name cfg) cfg = Ok srv
            ∧ healthy_spoke views (cfg_name cfg) srv) →
  ∀ (synced : list string) results w,
    w_db_faults w = [] →
    (∀ cfg, cfg ∈ spokes → enabled cfg = true →
       valid_records (views (cfg_name cfg) (w_remote w))) →
    (∀ n, n ∈ synced →
       in_sync views hub_records n (w_remote w)
       ∧ ∃ stats, results !! n = Some stats ∧ get_stat stats "conflicts" = 0) →
    ∃ results' w' rows,
      for_each spokes (sync_spoke create_server (Some hub_records)) results w
      = (Ok results', w')
      ∧ (∀ n, n ∈ synced ++ enabled_names spokes →
           in_sync views hub_records n (w_remote w')
           ∧ ∃ stats, results' !! n = Some stats ∧ get_stat stats "conflicts" = 0)
      ∧ db.sync_runs (w_db w') = db.sync_runs (w_db w) ++ rows
      ∧ db.server_name <$> rows = enabled_names spokes
      ∧ Forall (λ row, db.status row = "success" ∧ db.conflicts row = 0) rows
      ∧ w_outbox w' = w_outbox w
      ∧ db.authoritative_records (w_db w') = db.authoritative_records (w_db w).
Proof.
  intros HS. induction spokes as [|cfg spokes IH];
    intros Hsrv synced results w Hfaults Hvalid Hinv.
  - exists results, w, []. rewrite !app_nil_r. by split_and!.
  - cbn [for_each]. unfold bind.
    destruct (enabled cfg) eqn:Hen.
    2:{ assert (sync_spoke create_server (Some hub_records) results cfg w = (Ok results, w))
          as -> by (unfold sync_spoke; by rewrite Hen).
        destruct (IH (λ c Hc, Hsrv c (list_elem_of_further _ _ _ Hc)) synced results w)
          as (results' & w' & rows & Hrun & Hsync & Hruns & Hnames & Hrows & Hout & Hauth);
          [done|intros c Hc; apply Hvalid; by right|done|].
        exists results', w', rows. split_and!; try done.
        - unfold enabled_names. rewrite filter_cons_False by by rewrite Hen.
          exact Hsync.
        - unfold enabled_names. by rewrite filter_cons_False by by rewrite Hen. }
    destruct (Hsrv cfg) as (srv & Hcreate & Hhealthy); [by left|done|].
    destruct (sync_spoke_converges hub_records results cfg srv w)
      as (stats & w1 & -> & Hfl & Hin & Hframe & Hconf & Hruns1 & Hout1 & Hnow1 & Hauth1);
      try done.
    { apply Hvalid; [by left|done]. }
    destruct (IH (λ c Hc, Hsrv c (list_elem_of_further _ _ _ Hc))
                 (synced ++ [cfg_name cfg]) (<[cfg_name cfg := stats]> results) w1)
      as (results' & w' & rows & Hrun & Hsync & Hruns & Hnames & Hrows & Hout & Hauth);
      [done| | |].
    { intros c Hc Henc. destruct (decide (cfg_name c = cfg_name cfg)) as [->|Hne].
      - by apply (valid_in_sync hub_records).
      - rewrite Hframe by done. apply Hvalid; [by right|done]. }
    { intros n Hn. destruct (decide (n = cfg_name cfg)) as [->|Hne].
      - split; [done|]. exists stats. by rewrite lookup_insert_eq.
      - apply elem_of_app in Hn as [Hn|Hn]; [|set_solver].
        destruct (Hinv n Hn) as [[HA HC] Hres]. split.
        + unfold in_sync. by rewrite Hframe.
        + by rewrite lookup_insert_ne. }
    exists results', w', (success_row (w_now w) cfg stats :: rows).
    split; [done|]. split_and!.
    + intros n Hn. apply Hsync. unfold enabled_names in *.
      rewrite filter_cons_True in Hn by done. rewrite fmap_cons in Hn.
      rewrite <-app_assoc. exact Hn.
    + rewrite Hruns, Hruns1. by rewrite <-app_assoc.
    + unfold enabled_names. rewrite filter_cons_True by done. cbn. by rewrite Hnames.
    + constructor; [|done]. by cbn.
    + by rewrite Hout.
    + by rewrite Hauth.
Qed.

Lemma sync_all_converges hub_cfg (hub_records : Records) spokes w :
  db.get_cached_hub_records (cfg_name hub_cfg) (w_db w) = Some hub_records →
  valid_records hub_records →
  w_db_faults w = [] →
  (∀ cfg, cfg ∈ spokes → enabled cfg = true →
     valid_records (views (cfg_name cfg) (w_remote w))
     ∧ ∃ srv, create_server (cfg_type cfg) (cfg_name cfg) cfg = Ok srv
              ∧ healthy_spoke views (cfg_name cfg) srv) →
  ∃ results w',
    sync_all_enabled_spokes create_server hub_cfg spokes w = (Ok results, w')
    ∧ (∀ n, n ∈ enabled_names spokes →
         in_sync views hub_records n (w_remote w')
         ∧ ∃ stats, results !! n = Some stats ∧ get_stat stats "conflicts" = 0)
    ∧ db.server_name <$> new_runs w w' = enabled_names spokes
    ∧ Forall (λ row, db.status row = "success" ∧ db.conflicts row = 0) (new_runs w w')
    ∧ w_outbox w' = w_outbox w
    ∧ db.get_cached_hub_records (cfg_name hub_cfg) (w_db w') = Some hub_records.
Proof.
  intros Hcache HS Hfaults Hsrv.
  destruct (for_each_converges hub_records spokes HS) with (synced := @nil string)
    (results := (∅ : gmap string Stats)) (w := w)
    as (results & w' & rows & Hrun & Hsync & Hruns & Hnames & Hrows & Hout & Hauth).
  { intros cfg Hcfg Hen. by apply Hsrv. }
  { done. }
  { intros cfg Hcfg Hen. by apply Hsrv. }
  { intros n Hn. by apply elem_of_nil in Hn. }
  exists results, w'. split.
  { unfold sync_all_enabled_spokes, bind. rewrite db_read_healthy by done.
    by rewrite Hcache. }
  rewrite (new_runs_app w w' rows) by done. split_and!; try done.
  unfold db.get_cached_hub_records in *. by rewrite Hauth.
Qed.

(** X11: with an authoritative cache of parsable records, a working
    database and, for every enabled spoke, parsable records on the spoke
    and an adapter on which every call succeeds,
    [sync_all_enabled_spokes] returns and every enabled spoke
    then holds the cached A and CNAME sets; the result map has statistics
    without conflicts for each of them, the history gains one success row
    per enabled spoke, in order, no notification is sent and the cache is
    what it was. *)
Theorem sync_all_brings_every_spoke_to_the_hub hub_cfg (hub_records : Records) spokes w :
  db.get_cached_hub_records (cfg_name hub_cfg) (w_db w) = Some hub_records →
  valid_records hub_records →
  w_db_faults w = [] →
  (∀ cfg, cfg ∈ spokes → enabled cfg = true →
     valid_records (views (cfg_name cfg) (w_remote w))
     ∧ ∃ srv, create_server (cfg_type cfg) (cfg_name cfg) cfg = Ok srv
              ∧ healthy_spoke views (cfg_name cfg) srv) →
  ∃ results w',
    sync_all_enabled_spokes create_server hub_cfg spokes w = (Ok results, w')
    ∧ (∀ n, n ∈ enabled_names spokes →
         in_sync views hub_records n (w_remote w')
         ∧ ∃ stats, results !! n = Some stats ∧ get_stat stats "conflicts" = 0)
    ∧ db.server_name <$> new_runs w w' = enabled_names spokes
    ∧ Forall (λ row, db.status row = "success" ∧ db.conflicts row = 0) (new_runs w w')
    ∧ w_outbox w' = w_outbox w
    ∧ db.get_cached_hub_records (cfg_name hub_cfg) (w_db w') = Some hub_records.
Proof. apply sync_all_converges. Qed.

End end_to_end.

(** ** The sync flows of the application *)

Section app_flows.
Context {R : Type}.
Variable create_server : string → string → ServerConfig → result (DNSServer R).
Variable views : string → R → Records.
Implicit Types w : World R.
Import queries.

Lemma get_set_nonempty_sets (records : Records) rtype :
  get_set (nonempty_sets records) rtype = get_set records rtype.
Proof.
  unfold get_set, nonempty_sets. rewrite map_lookup_filter.
  destruct (records !! rtype) as [record_set|]; cbn; [|done].
  destruct (decide (record_set = ∅)) as [->|Hne].
  - by rewrite option_guard_False by (by intros []).
  - by rewrite option_guard_True.
Qed.

Lemma valid_nonempty_sets (records : Records) :
  valid_records records → valid_records (nonempty_sets records).
Proof.
  intros Hvalid rtype Hty rstr. rewrite get_set_nonempty_sets. by apply Hvalid.
Qed.

(** X10: [perform_sync] on an enabled spoke, after a hub refresh that
    returned records (parsable ones), with a working database and a spoke
    adapter on which every call succeeds: the spoke then holds the A and
    CNAME sets of the hub records, the statistics report the additions
    and removals of the diff and no conflict, a success row is written and
    no failure is notified.  In particular hub records without A and
    CNAME records leave the spoke without any. *)
Theorem perform_sync_brings_the_spoke_to_the_hub hub_cfg cfg (srv : DNSServer R)
    (hub_records : Records) w w0 :
  enabled cfg = true →
  refresh_hub_cache create_server hub_cfg w = (Ok (Some hub_records), w0) →
  w_db_faults w0 = [] →
  valid_records hub_records →
  create_server (cfg_type cfg) (cfg_name cfg) cfg = Ok srv →
  healthy_spoke views (cfg_name cfg) srv →
  valid_records (views (cfg_name cfg) (w_remote w0)) →
  let T := views (cfg_name cfg) (w_remote w0) in
  ∃ stats w',
    perform_sync create_server hub_cfg cfg w = (Ok stats, w')
    ∧ in_sync views hub_records (cfg_name cfg) (w_remote w')
    ∧ (get_set hub_records "A" = ∅ → get_set hub_records "CNAME" = ∅ →
       get_set (views (cfg_name cfg) (w_remote w')) "A" = ∅
       ∧ get_set (views (cfg_name cfg) (w_remote w')) "CNAME" = ∅
       ∧ get_stat stats "removed" = size (get_set T "A") + size (get_set T "CNAME"))
    ∧ get_stat stats "added"
      = size (get_set hub_records "A" ∖ get_set T "A")
        + size (get_set hub_records "CNAME" ∖ get_set T "CNAME")
    ∧ get_stat stats "removed"
      = size (get_set T "A" ∖ get_set hub_records "A")
        + size (get_set T "CNAME" ∖ get_set hub_records "CNAME")
    ∧ get_stat stats "conflicts" = 0
    ∧ new_runs w0 w' = [success_row (w_now w0) cfg stats]
    ∧ w_outbox w' = w_outbox w0.
Proof.
  intros Hen Hrefresh Hfaults HS Hsrv Hhealthy HT T.
  destruct (attempt_converges views (cfg_name cfg) srv hub_records w0 Hhealthy HS HT)
    as (stats & w1 & Hattempt & [HA HC] & Hframe & Hadded & Hremoved & Hconf).
  pose proof (attempt_same_store srv hub_records w0) as Hsame.
  rewrite Hattempt in Hsame. destruct Hsame as (Hdb & Hfl & Hnow & Hout & Hhost).
  cbn [snd] in *.
  pose proof (hs_disconnect _ _ _ Hhealthy) as Hdisc.
  exists stats, (call_disconnect srv (succeeded cfg hub_records stats w1)).
  split.
  { by eapply perform_sync_success. }
  assert (in_sync views hub_records (cfg_name cfg)
            (w_remote (call_disconnect srv (succeeded cfg hub_records stats w1)))) as Hin.
  { unfold in_sync. cbn. by rewrite !Hdisc. }
  split; [exact Hin|]. split_and!; try done.
  - intros Ha Hc. destruct Hin as [-> ->]. split_and!; [done|done|].
    rewrite Hremoved. unfold to_remove. fold T. rewrite Ha, Hc.
    by rewrite !difference_empty_L.
  - apply new_runs_app. cbn. by rewrite Hdb, Hnow.
Qed.

Lemma refresh_reachable hub_cfg (srv : DNSServer R) w hub_records w1 :
  create_server (cfg_type hub_cfg) (cfg_name hub_cfg) hub_cfg = Ok srv →
  w_db_faults w = [] →
  fetch srv w = (Ok hub_records, w1) →
  let w0 := call_disconnect srv (hub_saved hub_cfg hub_records w1) in
  refresh_hub_cache create_server hub_cfg w = (Ok (Some hub_records), w0)
  ∧ w_db_faults w0 = []
  ∧ db.get_cached_hub_records (cfg_name hub_cfg) (w_db w0)
    = (if decide (nonempty_sets hub_records = ∅) then None
       else Some (nonempty_sets hub_records))
  ∧ w_outbox w0 = w_outbox w
  ∧ db.sync_runs (w_db w0) = db.sync_runs (w_db w)
  ∧ w_now w0 = w_now w.
Proof.
  intros Hsrv Hfaults Hfetch w0. subst w0.
  pose proof (fetch_same_store srv w) as Hsame. rewrite Hfetch in Hsame.
  destruct Hsame as (Hdb & Hfl & Hnow & Hout & Hhost). cbn [snd] in *.
  split. { by apply refresh_success. }
  cbn. rewrite Hfl, Hout, Hdb, Hnow. split_and!; try done. apply reload_saved.
Qed.

(** X12: the startup sync with a hub that answers with parsable records,
    at least one of them, a working database and, for every enabled
    spoke, parsable records on the spoke and an adapter on which every
    call succeeds: the flow returns and
    every enabled spoke, that is every enabled server whose [sync_mode] is
    not "hub", then holds the A and CNAME sets the hub returned; only the
    first server with [sync_mode] "hub" is used as hub; no notification is
    sent. *)
Theorem startup_sync_brings_every_spoke_to_the_hub servers hub others
    (hub_srv : DNSServer R) (hub_records : Records) w w1 :
  hub_cfgs servers = hub :: others →
  create_server (cfg_type (server_cfg hub)) (cfg_name (server_cfg hub)) (server_cfg hub)
    = Ok hub_srv →
  w_db_faults w = [] →
  fetch hub_srv w = (Ok hub_records, w1) →
  valid_records hub_records → nonempty_sets hub_records ≠ ∅ →
  (∀ cfg, cfg ∈ server_cfg <$> spoke_cfgs servers → enabled cfg = true →
     valid_records (views (cfg_name cfg) (disconnect hub_srv (w_remote w1)))
     ∧ ∃ srv, create_server (cfg_type cfg) (cfg_name cfg) cfg = Ok srv
              ∧ healthy_spoke views (cfg_name cfg) srv) →
  ∃ w',
    startup_sync create_server servers w = (Ok tt, w')
    ∧ (∀ n, n ∈ enabled_names (server_cfg <$> spoke_cfgs servers) →
         in_sync views hub_records n (w_remote w'))
    ∧ db.get_cached_hub_records (cfg_name (server_cfg hub)) (w_db w')
      = Some (nonempty_sets hub_records)
    ∧ db.server_name <$> new_runs w w'
      = enabled_names (server_cfg <$> spoke_cfgs servers)
    ∧ Forall (λ row, db.status row = "success" ∧ db.conflicts row = 0) (new_runs w w')
    ∧ w_outbox w' = w_outbox w.
Proof.
  intros Hhub Hsrv Hfaults Hfetch HS Hne Hspokes.
  destruct (refresh_reachable (server_cfg hub) hub_srv w hub_records w1 Hsrv Hfaults Hfetch)
    as (Hrefresh & Hfl0 & Hcache & Hout0 & Hruns0 & Hnow0).
  rewrite decide_False in Hcache by done.
  set (w0 := call_disconnect hub_srv (hub_saved (server_cfg hub) hub_records w1)) in *.
  destruct (sync_all_converges create_server views (server_cfg hub)
              (nonempty_sets hub_records) (server_cfg <$> spoke_cfgs servers) w0)
    as (results & w' & Hrun & Hsync & Hnames & Hrows & Hout & Hcache');
    [done|by apply valid_nonempty_sets|done|done|].
  assert (new_runs w w' = new_runs w0 w') as Hnew.
  { unfold new_runs. by rewrite Hruns0. }
  exists w'. split.
  { unfold startup_sync. rewrite Hhub. unfold bind at 1. rewrite Hrefresh.
    unfold bind. by rewrite Hrun. }
  rewrite Hnew. split_and!; try done.
  - intros n Hn. destruct (Hsync n Hn) as [[HA HC] _].
    unfold in_sync in *. by rewrite !get_set_nonempty_sets in HA, HC.
  - by rewrite Hout.
Qed.

(** X13: the startup sync without a server whose [sync_mode] is "hub"
    does nothing at all.  With a hub whose connect or get_records raises
    an [Exception] and no cache to fall back on (the database working,
    the notifier not raising), it ends after the refresh: the
    hub-unreachable notification goes to the configured transports,
    the hub is disconnected, no spoke is contacted and, unlike
    [perform_sync], no history row is written. *)
Theorem startup_sync_without_hub_records servers w :
  (hub_cfgs servers = [] → startup_sync create_server servers w = (Ok tt, w))
  ∧ (∀ hub others (hub_srv : DNSServer R) e w1,
       hub_cfgs servers = hub :: others →
       create_server (cfg_type (server_cfg hub)) (cfg_name (server_cfg hub))
                     (server_cfg hub) = Ok hub_srv →
       w_db_faults w = [] →
       quiet (w_host w) (hub_unreachable_subject (cfg_name (server_cfg hub))) →
       fetch hub_srv w = (Raise e, w1) → is_Exception e = true →
       db.get_cached_hub_records (cfg_name (server_cfg hub)) (w_db w) = None →
       startup_sync create_server servers w
       = (Ok tt, call_disconnect hub_srv (hub_failed (server_cfg hub) e w1))
       ∧ w_db (call_disconnect hub_srv (hub_failed (server_cfg hub) e w1)) = w_db w
       ∧ new_calls w (call_disconnect hub_srv (hub_failed (server_cfg hub) e w1))
         = new_calls w w1 ++ [mkEntry (name hub_srv) CDisconnect Returned]
       ∧ Forall (λ c, ce_server c = name hub_srv) (new_calls w w1)).
Proof.
  split.
  - intros Hnone. unfold startup_sync. by rewrite Hnone.
  - intros hub others hub_srv e w1 Hhub Hsrv Hfaults Hquiet Hfetch He Hcache.
    pose proof (fetch_same_store hub_srv w) as Hsame. rewrite Hfetch in Hsame.
    destruct Hsame as (Hdb & Hfl & Hnow & Hout & Hhost). cbn [snd] in *.
    assert (∃ log, w_calls w1 = w_calls w ++ log
                   ∧ Forall (λ c, ce_server c = name hub_srv) log) as (log & Hlog & Hall).
    { revert Hfetch. unfold fetch, bind, call_connect, call_get_records.
      rewrite call_run.
      destruct (connect hub_srv (w_remote w)) as [[connected|e'] r1];
        cbn [fst snd outcome_of].
      - rewrite call_run. cbn [w_remote set_remote log_call].
        destruct (get_records hub_srv r1) as [[records|e'] r2]; [done|].
        intros [= <- <-]. eexists. split; [cbn; by rewrite <-app_assoc|].
        repeat constructor.
      - intros [= <- <-]. eexists. split; [done|]. repeat constructor. }
    split_and!.
    + unfold startup_sync. rewrite Hhub. unfold bind at 1.
      rewrite refresh_run by done. rewrite Hsrv, Hfetch, He, Hdb, Hcache. done.
    + cbn. done.
    + unfold new_calls. cbn. rewrite Hlog, <-app_assoc, !drop_app_length. done.
    + by rewrite (new_calls_app w w1 log).
Qed.

(** X14: the startup sync with a hub that answers without any record
    (the database working): the refresh returns the empty record sets, but
    the cache it saved reads as missing, so [sync_all_enabled_spokes]
    contacts no spoke and writes one error row per enabled spoke; the
    spokes keep what they hold. *)
Theorem startup_sync_with_an_empty_hub servers hub others (hub_srv : DNSServer R)
    (hub_records : Records) w w1 :
  hub_cfgs servers = hub :: others →
  create_server (cfg_type (server_cfg hub)) (cfg_name (server_cfg hub)) (server_cfg hub)
    = Ok hub_srv →
  w_db_faults w = [] →
  fetch hub_srv w = (Ok hub_records, w1) →
  (∀ rtype, get_set hub_records rtype = ∅) →
  let spokes := server_cfg <$> spoke_cfgs servers in
  let w0 := call_disconnect hub_srv (hub_saved (server_cfg hub) hub_records w1) in
  startup_sync create_server servers w
  = (Ok tt, with_runs (skipped_rows (w_now w) spokes) w0)
  ∧ w_remote (with_runs (skipped_rows (w_now w) spokes) w0) = disconnect hub_srv (w_remote w1)
  ∧ new_calls w1 (with_runs (skipped_rows (w_now w) spokes) w0)
    = [mkEntry (name hub_srv) CDisconnect Returned]
  ∧ new_runs w (with_runs (skipped_rows (w_now w) spokes) w0)
    = skipped_rows (w_now w) spokes
  ∧ Forall (λ row, db.status row = "error" ∧ db.error row = Some no_cache_msg)
           (skipped_rows (w_now w) spokes).
Proof.
  intros Hhub Hsrv Hfaults Hfetch Hempty spokes w0.
  destruct (refresh_reachable (server_cfg hub) hub_srv w hub_records w1 Hsrv Hfaults Hfetch)
    as (Hrefresh & Hfl0 & Hcache & Hout0 & Hruns0 & Hnow0).
  fold w0 in Hrefresh, Hfl0, Hcache, Hout0, Hruns0, Hnow0.
  rewrite decide_True in Hcache by by apply nonempty_sets_empty.
  split_and!.
  - unfold startup_sync. rewrite Hhub. unfold bind at 1. rewrite Hrefresh.
    unfold bind. rewrite (sync_all_no_cache create_server) by done.
    by rewrite Hnow0.
  - done.
  - apply new_calls_app. done.
  - apply new_runs_app. cbn. subst w0. cbn.
    pose proof (fetch_same_store hub_srv w) as Hsame. rewrite Hfetch in Hsame.
    destruct Hsame as (Hdb & _). cbn [snd] in Hdb. by rewrite Hdb.
  - apply Forall_forall. intros row Hrow.
    apply list_elem_of_fmap in Hrow as (cfg & -> & _). done.
Qed.

End app_flows.

(** ** Clearing the records of a spoke *)

Section clearing.
Context {R : Type}.
Variable create_server : string → string → ServerConfig → result (DNSServer R).
Implicit Types w : World R.

Lemma for_each_fmap {A B S} (f : A → B) (body : S → B → M R S) xs : ∀ acc w,
  for_each (f <$> xs) body acc w = for_each xs (λ acc x, body acc (f x)) acc w.
Proof.
  induction xs as [|x xs IH]; intros acc w; [done|].
  cbn [fmap list_fmap for_each]. unfold bind.
  destruct (body acc (f x) w) as [[acc'|e] w1]; [|done]. apply IH.
Qed.

Lemma for_each_pairs (body : string → nat → string → M R nat)
    (l : list (string * gset string)) : ∀ acc w,
  for_each l (λ acc '(rtype, record_set), for_each (elements record_set) (body rtype) acc)
           acc w
  = for_each (flat_map (λ '(rtype, record_set),
                          (λ rstr, (rtype, rstr)) <$> elements record_set) l)
             (λ acc '(rtype, rstr), body rtype acc rstr) acc w.
Proof.
  induction l as [|[rtype record_set] l IH]; intros acc w; [done|].
  cbn [for_each flat_map]. rewrite for_each_app. unfold bind.
  rewrite for_each_fmap.
  destruct (for_each (elements record_set) _ acc w) as [[acc'|e] w1]; [|done].
  apply IH.
Qed.

(** One turn of the deletion loop, once the string is parsed. *)
Lemma clear_record_turn (srv : DNSServer R) rtype removed rstr w record :
  parse_record rtype rstr = Ok record →
  clear_record srv rtype removed rstr w
  = let out := delete_record srv record (w_remote w) in
    let entry := mkEntry (name srv) (CDeleteRecord record) (outcome_of ReturnedBool out.1) in
    let w' := set_remote out.2 (log_call entry w) in
    match out.1 with
    | Ok true => (Ok (removed + 1), w')
    | Ok false => (Ok removed, w')
    | Raise e => if is_Exception e then (Ok removed, w') else (Raise e, w')
    end.
Proof.
  intros Hparse.
  unfold clear_record, bind, lift, try_except, call_delete_record.
  rewrite Hparse, call_run.
  destruct (delete_record srv record (w_remote w)) as [[[]|e] r']; done.
Qed.





(** The run of [_clear] once the adapter is built, connected and has
    reported its records. *)
Lemma clear_run server_name cfg (srv : DNSServer R) (T : Records) w connected r0 r1 :
  create_server (cfg_type cfg) server_name cfg = Ok srv →
  connect srv (w_remote w) = (Ok connected, r0) →
  get_records srv r0 = (Ok T, r1) →
  w_db_faults w = [] →
  let w0 := set_remote r1
              (log_call (mkEntry (name srv) CGetRecords Returned)
                 (set_remote r0
                    (log_call (mkEntry (name srv) CConnect (ReturnedBool connected)) w))) in
  ∀ removed w1,
    for_each (map_to_list T)
      (λ removed '(record_type, record_set),
         for_each (elements record_set) (clear_record srv record_type) removed) 0 w0
    = (Ok removed, w1) →
    same_store w0 w1 →
    _clear create_server server_name cfg w
    = (Ok tt,
       set_db (db.record_sync (w_now w) server_name (cfg_type cfg) "spoke"
                 (cleared_stats removed) None
                 (db.save_spoke_records (w_now w) server_name ∅ (w_db w)))
              (call_disconnect srv w1)).
Proof.
  intros Hsrv Hcon Hget Hfaults w0 removed w1 Hloop (Hdb & Hfl & Hnow & Hout & Hhost).
  cbn in Hdb, Hfl, Hnow, Hout.
  unfold _clear, bind at 1, lift. rewrite Hsrv.
  unfold bind at 1, try_finally.
  unfold bind at 1, call_connect. rewrite call_run, Hcon. cbn [fst snd outcome_of].
  unfold bind at 1, call_get_records. rewrite call_run. cbn [w_remote set_remote log_call].
  rewrite Hget. cbn [fst snd outcome_of]. fold w0. rewrite Hloop.
  unfold bind. rewrite db_write_healthy by (cbn; congruence).
  rewrite db_write_healthy by (cbn; congruence).
  cbn. rewrite Hnow, Hdb. done.
Qed.


(** The [try] block of [_clear] touches only the adapter. *)
Lemma keeps_clearing (srv : DNSServer R) :
  keeps (λ _, True)
    (call_connect srv ;;;
     let* live_records := call_get_records srv in
     for_each (map_to_list live_records)
       (λ removed '(record_type, record_set),
          for_each (elements record_set) (clear_record srv record_type) removed) 0).
Proof.
  apply keeps_bind; [by apply keeps_call|]. intros _.
  apply keeps_bind; [by apply keeps_call|]. intros T.
  apply keeps_for_each. intros removed [rtype record_set].
  apply keeps_for_each. intros removed' rstr. unfold clear_record.
  apply keeps_bind; [by apply keeps_lift|]. intros record.
  apply keeps_try_except; [|intros; apply keeps_ret].
  apply keeps_bind; [by apply keeps_call|]. intros []; apply keeps_ret.
Qed.

(** X16: a [_clear] that fails records nothing.  When the factory raises,
    the exception leaves [_clear] and nothing has happened; when connect
    or get_records raises, the exception leaves [_clear] after the adapter
    was disconnected.  However [_clear] raises on a working database (a
    record string that does not parse, an exception outside [Exception]),
    the database and the outbox are left as they were: no history row, no
    notification, and the stored state of the spoke is kept. *)
Theorem failed_clearing_records_nothing server_name cfg w :
  w_db_faults w = [] →
  (∀ e, create_server (cfg_type cfg) server_name cfg = Raise e →
     _clear create_server server_name cfg w = (Raise e, w))
  ∧ (∀ (srv : DNSServer R) e w1,
       create_server (cfg_type cfg) server_name cfg = Ok srv →
       fetch srv w = (Raise e, w1) →
       _clear create_server server_name cfg w = (Raise e, call_disconnect srv w1))
  ∧ (∀ e w', _clear create_server server_name cfg w = (Raise e, w') →
       w_db w' = w_db w ∧ w_outbox w' = w_outbox w
       ∧ ∀ srv : DNSServer R, create_server (cfg_type cfg) server_name cfg = Ok srv →
           last (w_calls w') = Some (mkEntry (name srv) CDisconnect Returned)).
Proof.
  intros Hfaults. split_and!.
  - intros e He. unfold _clear, bind, lift. by rewrite He.
  - intros srv e w1 Hsrv Hfetch. unfold _clear, bind at 1, lift. rewrite Hsrv.
    unfold bind at 1, try_finally.
    rewrite <-bind_assoc. fold (fetch srv). unfold bind at 1. by rewrite Hfetch.
  - intros e w'. unfold _clear, bind at 1, lift.
    destruct (create_server (cfg_type cfg) server_name cfg) as [srv|e0].
    2:{ intros [= <- <-]. split_and!; [done|done|]. by intros srv. }
    unfold bind at 1, try_finally.
    destruct (keeps_clearing srv w) as [(Hdb & Hfl & Hnow & Hout & Hhost) _].
    destruct ((call_connect srv;;; _) w) as [[removed|e1] w1]; cbn [snd] in *.
    + unfold bind. rewrite db_write_healthy by (cbn; congruence).
      rewrite db_write_healthy by (cbn; congruence). done.
    + intros [= <- <-]. cbn. split_and!; [done|done|].
      intros srv' [= <-]. apply last_snoc.
Qed.

Lemma elem_of_record_pairs (records : Records) rtype rstr :
  (rtype, rstr) ∈ record_pairs records ↔ rstr ∈ get_set records rtype.
Proof.
  rewrite <-elem_of_pairs_of. unfold pairs_of, record_pairs.
  by rewrite elem_of_list_to_set.
Qed.

Lemma strings_at_flat_map rtype (l : list (string * gset string)) :
  NoDup l.*1 →
  (filter (λ p : string * string, p.1 = rtype)
          (flat_map (λ '(rtype, record_set),
                       (λ rstr, (rtype, rstr)) <$> elements record_set) l)).*2
  = match list_to_map (M := Records) l !! rtype with
    | Some record_set => elements record_set
    | None => []
    end.
Proof.
  induction l as [|[rtype' record_set] l IH]; [done|].
  rewrite fmap_cons, NoDup_cons. intros [Hnotin Hnodup].
  cbn [flat_map list_to_map foldr]. rewrite filter_app, fmap_app, IH by done.
  cbn [fst] in Hnotin. destruct (decide (rtype' = rtype)) as [->|Hne].
  - rewrite lookup_insert_eq.
    apply not_elem_of_list_to_map_1 in Hnotin. rewrite Hnotin, app_nil_r.
    rewrite filter_all.
    + rewrite <-list_fmap_compose. apply list_fmap_id.
    + intros p Hp. by apply list_elem_of_fmap in Hp as (? & -> & _).
  - rewrite lookup_insert_ne by done. rewrite filter_none; [done|].
    intros p Hp. by apply list_elem_of_fmap in Hp as (? & -> & _).
Qed.

Lemma strings_at_record_pairs (records : Records) rtype :
  (filter (λ p : string * string, p.1 = rtype) (record_pairs records)).*2
  = elements (get_set records rtype).
Proof.
  unfold record_pairs. rewrite strings_at_flat_map by apply NoDup_fst_map_to_list.
  rewrite list_to_map_to_list. unfold get_set.
  destruct (records !! rtype); [done|]. cbn. by rewrite elements_empty.
Qed.

Lemma length_two_types (l : list (string * string)) :
  (∀ p, p ∈ l → p.1 ∈ ["A"; "CNAME"]) →
  length l = length (filter (λ p : string * string, p.1 = "A") l)
             + length (filter (λ p : string * string, p.1 = "CNAME") l).
Proof.
  induction l as [|p l IH]; intros Hall; [done|].
  rewrite !filter_cons. cbn [length]. rewrite IH by (intros q Hq; apply Hall; by right).
  assert (p.1 ∈ ["A"; "CNAME"]) as Hp by (apply Hall; by left).
  apply elem_of_cons in Hp as [Hp|Hp].
  - rewrite Hp. rewrite decide_True, decide_False by done. cbn. lia.
  - apply list_elem_of_singleton in Hp. rewrite Hp.
    rewrite decide_False, decide_True by done. cbn. lia.
Qed.

Lemma length_record_pairs (records : Records) :
  (∀ rtype rstr, (rtype, rstr) ∈ record_pairs records → rtype ∈ ["A"; "CNAME"]) →
  length (record_pairs records)
  = size (get_set records "A") + size (get_set records "CNAME").
Proof.
  intros Hdom. rewrite length_two_types by (intros [t s] Hp; by eapply Hdom).
  rewrite <-(length_fmap snd (filter (λ p : string * string, p.1 = "A") _)).
  rewrite <-(length_fmap snd (filter (λ p : string * string, p.1 = "CNAME") _)).
  by rewrite !strings_at_record_pairs.
Qed.

(** The deletion loops on an adapter on which every call succeeds. *)
Lemma clear_loop_healthy (views : string → R → Records) n (srv : DNSServer R) w0 :
  healthy_spoke views n srv →
  let T := views n (w_remote w0) in
  valid_records T →
  (∀ rtype rstr, (rtype, rstr) ∈ record_pairs T → rtype ∈ ["A"; "CNAME"]) →
  ∃ w1,
    for_each (map_to_list T)
      (λ removed '(record_type, record_set),
         for_each (elements record_set) (clear_record srv record_type) removed) 0 w0
    = (Ok (length (record_pairs T)), w1)
    ∧ (∀ rtype, get_set (views n (w_remote w1)) rtype = ∅)
    ∧ (∀ m, m ≠ n → views m (w_remote w1) = views m (w_remote w0)).
Proof.
  intros Hhealthy T Hvalid Hdom. rewrite for_each_pairs. fold (record_pairs T).
  pose proof (hs_behaved _ _ _ Hhealthy) as Hwb.
  destruct (for_each_inv
              (λ seen removed w,
                 (∀ rtype, get_set (views n (w_remote w)) rtype
                           = get_set T rtype
                             ∖ list_to_set (filter (λ p : string * string, p.1 = rtype)
                                                   seen).*2)
                 ∧ removed = length seen
                 ∧ ∀ m, m ≠ n → views m (w_remote w) = views m (w_remote w0))
              (λ acc '(rtype, rstr), clear_record srv rtype acc rstr)
              (record_pairs T)) with (acc := 0) (w := w0)
    as (removed & w1 & Hrun & Hsets & -> & Hframe).
  - intros seen [rtype rstr] removed w Hin (Hsets & -> & Hframe).
    pose proof (Hdom rtype rstr Hin) as Hty.
    destruct (Hvalid rtype Hty rstr) as [record Hrec].
    { by apply elem_of_record_pairs. }
    destruct (parse_record_ok _ _ _ Hty Hrec) as [Htype Hcanon].
    rewrite (clear_record_turn srv rtype _ rstr w record Hrec). cbn zeta.
    destruct (wb_delete _ _ Hwb record (w_remote w)) as (r' & Hdel & Hview).
    pose proof (hs_delete _ _ _ Hhealthy record (w_remote w)) as Hother.
    rewrite Hdel in *. cbn [fst snd] in *.
    eexists _, _. split; [done|]. cbn [w_remote set_remote log_call]. split_and!.
    + intros rtype'. rewrite Hview. unfold view_delete. rewrite Htype, Hcanon.
      rewrite filter_app, fmap_app, list_to_set_app_L.
      destruct (decide (rtype = rtype')) as [<-|Hne].
      * rewrite get_set_insert_eq, Hsets, filter_cons_True by done. set_solver.
      * rewrite get_set_insert_ne, Hsets by done.
        rewrite filter_cons_False by (cbn; congruence). set_solver.
    + rewrite length_app. cbn. lia.
    + intros m Hm. rewrite Hother by done. by apply Hframe.
  - split_and!; [|done|done]. intros rtype. cbn. set_solver.
  - exists w1. split; [done|]. split; [|done].
    intros rtype. rewrite Hsets, strings_at_record_pairs, list_to_set_elements_L.
    set_solver.
Qed.

(** X17: [_clear] on a spoke whose adapter succeeds at every call and
    which holds A and CNAME records only, all parsable, with a working
    database: it returns,
    the spoke then holds no record at all, the other servers hold what
    they held, the stored state of the spoke is dropped and the history
    gains a success row whose [removed] is the number of records the
    spoke held. *)
Theorem clearing_empties_a_healthy_spoke (views : string → R → Records)
    server_name cfg (srv : DNSServer R) w :
  create_server (cfg_type cfg) server_name cfg = Ok srv →
  healthy_spoke views server_name srv →
  let T := views server_name (w_remote w) in
  valid_records T → dom T ⊆ ({["A"; "CNAME"]} : gset string) →
  w_db_faults w = [] →
  ∃ w',
    _clear create_server server_name cfg w = (Ok tt, w')
    ∧ (∀ rtype, get_set (views server_name (w_remote w')) rtype = ∅)
    ∧ (∀ m, m ≠ server_name → views m (w_remote w') = views m (w_remote w))
    ∧ db.get_spoke_records server_name (w_db w') = None
    ∧ new_runs w w'
      = [db.sync_run (w_now w) server_name (cfg_type cfg) "spoke"
           (cleared_stats (size (get_set T "A") + size (get_set T "CNAME"))) None]
    ∧ w_outbox w' = w_outbox w.
Proof.
  intros Hsrv Hhealthy T Hvalid Hdom Hfaults.
  destruct (hs_connect _ _ _ Hhealthy (w_remote w)) as (connected & r0 & Hcon & Hkeep).
  pose proof (wb_get _ _ (hs_behaved _ _ _ Hhealthy) r0) as Hget.
  pose proof (hs_disconnect _ _ _ Hhealthy) as Hdisc.
  set (w0 := set_remote r0
               (log_call (mkEntry (name srv) CGetRecords Returned)
                  (set_remote r0
                     (log_call (mkEntry (name srv) CConnect (ReturnedBool connected)) w)))).
  assert (views server_name r0 = T) as HT by apply Hkeep.
  assert (∀ rtype rstr, (rtype, rstr) ∈ record_pairs T → rtype ∈ ["A"; "CNAME"])
    as Hpairs.
  { intros rtype rstr Hin. apply elem_of_record_pairs in Hin.
    assert (rtype ∈ dom T) as Hd.
    { apply elem_of_dom. unfold get_set in Hin.
      destruct (T !! rtype); [done|set_solver]. }
    apply Hdom in Hd. set_solver. }
  destruct (clear_loop_healthy views server_name srv w0 Hhealthy)
    as (w1 & Hloop & Hempty & Hframe).
  { change (views server_name (w_remote w0)) with (views server_name r0).
    by rewrite HT. }
  { change (views server_name (w_remote w0)) with (views server_name r0).
    by rewrite HT. }
  change (views server_name (w_remote w0)) with (views server_name r0) in Hloop.
  rewrite HT in Hloop, Hget.
  assert (same_store w0 w1) as Hsame.
  { pose proof (keeps_clearing srv w) as [Hs _]. revert Hs.
    unfold bind at 1, call_connect. rewrite call_run, Hcon. cbn [fst snd outcome_of].
    unfold bind at 1, call_get_records. rewrite call_run.
    cbn [w_remote set_remote log_call]. rewrite Hget. cbn [fst snd outcome_of].
    fold w0. rewrite Hloop. done. }
  eexists. split.
  { by apply (clear_run server_name cfg srv T w connected r0 r0). }
  destruct Hsame as (Hdb & Hfl & Hnow & Hout & Hhost). cbn in Hdb, Hfl, Hnow, Hout.
  cbn. split_and!.
  - intros rtype. by rewrite Hdisc.
  - intros m Hm. rewrite Hdisc, Hframe by done. apply Hkeep.
  - pose proof (reload_spoke (w_now w) server_name ∅ (w_db w)) as Hreload.
    rewrite decide_True in Hreload by done. exact Hreload.
  - apply new_runs_app. cbn. by rewrite length_record_pairs.
  - done.
Qed.

End clearing.

(** ** What the retry helper returns and how long it waits *)

Section retry_more.

Lemma sum_backoff k :
  foldr Z.add 0%Z (backoff k) = (Z.of_nat k * (Z.of_nat k + 1))%Z.
Proof.
  induction k as [|k IH]; [done|].
  rewrite backoff_S, foldr_app. cbn [foldr].
  assert (∀ (l : list Z) (z : Z), foldr Z.add z l = (foldr Z.add 0 l + z)%Z) as Hshift.
  { induction l as [|x l IHl]; intros z; cbn; [lia|]. rewrite IHl. lia. }
  rewrite Hshift, IH. lia.
Qed.

Lemma outcome_at_ok net k response :
  outcome_at net k = Ok response →
  net k = Ok response ∧ ¬ (400 ≤ Response.status_code response < 600)%Z.
Proof.
  unfold outcome_at, attempt_request, session_request. cbn.
  destruct (net k) as [resp|e]; [|done].
  unfold Response.raise_for_status. case_bool_decide; [done|].
  cbn. by intros [= <-].
Qed.

Lemma outcome_at_error_status net k response :
  net k = Ok response → (400 ≤ Response.status_code response < 600)%Z →
  ∃ e, outcome_at net k = Raise e ∧ is_RequestException e = true.
Proof.
  intros Hnet Hstatus. unfold outcome_at, attempt_request, session_request. cbn.
  rewrite Hnet. unfold Response.raise_for_status.
  rewrite bool_decide_eq_true_2 by done. cbn. by eexists.
Qed.

(** X18: a response [_request_with_retry] returns is the answer to its
    last request and has no 4xx or 5xx status; an answer with such a
    status counts as a failed attempt, so a server that answers every
    request with one is asked [retries] times and the [HTTPError] of the
    last answer is raised.  The time slept is [(n - 1) * n] seconds for
    [n] requests, at most [(retries - 1) * retries] in all: 6 seconds with
    the default of 3. *)
Theorem retry_returns_checked_responses (net : nat → result Response.t)
    (configured : option Z) :
  let retries := config_retries configured in
  let '(r, s) := _request_with_retry retries (mkSession net 0 []) in
  (∀ response, r = Ok (Some response) →
     net (sent s - 1) = Ok response
     ∧ ¬ (400 ≤ Response.status_code response < 600)%Z)
  ∧ ((∀ k, ∃ response, net k = Ok response
                       ∧ (400 ≤ Response.status_code response < 600)%Z) →
     (0 < retries)%Z →
     sent s = Z.to_nat retries
     ∧ ∃ e, r = Raise e ∧ is_RequestException e = true)
  ∧ foldr Z.add 0%Z (slept s) = ((Z.of_nat (sent s) - 1) * Z.of_nat (sent s))%Z
  ∧ ((0 < retries)%Z → (foldr Z.add 0 (slept s) ≤ (retries - 1) * retries)%Z)
  ∧ (configured = None → (foldr Z.add 0 (slept s) ≤ 6)%Z).
Proof.
  intros retries. unfold _request_with_retry, range.
  destruct (Z.to_nat retries) as [|m] eqn:Hn.
  { cbn. split_and!; try done; lia. }
  pose proof (retry_loop_spec retries net m 0) as H.
  change (backoff 0) with (@nil Z) in H.
  destruct (retry_loop retries (Z.of_nat <$> seq 0 (S m)) (mkSession net 0 []))
    as [r s].
  destruct H as (Hsent & Hslept & Hprev & Hr); [lia|intros j Hj; lia|].
  assert (foldr Z.add 0%Z (slept s) = ((Z.of_nat (sent s) - 1) * Z.of_nat (sent s))%Z)
    as Hsum.
  { rewrite Hslept, sum_backoff. replace (Z.of_nat (sent s - 1)) with (Z.of_nat (sent s) - 1)%Z
      by lia. lia. }
  split_and!.
  - intros response ->. by apply outcome_at_ok.
  - intros Hall Hpos. destruct r as [[response|]|e]; [|done|].
    + apply outcome_at_ok in Hr as [Hnet Hstatus].
      destruct (Hall (sent s - 1)) as (response' & Hnet' & Hstatus').
      rewrite Hnet in Hnet'. injection Hnet' as <-. done.
    + destruct Hr as [Hout Hlast].
      destruct (Hall (sent s - 1)) as (response & Hnet & Hstatus).
      destruct (outcome_at_error_status net _ response Hnet Hstatus) as (e' & Hout' & He').
      rewrite Hout in Hout'. injection Hout' as <-.
      destruct Hlast as [Hlast|Hlast]; [congruence|].
      split; [congruence|]. by exists e.
  - exact Hsum.
  - intros Hpos. rewrite Hsum. nia.
  - intros ->. rewrite Hsum. subst retries. unfold config_retries in *. cbn in *. nia.
Qed.

End retry_more.

(** ** Strings of the adapters *)

Section adapter_strings.
Import DNSRecord.

Lemma contains_nil c sep : contains (String c sep) "" = false.
Proof. done. Qed.

Lemma contains_char_cons c a s :
  contains (String c "") (String a s) = Ascii.eqb c a || contains (String c "") s.
Proof.
  unfold contains. cbn. destruct (Ascii.eqb c a); [done|].
  by destruct (partition_at (String c "") s) as [[? ?]|].
Qed.

Lemma str_split_nonempty c s : str_split c s ≠ [].
Proof.
  destruct s as [|a s]; [done|]. cbn.
  destruct (Ascii.eqb a c); [done|]. by destruct (str_split c s).
Qed.

Lemma str_split_no_sep c s :
  contains (String c "") s = false → str_split c s = [s].
Proof.
  induction s as [|a s IH]; [done|].
  rewrite contains_char_cons. intros [Hne Hs]%orb_false_iff.
  cbn. rewrite Ascii.eqb_sym, Hne. by rewrite IH.
Qed.

Lemma str_split_app c a b :
  contains (String c "") a = false →
  str_split c (a +:+ String c b) = a :: str_split c b.
Proof.
  induction a as [|x a IH].
  - intros _. change ("" +:+ String c b) with (String c b). cbn.
    by rewrite Ascii.eqb_refl.
  - rewrite contains_char_cons. intros [Hne Ha]%orb_false_iff.
    rewrite append_String. cbn. rewrite Ascii.eqb_sym, Hne. by rewrite IH.
Qed.

Lemma str_join_split c s : str_join (String c "") (str_split c s) = s.
Proof.
  induction s as [|a s IH]; [done|]. cbn.
  destruct (Ascii.eqb a c) eqn:E.
  - apply Ascii.eqb_eq in E as ->.
    pose proof (str_split_nonempty c s) as Hne.
    destruct (str_split c s) as [|part parts]; [done|].
    cbn [str_join] in *. by rewrite IH.
  - pose proof (str_split_nonempty c s) as Hne.
    destruct (str_split c s) as [|part [|part' parts]]; [done|..].
    + cbn in *. by rewrite IH.
    + cbn [str_join] in *. rewrite append_String. by rewrite IH.
Qed.

(** X19: [_extract_zone] returns what follows the first dot of the
    domain, with a dot appended, and the whole domain with a dot
    appended when it has no dot: the zone of [nas.home] is [home.], that
    of [nas] is [nas.]. *)
Theorem extracted_zone_drops_the_first_label :
  (∀ label rest, contains "." label = false →
     Technitium._extract_zone (label +:+ "." +:+ rest) = rest +:+ ".")
  ∧ (∀ domain, contains "." domain = false →
       Technitium._extract_zone domain = domain +:+ ".").
Proof.
  split.
  - intros label rest Hlabel. unfold Technitium._extract_zone.
    change ("." +:+ rest) with (String "." rest).
    rewrite str_split_app by done.
    pose proof (str_split_nonempty "." rest) as Hne.
    rewrite bool_decide_eq_true_2
      by (cbn; destruct (str_split "." rest); [done|cbn; lia]).
    cbn [drop]. rewrite drop_0. by rewrite str_join_split.
  - intros domain Hdomain. unfold Technitium._extract_zone.
    rewrite str_split_no_sep by done.
    by rewrite bool_decide_eq_false_2 by (cbn; lia).
Qed.

Lemma append_assoc a b c : (a +:+ b) +:+ c = a +:+ (b +:+ c).
Proof.
  induction a as [|x a IH]; [done|]. by rewrite !append_String, IH.
Qed.

Lemma contains_app sep a b : contains sep (a +:+ sep +:+ b) = true.
Proof.
  unfold contains. by destruct (partition_at_app sep a b) as [[a' b'] ->].
Qed.

Lemma str_split_two c s :
  contains (String c "") s = true → ∃ a b rest, str_split c s = a :: b :: rest.
Proof.
  induction s as [|x s IH]; [done|].
  rewrite contains_char_cons. cbn. rewrite (Ascii.eqb_sym x c).
  destruct (Ascii.eqb c x); cbn.
  - intros _. pose proof (str_split_nonempty c s).
    destruct (str_split c s) as [|b rest]; [done|]. by eexists _, _, _.
  - intros Hs. destruct (IH Hs) as (a & b & rest & ->). by eexists _, _, _.
Qed.

Lemma elem_of_a_records hosts : ∀ (acc : gset string) host,
  host ∈ foldl (λ a_records host,
                  if contains " " host then a_records ∪ {[host]} else a_records)
               acc hosts
  ↔ host ∈ acc ∨ (host ∈ hosts ∧ contains " " host = true).
Proof.
  induction hosts as [|h hosts IH]; intros acc host; cbn [foldl].
  - rewrite elem_of_nil. split; [by left|]. by intros [?|[[] _]].
  - rewrite IH, elem_of_cons. destruct (contains " " h) eqn:E.
    + rewrite elem_of_union, elem_of_singleton. split.
      * intros [[?| ->]|[? ?]]; [by left|right|right]; split; auto.
      * intros [?|[[ -> |?] ?]]; [by left; left|by left; right|by right].
    + split.
      * intros [?|[? ?]]; [by left|right]; split; auto.
      * intros [?|[[ -> |?] ?]]; [by left|congruence|by right].
Qed.

Lemma cname_records_shape cnames : ∀ acc : gset string,
  (∀ x, x ∈ acc → ∃ domain target, x = domain +:+ " -> " +:+ target) →
  ∃ cname_records : gset string,
    foldl (λ acc cname,
             match acc with
             | Raise e => Raise e
             | Ok cname_records =>
                 if contains "," cname then
                   match DNSRecord.unpack2 (take 2 (str_split "," cname)) with
                   | Ok (domain, target) =>
                       Ok (cname_records ∪ {[domain +:+ " -> " +:+ target]})
                   | Raise e => Raise e
                   end
                 else Ok cname_records
             end)
          (Ok acc) cnames = Ok cname_records
    ∧ ∀ x, x ∈ cname_records → ∃ domain target, x = domain +:+ " -> " +:+ target.
Proof.
  induction cnames as [|cname cnames IH]; intros acc Hacc; cbn [foldl].
  - by exists acc.
  - destruct (contains "," cname) eqn:E; [|by apply IH].
    destruct (str_split_two _ _ E) as (a & b & rest & ->). cbn.
    apply IH. intros x [Hx|Hx]%elem_of_union; [by apply Hacc|].
    apply elem_of_singleton in Hx as ->. by eexists _, _.
Qed.

(** X20: whatever strings the [hosts] and [cnameRecords] arrays hold,
    the loops of the Pi-hole [get_records] raise nothing and return an A
    set and a CNAME set whose strings all parse: the A set holds the
    hosts that contain a space, as they are, and every CNAME string is
    built as [domain -> target]. *)
Theorem pihole_reports_parsable_records hosts cnames :
  ∃ records,
    PiHole.records_of hosts cnames = Ok records
    ∧ valid_records records
    ∧ dom records = {[ "A"; "CNAME" ]}
    ∧ ∀ host, host ∈ get_set records "A" ↔ host ∈ hosts ∧ contains " " host = true.
Proof.
  unfold PiHole.records_of, PiHole.cname_records.
  destruct (cname_records_shape cnames ∅) as (cname_set & -> & Hshape); [set_solver|].
  eexists. split; [done|]. split_and!.
  - intros rtype Hty rstr.
    apply elem_of_cons in Hty as [->|Hty].
    + unfold get_set. rewrite lookup_insert_eq. cbn.
      unfold PiHole.a_records. rewrite elem_of_a_records.
      intros [?|[_ Hsp]]; [set_solver|].
      unfold parse_record, from_a_string, split1. cbn.
      unfold contains in Hsp.
      destruct (partition_at " " rstr) as [[a b]|]; [|done]. by eexists.
    + apply list_elem_of_singleton in Hty as ->.
      unfold get_set. rewrite lookup_insert_ne, lookup_singleton_eq by done. cbn.
      intros Hin. destruct (Hshape _ Hin) as (domain & target & ->).
      destruct (from_cname_string_valid domain target) as (r & Hr & _).
      exists r. unfold parse_record. by rewrite bool_decide_eq_false_2.
  - rewrite dom_insert_L, dom_singleton_L. set_solver.
  - intros host. unfold get_set. rewrite lookup_insert_eq. cbn.
    unfold PiHole.a_records. rewrite elem_of_a_records. set_solver.
Qed.

(** X21: the entry under which the Pi-hole [add_record] files a CNAME
    record, read back by the loop of [get_records], is the canonical
    string of the record, provided neither the domain nor the target
    holds a comma; a third field after a second comma, such as a TTL, is
    dropped. *)
Theorem pihole_cname_entry_reads_back (record : DNSRecord.t) :
  contains "," (domain record) = false →
  contains "," (value record) = false →
  PiHole.cname_records [PiHole.cname_entry record] = Ok {[ to_cname_format record ]}
  ∧ ∀ ttl, PiHole.cname_records [PiHole.cname_entry record +:+ "," +:+ ttl]
           = Ok {[ to_cname_format record ]}.
Proof.
  intros Hd Hv. unfold PiHole.cname_records, PiHole.cname_entry, to_cname_format.
  cbn [foldl]. split.
  - rewrite contains_app.
    change ("," +:+ value record) with (String "," (value record)).
    rewrite str_split_app, str_split_no_sep by done. cbn.
    f_equal. set_solver.
  - intros ttl. rewrite !append_assoc, contains_app.
    change ("," +:+ value record +:+ "," +:+ ttl)
      with (String "," (value record +:+ String "," ttl)).
    rewrite !str_split_app by done. cbn. f_equal. set_solver.
Qed.

Lemma partition_at_first c sep a b :
  contains (String c "") a = false →
  partition_at (String c sep) (a +:+ String c sep +:+ b) = Some (a, b).
Proof.
  induction a as [|x a IH].
  - intros _. change ("" +:+ String c sep +:+ b) with (String c sep +:+ b).
    rewrite append_String. cbn. by rewrite Ascii.eqb_refl, strip_prefix_app.
  - rewrite contains_char_cons. intros [Hne Ha]%orb_false_iff.
    rewrite append_String. cbn. rewrite Hne. by rewrite IH.
Qed.

Lemma partition_at_leftmost c s a b :
  partition_at (String c "") s = Some (a, b) → contains (String c "") a = false.
Proof.
  revert a b. induction s as [|x s IH]; intros a b; [done|]. cbn.
  destruct (Ascii.eqb c x) eqn:E.
  - by intros [= <- <-].
  - destruct (partition_at (String c "") s) as [[a' b']|] eqn:E'; [|done].
    intros [= <- <-]. rewrite contains_char_cons, E. cbn. by eapply IH.
Qed.

(** X22: formatting a record and parsing the string back.  An A record
    comes back with its domain and value, and without TTL, exactly when
    its value holds no space; a CNAME record comes back so when its
    domain holds no space.  The canonical string carries no TTL, so a
    record with a TTL never comes back unchanged. *)
Theorem record_survives_its_canonical_string (record : DNSRecord.t) :
  (from_a_string (to_a_format record) = Ok (mk (domain record) (value record) "A" None)
   ↔ contains " " (value record) = false)
  ∧ (contains " " (domain record) = false →
     from_cname_string (to_cname_format record)
     = Ok (mk (domain record) (value record) "CNAME" None))
  ∧ (ttl record ≠ None →
     from_a_string (to_a_format record) ≠ Ok record
     ∧ from_cname_string (to_cname_format record) ≠ Ok record).
Proof.
  split_and!.
  - unfold from_a_string, to_a_format, split1. split.
    + destruct (partition_at " " (value record +:+ " " +:+ domain record))
        as [[a b]|] eqn:E; [|done].
      cbn. intros [= -> ->]. by apply partition_at_leftmost in E.
    + intros Hv. by rewrite (partition_at_first " " "" _ _ Hv).
  - intros Hd. unfold from_cname_string, to_cname_format, split1.
    by rewrite (partition_at_first " " "-> " _ _ Hd).
  - intros Httl. split.
    + unfold from_a_string. destruct (unpack2 _) as [[ip dom]|e]; [|done].
      intros [= Heq]. destruct record. cbn in *. by injection Heq as _ _ _ <-.
    + unfold from_cname_string. destruct (unpack2 _) as [[dom target]|e]; [|done].
      intros [= Heq]. destruct record. cbn in *. by injection Heq as _ _ _ <-.
Qed.

End adapter_strings.

(** ** The configuration manager *)

Section configuration.
Context {V : Type} `{EqDecision V}.
Import ConfigManager.
Implicit Types (c : ConfigManager.t V) (s : gmap string V).













End configuration.

(** ** Loading the credentials of an adapter *)

Section loading.
Context {Other : Type}.
Variable get_credential : string → string → result (option string).
Import DNSRecord.

Lemma contains_cons_false old c s :
  contains old (String c s) = false →
  strip_prefix old (String c s) = None ∧ contains old s = false.
Proof.
  unfold contains. cbn [partition_at].
  destruct (strip_prefix old (String c s)); [done|].
  by destruct (partition_at old s) as [[? ?]|].
Qed.

Lemma remove_all_go_absent old s : ∀ fuel,
  contains old s = false → remove_all_go fuel old s = s.
Proof.
  induction s as [|c s IH]; intros [|fuel] Hs; try done.
  - cbn. unfold contains in Hs. cbn in Hs. by destruct (strip_prefix old "").
  - destruct (contains_cons_false _ _ _ Hs) as [Hstrip Hrest].
    cbn [remove_all_go]. rewrite Hstrip. by rewrite IH.
Qed.

Lemma remove_all_prefix c old ref :
  contains (String c old) ref = false →
  remove_all (String c old) (String c old +:+ ref) = ref.
Proof.
  intros Href. unfold remove_all. rewrite append_String.
  cbn [String.length remove_all_go]. rewrite <-append_String, strip_prefix_app.
  by apply remove_all_go_absent.
Qed.

Lemma load_plain name (auth : list (string * auth_value Other)) :
  (∀ field value, (field, value) ∈ auth → plain_value value) →
  (∀ field, field ∈ auth.*1 → ∃ cred, get_credential name field = Ok cred) →
  ∀ credentials : gmap string (auth_value Other),
    ∃ credentials',
      foldl (λ acc '(field, value),
               match acc with
               | Raise e => Raise e
               | Ok credentials => load_field get_credential name credentials field value
               end)
            (Ok credentials) auth = Ok credentials'
      ∧ dom credentials' = dom credentials ∪ list_to_set auth.*1
      ∧ (∀ field, field ∉ auth.*1 → credentials' !! field = credentials !! field)
      ∧ (NoDup auth.*1 →
         ∀ field value, (field, value) ∈ auth →
           ∃ cred, get_credential name field = Ok cred
                   ∧ credentials' !! field
                     = Some (if truthy cred then AuthStr (default "" cred) else value)).
Proof.
  induction auth as [|[field value] auth IH]; intros Hplain Hstore credentials.
  - exists credentials. split_and!; [done|set_solver|done|].
    intros _ field value Hin. by apply elem_of_nil in Hin.
  - cbn [foldl].
    destruct (Hstore field) as [cred Hcred]; [cbn; by left|].
    assert (load_field get_credential name credentials field value
            = Ok (<[field := if truthy cred then AuthStr (default "" cred) else value]>
                    credentials)) as ->.
    { pose proof (Hplain field value) as Hp. unfold load_field.
      destruct value as [v|o]; [|by rewrite Hcred].
      unfold plain_value in Hp. rewrite Hp by by left. by rewrite Hcred. }
    destruct (IH (λ f v Hin, Hplain f v (list_elem_of_further _ _ _ Hin))
                 (λ f Hin, Hstore f (list_elem_of_further _ _ _ Hin))
                 (<[field := if truthy cred then AuthStr (default "" cred) else value]>
                    credentials))
      as (credentials' & Hrun & Hdom & Hother & Hall).
    exists credentials'. split; [done|]. split_and!.
    + rewrite Hdom, dom_insert_L. cbn. set_solver.
    + intros f Hf. cbn in Hf. apply not_elem_of_cons in Hf as [Hne Hf].
      rewrite Hother by done. by rewrite lookup_insert_ne.
    + cbn [fmap list_fmap fst]. rewrite NoDup_cons. intros [Hnotin Hnodup] f v Hin.
      apply elem_of_cons in Hin as [[= -> ->]|Hin].
      * exists cred. split; [done|]. rewrite Hother by done. by rewrite lookup_insert_eq.
      * by apply Hall.
Qed.

(** X26: credentials of an [auth] section without legacy references,
    with a secrets manager that does not raise: every field of the section
    gets a credential, and no other name does; the credential is the
    value the secrets manager holds for the field when that is a
    non-empty string, and the value of the section otherwise.  A legacy
    reference [encrypted:<ref>] is looked up under [ref] and filed under
    [ref], not under its own field; when the secrets manager has nothing
    for [ref], no credential is set at all. *)
Theorem credentials_prefer_the_secrets_manager name :
  (∀ auth : list (string * auth_value Other),
     NoDup auth.*1 →
     (∀ field value, (field, value) ∈ auth → plain_value value) →
     (∀ field, field ∈ auth.*1 → ∃ cred, get_credential name field = Ok cred) →
     ∃ credentials,
       _load_credentials get_credential name auth = Ok credentials
       ∧ dom credentials = list_to_set auth.*1
       ∧ ∀ field value, (field, value) ∈ auth →
           ∃ cred, get_credential name field = Ok cred
                   ∧ credentials !! field
                     = Some (if truthy cred then AuthStr (default "" cred) else value))
  ∧ (∀ field ref,
       contains "encrypted:" ref = false →
       _load_credentials (Other := Other) get_credential name
         [(field, AuthStr ("encrypted:" +:+ ref))]
       = match get_credential name ref with
         | Raise e => Raise e
         | Ok cred =>
             Ok (if truthy cred then {[ ref := AuthStr (default "" cred) ]} else ∅)
         end).
Proof.
  split.
  - intros auth Hnodup Hplain Hstore.
    destruct (load_plain name auth Hplain Hstore ∅)
      as (credentials & Hrun & Hdom & _ & Hall).
    exists credentials. split; [done|]. split; [|by apply Hall].
    rewrite Hdom, dom_empty_L. set_solver.
  - intros field ref Href. unfold _load_credentials. cbn [foldl]. unfold load_field.
    rewrite strip_prefix_app, (remove_all_prefix "e" "ncrypted:" ref Href).
    destruct (get_credential name ref) as [cred|e]; [|done].
    by destruct (truthy cred).
Qed.

End loading.

(** ** Dispatching a notification *)

Section dispatching.
Context {R : Type}.
Implicit Types w : World R.

(** X27: [_dispatch] with transports that raise nothing outside
    [Exception].  The webhook is tried exactly when its URL is set; the
    mail is considered exactly when the SMTP host and the recipient are
    set; with neither, nothing is sent.  No failure of a transport leaves
    [_dispatch].  What leaves it is raised before the mail is tried, by
    the two steps that are outside the [try]: the conversion of
    [DNS_SYNC_SMTP_PORT] to an integer and the construction of the
    message.  Nothing but the outbox changes. *)
Theorem dispatch_swallows_transport_failures subject body color w :
  (∀ d e, transport (w_host w) d = Raise e → is_Exception e = true) →
  let h := w_host w in
  let discord := nonempty (environ_get h "DNS_SYNC_DISCORD_WEBHOOK_URL" "") in
  ∃ sent,
    _dispatch subject body color w
    = ((if mail_configured h then prepared h subject body else Ok tt), post sent w)
    ∧ length (filter (λ d, is_discord d = true) sent) = (if discord then 1 else 0)
    ∧ length (filter (λ d, is_email d = true) sent)
      = (if mail_configured h
         then match prepared h subject body with Raise _ => 0 | Ok _ => 1 end
         else 0)
    ∧ (discord = false → mail_configured h = false → sent = []).
Proof.
  intros Hnf h discord. subst h discord.
  unfold _dispatch, bind at 1 2 3, getenv, prepared.
  fold (mail_configured (w_host w)).
  destruct (nonempty (environ_get (w_host w) "DNS_SYNC_DISCORD_WEBHOOK_URL" "")).
  - unfold bind at 1, _send_discord, bind at 1, _now.
    rewrite deliver_caught by (intros e; apply Hnf). cbn [w_host post].
    destruct (mail_configured (w_host w)); [|by eexists].
    unfold _send_email, bind, getenv, host_call. cbn [w_host post].
    fold (mail_sender (w_host w)).
    destruct (int _ _) as [smtp_port|e]; [|by eexists].
    destruct (email_message _ _ _ _ _) as [[]|e]; [|by eexists].
    rewrite deliver_caught by (intros e; apply Hnf). rewrite post_post.
    by eexists.
  - unfold bind at 1, ret at 1.
    destruct (mail_configured (w_host w)); [|exists []; by rewrite post_nil].
    unfold _send_email, bind, getenv, host_call.
    fold (mail_sender (w_host w)).
    destruct (int _ _) as [smtp_port|e]; [|exists []; by rewrite post_nil].
    destruct (email_message _ _ _ _ _) as [[]|e]; [|exists []; by rewrite post_nil].
    rewrite deliver_caught by (intros e; apply Hnf).
    by eexists.
Qed.

End dispatching.

(** ** Facts about the fake servers and the scenarios *)

Section example_helpers.
Import Fake Scenario queries.

Lemma fake_healthy_spoke server_name :
  healthy_spoke live server_name (server Healthy server_name).
Proof.
  split.
  - apply fake_well_behaved.
  - intros r. by exists true, r.
  - done.
  - intros record r m Hm. cbn. unfold live. by rewrite lookup_insert_ne.
  - intros record r m Hm. cbn. unfold live. by rewrite lookup_insert_ne.
Qed.

Lemma run_returned {R A} (m : M R A) (w : World R) a :
  returned (m w).1 = Some a → m w = (Ok a, (m w).2).
Proof. destruct (m w) as [[a'|e] w']; [by intros [= ->]|done]. Qed.


End example_helpers.

(** ** The further statements on concrete runs *)

Section more_examples.
Import Fake Scenario queries.

Local Ltac by_computation := vm_compute; reflexivity.
Local Ltac decided :=
  match goal with |- ?P => apply (bool_decide_eq_true_1 P); by_computation end.

Lemma successful_refresh_witness :
  ∃ w' connected,
    refresh_hub_cache create_server hub_cfg (world db.init [] remote)
    = (Ok (Some hub_records), w')
    ∧ get_cache_last_updated "hub" (w_db w') = Some now
    ∧ new_calls (world db.init [] remote) w'
      = [mkEntry "hub" CConnect (ReturnedBool connected);
         mkEntry "hub" CGetRecords Returned;
         mkEntry "hub" CDisconnect Returned].
Proof.
  assert (fetch (server Healthy "hub") (world db.init [] remote)
          = (Ok hub_records, (fetch (server Healthy "hub") (world db.init [] remote)).2))
    as Hfetch by (apply run_returned; decided).
  destruct (successful_refresh_saves_what_it_returns create_server hub_cfg
              (server Healthy "hub") (world db.init [] remote) hub_records _
              eq_refl eq_refl Hfetch)
    as (w' & connected & Hrun & Hstamp & _ & _ & Hcalls & _).
  exists w', connected. split; [exact Hrun|]. split; [exact Hstamp|exact Hcalls].
Defined.

Lemma record_counts_cover_the_cache_witness :
  ∃ record_set,
    default ∅ (db.get_cached_hub_records "hub" cached) !! "A" = Some record_set
    ∧ 1 ≤ size record_set ≤ 2.
Proof.
  destruct (record_counts_cover_the_cache "hub" cached) as [_ Hcount].
  apply (Hcount "A" 2). by_computation.
Defined.

(** The spoke held a stale record; the counts shown for it afterwards
    are those of the hub. *)
Lemma spoke_counts_match_statistics_witness :
  ∃ stats w',
    sync_spoke create_server (Some hub_records) ∅ spoke_cfg (world cached [] remote)
    = (Ok (<[cfg_name spoke_cfg := stats]> ∅), w')
    ∧ get_stat stats "a_records" = 2
    ∧ default 0 (get_spoke_record_counts (cfg_name spoke_cfg) (w_db w') !! "A")
      = get_stat stats "a_records".
Proof.
  destruct (run_ok (attempt (server Healthy "spoke") hub_records) (world cached [] remote))
    as (stats & w1 & Hattempt); [decided|].
  destruct (spoke_counts_match_statistics create_server hub_records ∅ spoke_cfg
              (server Healthy "spoke") (world cached [] remote) stats w1
              eq_refl eq_refl eq_refl Hattempt)
    as (w' & Hrun & Ha & _ & Hcount & _).
  exists stats, w'. split; [exact Hrun|]. split; [|exact Hcount].
  rewrite Ha. by_computation.
Defined.

Lemma clear_history_witness :
  get_last_sync "spoke" (clear_history (Some "spoke") synced_yesterday) = None
  ∧ db.get_cached_hub_records "hub" (clear_history (Some "spoke") synced_yesterday)
    = db.get_cached_hub_records "hub" synced_yesterday.
Proof.
  destruct (clear_history_forgets_only_history (Some "spoke") synced_yesterday)
    as (Hnamed & _ & Hkept).
  destruct (Hnamed "spoke" eq_refl) as (Hlast & _); [discriminate|].
  destruct (Hkept "hub") as (Hcache & _).
  split; [exact Hlast|exact Hcache].
Defined.

Lemma last_sync_is_the_row_just_recorded_witness :
  get_last_sync "spoke"
    (db.record_sync now "spoke" "healthy" "spoke" empty_stats (Some "timeout")
                    synced_yesterday)
  = Some (db.sync_run now "spoke" "healthy" "spoke" empty_stats (Some "timeout")).
Proof.
  apply (last_sync_is_the_row_just_recorded now "spoke" "healthy" "spoke" empty_stats
           (Some "timeout") synced_yesterday).
  intros run Hrun _. apply list_elem_of_singleton in Hrun as ->. by_computation.
Defined.

Lemma last_sync_shows_the_returned_statistics_witness :
  ∃ stats w' row,
    sync_spoke create_server (Some hub_records) ∅ spoke_cfg
               (world synced_yesterday [] remote)
    = (Ok (<[cfg_name spoke_cfg := stats]> ∅), w')
    ∧ get_last_sync (cfg_name spoke_cfg) (w_db w') = Some row
    ∧ db.started_at row = w_now (world synced_yesterday [] remote)
    ∧ db.added row = get_stat stats "added".
Proof.
  destruct (last_sync_shows_the_returned_statistics create_server hub_records ∅ spoke_cfg
              (world synced_yesterday [] remote) fake_nonfatal_factory eq_refl
              (fake_quiet (sync_failed_subject "spoke") eq_refl) eq_refl)
    as (stats & w' & row & Hrun & Hlast & Hnow & Hadded & _).
  { intros run Hrun _. apply list_elem_of_singleton in Hrun as ->. by_computation. }
  exists stats, w', row.
  split; [exact Hrun|]. split; [exact Hlast|]. split; [exact Hnow|exact Hadded].
Defined.

(** Every write raises: the three additions and the removal are still
    the ones the diff calls for. *)
Lemma writes_follow_the_diff_witness :
  ∃ stats w',
    _apply_diff hub_records (server Raising "spoke") (world db.init [] remote)
    = (Ok stats, w')
    ∧ Forall (λ c, called_for hub_records spoke_records (ce_call c)
                   ∧ ce_server c = name (server Raising "spoke"))
             (new_calls (world db.init [] remote) w').
Proof.
  assert (valid_records hub_records) as HS
    by (apply valid_recordsb_spec; by_computation).
  assert (valid_records spoke_records) as HT
    by (apply valid_recordsb_spec; by_computation).
  destruct (writes_follow_the_diff (server Raising "spoke") hub_records spoke_records
              (world db.init [] remote) remote (fake_nonfatal _ _) HS HT eq_refl)
    as (stats & w' & Hrun & Hcalls & _).
  exists stats, w'. split; [exact Hrun|exact Hcalls].
Defined.

Lemma second_diff_changes_nothing_witness :
  ∃ stats1 w1 stats2 w2,
    _apply_diff hub_records (server Healthy "spoke") (world db.init [] remote)
    = (Ok stats1, w1)
    ∧ _apply_diff hub_records (server Healthy "spoke") w1 = (Ok stats2, w2)
    ∧ new_calls w1 w2 = [mkEntry (name (server Healthy "spoke")) CGetRecords Returned]
    ∧ get_stat stats2 "added" = 0 ∧ get_stat stats2 "removed" = 0.
Proof.
  assert (valid_records hub_records) as HS
    by (apply valid_recordsb_spec; by_computation).
  assert (valid_records (live "spoke" (w_remote (world db.init [] remote)))) as HT
    by (apply valid_recordsb_spec; by_computation).
  destruct (second_diff_changes_nothing (server Healthy "spoke") (live "spoke")
              hub_records (world db.init [] remote) (fake_well_behaved "spoke") HS HT)
    as (stats1 & w1 & stats2 & w2 & Hrun1 & Hrun2 & Hcalls & _ & Hadded & Hremoved & _).
  exists stats1, w1, stats2, w2.
  split; [exact Hrun1|]. split; [exact Hrun2|]. split; [exact Hcalls|].
  split; [exact Hadded|exact Hremoved].
Defined.

Lemma sync_all_brings_every_spoke_to_the_hub_witness :
  ∃ results w',
    sync_all_enabled_spokes create_server hub_cfg [spoke_cfg; other_cfg]
                            (world cached [] remote)
    = (Ok results, w')
    ∧ in_sync live hub_records "spoke" (w_remote w')
    ∧ in_sync live hub_records "other" (w_remote w')
    ∧ w_outbox w' = w_outbox (world cached [] remote).
Proof.
  destruct (sync_all_brings_every_spoke_to_the_hub create_server live hub_cfg hub_records
              [spoke_cfg; other_cfg] (world cached [] remote))
    as (results & w' & Hrun & Hsync & _ & _ & Hout & _).
  - by_computation.
  - apply valid_recordsb_spec. by_computation.
  - reflexivity.
  - intros cfg Hin _.
    apply elem_of_cons in Hin as [->|Hin];
      [|apply list_elem_of_singleton in Hin as ->].
    + split; [apply valid_recordsb_spec; by_computation|].
      exists (server Healthy "spoke"). split; [reflexivity|apply fake_healthy_spoke].
    + split; [apply valid_recordsb_spec; by_computation|].
      exists (server Healthy "other"). split; [reflexivity|apply fake_healthy_spoke].
  - destruct (Hsync "spoke") as [Hspoke _]; [decided|].
    destruct (Hsync "other") as [Hother _]; [decided|].
    exists results, w'.
    split; [exact Hrun|]. split; [exact Hspoke|]. split; [exact Hother|exact Hout].
Defined.

Lemma perform_sync_brings_the_spoke_to_the_hub_witness :
  ∃ stats w',
    perform_sync create_server hub_cfg spoke_cfg (world db.init [] remote) = (Ok stats, w')
    ∧ in_sync live hub_records (cfg_name spoke_cfg) (w_remote w')
    ∧ get_stat stats "conflicts" = 0.
Proof.
  assert (fetch (server Healthy "hub") (world db.init [] remote)
          = (Ok hub_records, (fetch (server Healthy "hub") (world db.init [] remote)).2))
    as Hfetch by (apply run_returned; decided).
  destruct (refresh_reachable create_server hub_cfg (server Healthy "hub")
              (world db.init [] remote) hub_records _ eq_refl eq_refl Hfetch)
    as (Hrefresh & Hfaults & _).
  destruct (perform_sync_brings_the_spoke_to_the_hub create_server live hub_cfg spoke_cfg
              (server Healthy "spoke") hub_records (world db.init [] remote) _
              eq_refl Hrefresh Hfaults)
    as (stats & w' & Hrun & Hsync & _ & _ & _ & Hconflicts & _).
  - apply valid_recordsb_spec. by_computation.
  - reflexivity.
  - apply fake_healthy_spoke.
  - apply valid_recordsb_spec. by_computation.
  - exists stats, w'. split; [exact Hrun|]. split; [exact Hsync|exact Hconflicts].
Defined.

Lemma startup_sync_brings_every_spoke_to_the_hub_witness :
  ∃ w',
    startup_sync create_server servers (world db.init [] remote) = (Ok tt, w')
    ∧ in_sync live hub_records "spoke" (w_remote w')
    ∧ in_sync live hub_records "other" (w_remote w')
    ∧ w_outbox w' = w_outbox (world db.init [] remote).
Proof.
  assert (fetch (server Healthy "hub") (world db.init [] remote)
          = (Ok hub_records, (fetch (server Healthy "hub") (world db.init [] remote)).2))
    as Hfetch by (apply run_returned; decided).
  destruct (startup_sync_brings_every_spoke_to_the_hub create_server live servers
              (mkServerEntry hub_cfg (Some "hub")) [] (server Healthy "hub") hub_records
              (world db.init [] remote) _ eq_refl eq_refl eq_refl Hfetch)
    as (w' & Hrun & Hsync & _ & _ & _ & Hout).
  - apply valid_recordsb_spec. by_computation.
  - apply (bool_decide_eq_false_1 (nonempty_sets hub_records = ∅)). by_computation.
  - intros cfg Hin _.
    apply elem_of_cons in Hin as [->|Hin];
      [|apply list_elem_of_singleton in Hin as ->].
    + split; [apply valid_recordsb_spec; by_computation|].
      exists (server Healthy "spoke"). split; [reflexivity|apply fake_healthy_spoke].
    + split; [apply valid_recordsb_spec; by_computation|].
      exists (server Healthy "other"). split; [reflexivity|apply fake_healthy_spoke].
  - destruct (Hsync "spoke") as [HA HC]; [decided|].
    destruct (Hsync "other") as [HA' HC']; [decided|].
    exists w'. split; [exact Hrun|]. split; [exact (conj HA HC)|].
    split; [exact (conj HA' HC')|exact Hout].
Defined.

Lemma startup_sync_without_hub_records_witness :
  startup_sync create_server [mkServerEntry spoke_cfg (Some "spoke")]
               (world db.init [] remote)
  = (Ok tt, world db.init [] remote)
  ∧ ∃ w',
      startup_sync create_server servers_hub_down (world db.init [] remote) = (Ok tt, w')
      ∧ w_db w' = w_db (world db.init [] remote)
      ∧ Forall (λ c, ce_server c = name (server Unreachable "hub"))
               (new_calls (world db.init [] remote)
                  (fetch (server Unreachable "hub") (world db.init [] remote)).2).
Proof.
  split.
  - destruct (startup_sync_without_hub_records create_server
                [mkServerEntry spoke_cfg (Some "spoke")] (world db.init [] remote))
      as [Hnone _].
    apply Hnone. reflexivity.
  - destruct (startup_sync_without_hub_records create_server servers_hub_down
                (world db.init [] remote)) as [_ Hdown].
    destruct (Hdown (mkServerEntry hub_down_cfg (Some "hub")) []
                    (server Unreachable "hub") refused
                    (fetch (server Unreachable "hub") (world db.init [] remote)).2
                    eq_refl eq_refl eq_refl
                    (fake_quiet (hub_unreachable_subject "hub") eq_refl)
                    eq_refl eq_refl eq_refl)
      as (Hrun & Hdb & _ & Hcalls).
    eexists. split; [exact Hrun|]. split; [exact Hdb|exact Hcalls].
Defined.

Lemma startup_sync_with_an_empty_hub_witness :
  ∃ w',
    startup_sync create_server servers (world db.init [] remote_empty_hub) = (Ok tt, w')
    ∧ new_runs (world db.init [] remote_empty_hub) w'
      = skipped_rows (w_now (world db.init [] remote_empty_hub))
                     (server_cfg <$> spoke_cfgs servers).
Proof.
  assert (fetch (server Healthy "hub") (world db.init [] remote_empty_hub)
          = (Ok no_records,
             (fetch (server Healthy "hub") (world db.init [] remote_empty_hub)).2))
    as Hfetch by (apply run_returned; decided).
  destruct (startup_sync_with_an_empty_hub create_server servers
              (mkServerEntry hub_cfg (Some "hub")) [] (server Healthy "hub") no_records
              (world db.init [] remote_empty_hub) _ eq_refl eq_refl eq_refl Hfetch)
    as (Hrun & _ & _ & Hruns & _).
  - intros rtype. unfold get_set, no_records.
    rewrite lookup_insert. case_decide; [reflexivity|].
    rewrite lookup_singleton. by case_decide.
  - eexists. split; [exact Hrun|exact Hruns].
Defined.


Lemma failed_clearing_records_nothing_witness :
  ∃ w',
    _clear create_server "spoke" down_cfg (world cached [] remote) = (Raise refused, w')
    ∧ w_db w' = w_db (world cached [] remote)
    ∧ w_outbox w' = w_outbox (world cached [] remote).
Proof.
  destruct (failed_clearing_records_nothing create_server "spoke" down_cfg
              (world cached [] remote) eq_refl) as (_ & Hfetch & Hkept).
  pose proof (Hfetch (server Unreachable "spoke") refused
                     (fetch (server Unreachable "spoke") (world cached [] remote)).2
                     eq_refl eq_refl) as Hrun.
  destruct (Hkept _ _ Hrun) as (Hdb & Hout & _).
  eexists. split; [exact Hrun|]. split; [exact Hdb|exact Hout].
Defined.

Lemma clearing_empties_a_healthy_spoke_witness :
  ∃ w',
    _clear create_server "spoke" spoke_cfg (world cached [] remote) = (Ok tt, w')
    ∧ (∀ rtype, get_set (live "spoke" (w_remote w')) rtype = ∅)
    ∧ live "hub" (w_remote w') = live "hub" (w_remote (world cached [] remote)).
Proof.
  destruct (clearing_empties_a_healthy_spoke create_server live "spoke" spoke_cfg
              (server Healthy "spoke") (world cached [] remote)
              eq_refl (fake_healthy_spoke "spoke"))
    as (w' & Hrun & Hempty & Hothers & _).
  - apply valid_recordsb_spec. by_computation.
  - decided.
  - reflexivity.
  - exists w'. split; [exact Hrun|]. split; [exact Hempty|].
    apply Hothers. discriminate.
Defined.

(** A server that answers 503 to every request is asked three times. *)
Lemma retry_returns_checked_responses_witness :
  sent (_request_with_retry (config_retries None) (mkSession busy 0 [])).2
  = Z.to_nat (config_retries None).
Proof.
  pose proof (retry_returns_checked_responses busy None) as H. cbv zeta in H.
  destruct (_request_with_retry (config_retries None) (mkSession busy 0 []))
    as [r s].
  destruct H as (_ & Hbusy & _).
  destruct Hbusy as [Hsent _]; [|reflexivity|exact Hsent].
  intros k. exists (Response.mk 503 "busy"). split; [reflexivity|]. cbn. lia.
Defined.

Lemma extracted_zone_witness :
  Technitium._extract_zone ("nas" +:+ "." +:+ "home") = "home" +:+ "."
  ∧ Technitium._extract_zone "nas" = "nas" +:+ ".".
Proof.
  destruct extracted_zone_drops_the_first_label as [Hdot Hnone].
  split; [apply (Hdot "nas" "home")|apply (Hnone "nas")]; reflexivity.
Defined.

Lemma pihole_cname_entry_witness :
  PiHole.cname_records
    [PiHole.cname_entry (DNSRecord.mk "alias.home" "nas.home" "CNAME" None)]
  = Ok {[ DNSRecord.to_cname_format (DNSRecord.mk "alias.home" "nas.home" "CNAME" None) ]}.
Proof.
  destruct (pihole_cname_entry_reads_back
              (DNSRecord.mk "alias.home" "nas.home" "CNAME" None) eq_refl eq_refl)
    as [Hentry _].
  exact Hentry.
Defined.

Lemma record_survives_witness :
  DNSRecord.from_a_string
    (DNSRecord.to_a_format (DNSRecord.mk "nas.home" "1.2.3.4" "A" None))
  = Ok (DNSRecord.mk "nas.home" "1.2.3.4" "A" None)
  ∧ DNSRecord.from_a_string
      (DNSRecord.to_a_format (DNSRecord.mk "nas.home" "1.2.3.4" "A" (Some 300%Z)))
    ≠ Ok (DNSRecord.mk "nas.home" "1.2.3.4" "A" (Some 300%Z)).
Proof.
  destruct (record_survives_its_canonical_string
              (DNSRecord.mk "nas.home" "1.2.3.4" "A" None)) as ([_ Hback] & _).
  destruct (record_survives_its_canonical_string
              (DNSRecord.mk "nas.home" "1.2.3.4" "A" (Some 300%Z))) as (_ & _ & Httl).
  split; [apply Hback; reflexivity|].
  destruct Httl as [Hnot _]; [discriminate|exact Hnot].
Defined.




(** The password comes from the secrets manager, the zone from the
    configuration. *)
Lemma credentials_witness :
  ∃ credentials,
    _load_credentials get_credential "nas" auth = Ok credentials
    ∧ dom credentials = list_to_set auth.*1.
Proof.
  destruct (credentials_prefer_the_secrets_manager (Other := unit) get_credential "nas")
    as [Hplain _].
  destruct (Hplain auth) as (credentials & Hrun & Hdom & _).
  - decided.
  - intros field value Hin.
    apply elem_of_cons in Hin as [[= -> ->]|Hin];
      [|apply list_elem_of_singleton in Hin as [= -> ->]]; reflexivity.
  - intros field _. unfold get_credential. case_bool_decide; by eexists.
  - exists credentials. split; [exact Hrun|exact Hdom].
Defined.

(** The webhook is down and the port of the mail is empty: the embed was
    tried, the failure of the webhook is swallowed, and what leaves
    [_dispatch] is the failed conversion of the port. *)
Lemma dispatch_witness :
  ∃ sent,
    _dispatch "subject" "body" _RED (set_host host_without_port (world db.init [] ∅))
    = (prepared host_without_port "subject" "body",
       post sent (set_host host_without_port (world db.init [] ∅)))
    ∧ length (filter (λ d, is_discord d = true) sent) = 1
    ∧ length (filter (λ d, is_email d = true) sent) = 0.
Proof.
  destruct (dispatch_swallows_transport_failures "subject" "body" _RED
              (set_host host_without_port (world db.init [] ∅)))
    as (sent & Hrun & Hdiscord & Hemail & _).
  - intros d e [= <-]. reflexivity.
  - exists sent. split; [exact Hrun|]. split; [exact Hdiscord|exact Hemail].
Defined.

End more_examples.
